(** * pyext2: a shallow embedding of the ext2 engine

    The development follows the Python sources:
      - [ext2/fs/device.py]       the random-access byte device;
      - [ext2/disk/disk.py]       [Ext2Disk]: inode reading, bitmap scans,
                                  the inode allocator, absolute path lookup;
      - [ext2/file/directory.py]  [_Entry], [_EntryList], [Ext2Directory].

    Python integers are unbounded, so they are [Z]; [/] and [%] on them
    are floor division and floor modulus, which are [Z.div] and [Z.modulo]
    for the positive divisors used here.  Python 2 [str] is a byte string:
    names and paths are [string] (a list of 8-bit [ascii]), device contents
    are lists of byte values in [Z]. *)

From Stdlib Require Import ZArith List String Ascii Bool Lia.
Import ListNotations.
Local Open Scope Z_scope.

(** ** Outcomes of a call

    A Python call returns a value, raises, or does not return.  The last
    case is needed for the entry scan, whose [while] loop spins on a record
    of length zero. *)

Inductive Error : Type :=
| FilesystemError (msg : string)
| FileNotFoundError
| UnsupportedOperationError
| PyException (msg : string)
| StructError
| TypeError
| IndexError
| AttributeError
| AssertionError
| IOError
| ZeroDivisionError.

Inductive Result (A : Type) : Type :=
| Ok (a : A)
| Raise (e : Error)
| Diverge.

Arguments Ok {A} a.
Arguments Raise {A} e.
Arguments Diverge {A}.

Definition bindR {A B : Type} (r : Result A) (k : A -> Result B) : Result B :=
  match r with
  | Ok a => k a
  | Raise e => Raise e
  | Diverge => Diverge
  end.

(** Code that mutates: the state reached when an exception is raised is
    kept, as it is in Python. *)

Definition M (S A : Type) : Type := S -> Result A * S.

Definition ret {S A : Type} (a : A) : M S A := fun s => (Ok a, s).

Definition raise {S A : Type} (e : Error) : M S A := fun s => (Raise e, s).

Definition bind {S A B : Type} (m : M S A) (k : A -> M S B) : M S B :=
  fun s =>
    match m s with
    | (Ok a, s') => k a s'
    | (Raise e, s') => (Raise e, s')
    | (Diverge, s') => (Diverge, s')
    end.

Definition get {S : Type} : M S S := fun s => (Ok s, s).

Definition put {S : Type} (s : S) : M S unit := fun _ => (Ok tt, s).

(** A read-only computation run inside a mutating one. *)
Definition liftR {S A : Type} (f : S -> Result A) : M S A :=
  fun s => (f s, s).

Declare Scope py_scope.
Delimit Scope py_scope with py.

Notation "x <- m ;; k" := (bind m (fun x => k))
  (at level 61, m at next level, right associativity) : py_scope.
Notation "m ;;; k" := (bind m (fun _ => k))
  (at level 61, right associativity) : py_scope.
Notation "'try' x := r 'in' k" := (bindR r (fun x => k))
  (at level 61, x name, r at next level, right associativity) : py_scope.

Local Open Scope py_scope.

(** ** Bytes, [struct.pack] and [struct.unpack_from] (little endian) *)

Fixpoint le_bytes (n : nat) (v : Z) : list Z :=
  match n with
  | O => []
  | S n' => (v mod 256) :: le_bytes n' (v / 256)
  end.

Fixpoint le_value (bs : list Z) : Z :=
  match bs with
  | [] => 0
  | b :: bs' => b + 256 * le_value bs'
  end.

(** [pack] of one unsigned field of [n] bytes: [struct.error] when the
    value does not fit. *)
Definition pack_uint (n : nat) (v : Z) : Result (list Z) :=
  if (0 <=? v) && (v <? 256 ^ Z.of_nat n) then Ok (le_bytes n v)
  else Raise StructError.

(** The unsigned field of [n] bytes at offset [off] of [buf]. *)
Definition uint_at (n : nat) (buf : list Z) (off : Z) : Z :=
  le_value (firstn n (skipn (Z.to_nat off) buf)).

(** The signed field ([i], [h]) of [n] bytes at offset [off]. *)
Definition sint_at (n : nat) (buf : list Z) (off : Z) : Z :=
  let u := uint_at n buf off in
  if u <? 256 ^ Z.of_nat n / 2 then u else u - 256 ^ Z.of_nat n.

(** [unpack_from] raises [struct.error] unless [size] bytes are available
    from [off]. *)
Definition unpack_check (size : Z) (buf : list Z) (off : Z) : Result unit :=
  if size <=? Z.of_nat (List.length buf) - off then Ok tt else Raise StructError.

Definition bytes_of_string (s : string) : list Z :=
  map (fun c => Z.of_N (N_of_ascii c)) (list_ascii_of_string s).

Definition string_of_bytes (bs : list Z) : string :=
  string_of_list_ascii (map (fun b => ascii_of_N (Z.to_N b)) bs).

(** The [{n}s] field at offset [off]. *)
Definition str_at (n : Z) (buf : list Z) (off : Z) : string :=
  string_of_bytes (firstn (Z.to_nat n) (skipn (Z.to_nat off) buf)).

Definition zeros (n : Z) : list Z := repeat 0 (Z.to_nat n).

Definition strlen (s : string) : Z := Z.of_nat (String.length s).

(** ** The device ([ext2/fs/device.py], [_DeviceFromFile])

    [_imageFile] is [None] until [mount]; the file is a growable sequence
    of bytes.  [seek] followed by [read] or [write] is one positioned
    access. *)

Definition Device : Type := option (list Z).

(** [file.write] at a position: bytes in place, the file extended with
    zeros when the position is past its end.  Writing the empty string
    writes nothing: the file keeps its size wherever the position is. *)
Definition overwrite (pos : nat) (bs img : list Z) : list Z :=
  match bs with
  | [] => img
  | _ :: _ =>
      firstn pos img ++ repeat 0 (pos - List.length img) ++ bs
        ++ skipn (pos + List.length bs) img
  end.

(** What Python passes to [file.write]: a byte string, or (in
    [Ext2Disk._allocateInode]) an integer, which [file.write] refuses. *)
Inductive PyArg : Type :=
| PyStr (bs : list Z)
| PyInt (n : Z).

Module _DeviceFromFile.

Definition isMounted (d : Device) : bool :=
  match d with Some _ => true | None => false end.

Definition read (position size : Z) (d : Device) : Result (list Z) :=
  match d with
  | None => Raise AssertionError
  | Some img =>
      if position <? 0 then Raise IOError
      else if size <? 0 then Ok (skipn (Z.to_nat position) img)
      else Ok (firstn (Z.to_nat size) (skipn (Z.to_nat position) img))
  end.

Definition write (position : Z) (byteString : PyArg) (d : Device)
  : Result unit * Device :=
  match d with
  | None => (Raise AttributeError, d)
  | Some img =>
      if position <? 0 then (Raise IOError, d)
      else match byteString with
           | PyInt _ => (Raise TypeError, d)
           | PyStr bs => (Ok tt, Some (overwrite (Z.to_nat position) bs img))
           end
  end.

End _DeviceFromFile.

(** ** Python list helpers *)

(** [l[i]], with Python's negative indices and [IndexError]. *)
Definition py_index {A : Type} (l : list A) (i : Z) : Result A :=
  let n := Z.of_nat (List.length l) in
  let j := if i <? 0 then i + n else i in
  if (0 <=? j) && (j <? n) then
    match nth_error l (Z.to_nat j) with
    | Some a => Ok a
    | None => Raise IndexError
    end
  else Raise IndexError.

Definition py_div (a b : Z) : Result Z :=
  if b =? 0 then Raise ZeroDivisionError else Ok (a / b).

Definition py_mod (a b : Z) : Result Z :=
  if b =? 0 then Raise ZeroDivisionError else Ok (a mod b).

(** [enumerate(l)]. *)
Definition enumerate {A : Type} (l : list A) : list (Z * A) :=
  combine (map Z.of_nat (seq 0 (List.length l))) l.

(** [range(n)]. *)
Definition range (n : Z) : list Z := map Z.of_nat (seq 0 (Z.to_nat n)).

(** [for x in l: body(x)] where the body mutates and may raise. *)
Fixpoint forM_ {S A : Type} (l : list A) (body : A -> M S unit) : M S unit :=
  match l with
  | [] => ret tt
  | x :: l' => body x ;;; forM_ l' body
  end.

(** [for x in l] where the body only reads and may raise. *)
Fixpoint mapR {A B : Type} (f : A -> Result B) (l : list A) : Result (list B) :=
  match l with
  | [] => Ok []
  | x :: l' => try y := f x in try ys := mapR f l' in Ok (y :: ys)
  end.

(** ** Superblock, group descriptors, filesystem

    [superblock.py] and [bgdt.py] are not part of the sources at hand; the
    records hold the attributes that [disk.py] and [directory.py] read
    from them, under the names used there. *)

Record Superblock : Type := mkSuperblock {
  sb_numInodes : Z;
  sb_numBlocks : Z;
  sb_numFreeBlocks : Z;
  sb_numFreeInodes : Z;
  sb_firstDataBlock : Z;
  sb_blockSize : Z;
  sb_numBlocksPerGroup : Z;
  sb_numInodesPerGroup : Z;
  sb_revisionMajor : Z;
  sb_firstInode : Z;
  sb_inodeSize : Z;
  sb_creatorOS : string
}.

Record BGDTEntry : Type := mkBGDTEntry {
  bg_blockBitmapLocation : Z;
  bg_inodeBitmapLocation : Z;
  bg_inodeTableLocation : Z;
  bg_numFreeBlocks : Z;
  bg_numFreeInodes : Z;
  bg_numDirectories : Z
}.

(** The mounted filesystem: the image file, the cached superblock and
    group descriptor table, and the host clock read by the allocator. *)
Record FS : Type := mkFS {
  device : Device;
  superblock : Superblock;
  bgdt : list BGDTEntry;
  now : Z
}.

Definition set_device (d : Device) (fs : FS) : FS :=
  mkFS d (superblock fs) (bgdt fs) (now fs).

Definition set_superblock (sb : Superblock) (fs : FS) : FS :=
  mkFS (device fs) sb (bgdt fs) (now fs).

Definition set_bgdt (t : list BGDTEntry) (fs : FS) : FS :=
  mkFS (device fs) (superblock fs) t (now fs).

Definition blockSize (fs : FS) : Z := sb_blockSize (superblock fs).

(** The inode object.  [Ext2Disk._readInode] names the fields [num] and
    [num_links]; [directory.py] reads the same object as [number] and
    [numLinks]. *)
Record Inode : Type := mkInode {
  i_number : Z;
  i_used : bool;
  i_mode : Z;
  i_uid : Z;
  i_size : Z;
  i_time_accessed : Z;
  i_time_created : Z;
  i_time_modified : Z;
  i_time_deleted : Z;
  i_gid : Z;
  i_numLinks : Z;
  i_flags : Z;
  i_blocks : list Z
}.

(** ** [Ext2Disk] ([ext2/disk/disk.py]) *)

Module Ext2Disk.

(** [self._imageFile.seek(pos); self._imageFile.read(size)]. *)
Definition file_read (pos size : Z) (fs : FS) : Result (list Z) :=
  match device fs with
  | None => Raise AttributeError
  | Some img =>
      if pos <? 0 then Raise IOError
      else if size <? 0 then Ok (skipn (Z.to_nat pos) img)
      else Ok (firstn (Z.to_nat size) (skipn (Z.to_nat pos) img))
  end.

(** [self._imageFile.seek(pos); self._imageFile.write(v)]. *)
Definition file_write (pos : Z) (v : PyArg) : M FS unit :=
  fun fs =>
    match device fs with
    | None => (Raise AttributeError, fs)
    | Some img =>
        if pos <? 0 then (Raise IOError, fs)
        else match v with
             | PyInt _ => (Raise TypeError, fs)
             | PyStr bs =>
                 (Ok tt, set_device (Some (overwrite (Z.to_nat pos) bs img)) fs)
             end
    end.

Definition _readBlock (blockId : Z) (fs : FS) : Result (list Z) :=
  try bytes := file_read (blockId * blockSize fs) (blockSize fs) fs in
  if Z.of_nat (List.length bytes) <? blockSize fs
  then Raise (PyException "Invalid block.")
  else Ok bytes.

(** The fifteen block pointers, [fields[10+i]] for [i] in [range(15)]. *)
Definition inode_blocks (inodeBytes : list Z) : list Z :=
  map (fun i => uint_at 4 inodeBytes (40 + 4 * i)) (range 15).

Definition _readInode (inodeNum : Z) (fs : FS) : Result Inode :=
  let sb := superblock fs in
  try bgroupNum := py_div (inodeNum - 1) (sb_numInodesPerGroup sb) in
  try bgroupIndex := py_mod (inodeNum - 1) (sb_numInodesPerGroup sb) in
  try bgroupDescEntry := py_index (bgdt fs) bgroupNum in
  let bitmapStartPos := bg_inodeBitmapLocation bgroupDescEntry * sb_blockSize sb in
  let bitmapByteIndex := bgroupIndex / 8 in
  let usedTest := Z.shiftl 1 (bgroupIndex mod 8) in
  let tableStartPos := bg_inodeTableLocation bgroupDescEntry * sb_blockSize sb in
  let inodeStartPos := tableStartPos + bgroupIndex * sb_inodeSize sb in
  try bitmapBytes := file_read (bitmapStartPos + bitmapByteIndex) 1 fs in
  try bitmapByte :=
    match bitmapBytes with
    | [b] => Ok b
    | _ => Raise StructError
    end in
  try inodeBytes := file_read inodeStartPos (sb_inodeSize sb) fs in
  if Z.of_nat (List.length inodeBytes) <? sb_inodeSize sb
  then Raise (PyException "Invalid inode.")
  else
    try _u := unpack_check (if sb_revisionMajor sb =? 0 then 100 else 112)
                           inodeBytes 0 in
    let isLinux := String.eqb (sb_creatorOS sb) "LINUX" in
    let isHurd := String.eqb (sb_creatorOS sb) "HURD" in
    try _o := (if isLinux || isHurd then unpack_check 8 inodeBytes 116
               else Ok tt) in
    let mode0 := uint_at 2 inodeBytes 0 in
    let uid0 := uint_at 2 inodeBytes 2 in
    let size0 := if sb_revisionMajor sb =? 0 then sint_at 4 inodeBytes 4
                 else uint_at 4 inodeBytes 4 in
    let gid0 := uint_at 2 inodeBytes 24 in
    let size1 := if 0 <? sb_revisionMajor sb
                 then Z.lor size0 (Z.shiftl (uint_at 4 inodeBytes 108) 32)
                 else size0 in
    let mode1 := if isLinux then mode0
                 else if isHurd
                      then Z.lor mode0 (Z.shiftl (uint_at 2 inodeBytes 118) 16)
                      else mode0 in
    let uid1 := if isLinux || isHurd
                then Z.lor uid0 (Z.shiftl (uint_at 2 inodeBytes 120) 16)
                else uid0 in
    let gid1 := if isLinux || isHurd
                then Z.lor gid0 (Z.shiftl (uint_at 2 inodeBytes 122) 16)
                else gid0 in
    Ok (mkInode inodeNum
                (negb (Z.land bitmapByte usedTest =? 0))
                mode1 uid1 size1
                (uint_at 4 inodeBytes 8) (uint_at 4 inodeBytes 12)
                (uint_at 4 inodeBytes 16) (uint_at 4 inodeBytes 20)
                gid1 (sint_at 2 inodeBytes 26) (uint_at 4 inodeBytes 32)
                (inode_blocks inodeBytes)).

(** The bits set in one bitmap byte, [for i in range(8)], each mapped
    through [f]. *)
Definition setBits {A : Type} (byte : Z) (f : Z -> A) : list A :=
  flat_map (fun i => if Z.land (Z.shiftl 1 i) byte =? 0 then [] else [f i])
           (range 8).

(** The first loop of [__getUsedBlocks] and [__getUsedInodes]: one tuple of
    byte values per group. *)
Definition readBitmaps (location : BGDTEntry -> Z) (bitmapSize : Z)
    (what : string) (fs : FS) : Result (list (list Z)) :=
  mapR (fun bgroupDescEntry =>
          let bitmapStartPos := location bgroupDescEntry * blockSize fs in
          try bitmapBytes := file_read bitmapStartPos bitmapSize fs in
          if Z.of_nat (List.length bitmapBytes) <? bitmapSize
          then Raise (PyException what)
          else if bitmapSize <? 0 then Raise StructError
          else Ok bitmapBytes)
       (bgdt fs).

Definition __getUsedBlocks (fs : FS) : Result (list Z) :=
  let sb := superblock fs in
  try bitmaps := readBitmaps bg_blockBitmapLocation
                   (sb_numBlocksPerGroup sb / 8) "Invalid block bitmap." fs in
  Ok (flat_map (fun gb : Z * list Z =>
        let (groupNum, bitmap) := gb in
        flat_map (fun ib : Z * Z =>
          let (byteIndex, byte) := ib in
          if byte =? 0 then []
          else setBits byte (fun i =>
                 groupNum * sb_numBlocksPerGroup sb + byteIndex * 8 + i + 1))
          (enumerate bitmap))
        (enumerate bitmaps)).

Definition __getUsedInodes (fs : FS) : Result (list Z) :=
  let sb := superblock fs in
  try bitmaps := readBitmaps bg_inodeBitmapLocation
                   (sb_numInodesPerGroup sb / 8) "Invalid inode bitmap." fs in
  Ok (flat_map (fun gb : Z * list Z =>
        let (groupNum, bitmap) := gb in
        flat_map (fun ib : Z * Z =>
          let (byteIndex, byte) := ib in
          if byte =? 0 then []
          else flat_map (fun inum =>
                 if sb_firstInode sb <=? inum then [inum] else [])
                 (setBits byte (fun i =>
                    groupNum * sb_numInodesPerGroup sb + byteIndex * 8 + i + 1)))
          (enumerate bitmap))
        (enumerate bitmaps)).

(** The group chosen by the first loop of [_allocateInode]: the index and
    bitmap position of the first descriptor with a free inode.  The source
    reads the descriptor's attribute [num_free_inodes]; it is taken to be
    the free-inode counter that the rest of the file reads as
    [numFreeInodes]. *)
Fixpoint firstFreeGroup (entries : list (Z * BGDTEntry)) (bsize : Z)
  : option (Z * Z) :=
  match entries with
  | [] => None
  | (bgroupNum, bgroupDescEntry) :: rest =>
      if 0 <? bg_numFreeInodes bgroupDescEntry
      then Some (bgroupNum, bg_inodeBitmapLocation bgroupDescEntry * bsize)
      else firstFreeGroup rest bsize
  end.

(** [_allocateInode(isForDirectory)].  The body has no [return] and no
    [break]: every zero bit of the bitmap reaches the [write], which is
    handed the integer [byte | (1 << i)]. *)
Definition _allocateInode (isForDirectory : bool) : M FS unit :=
  fs <- get ;;
  let sb := superblock fs in
  let bitmapSize := sb_numInodesPerGroup sb / 8 in
  match firstFreeGroup (enumerate (bgdt fs)) (sb_blockSize sb) with
  | None => raise (PyException "No free inodes.")
  | Some (bgroupNum, bitmapStartPos) =>
      bitmapBytes <- liftR (file_read bitmapStartPos bitmapSize) ;;
      if Z.of_nat (List.length bitmapBytes) <? bitmapSize
      then raise (PyException "Invalid inode bitmap.")
      else if bitmapSize <? 0 then raise StructError
      else
        forM_ (enumerate bitmapBytes) (fun ib : Z * Z =>
          let (byteIndex, byte) := ib in
          if byte =? 255 then ret tt
          else forM_ (range 8) (fun i =>
                 if Z.land (Z.shiftl 1 i) byte =? 0
                 then file_write (bitmapStartPos + byteIndex)
                                 (PyInt (Z.lor byte (Z.shiftl 1 i)))
                 else ret tt))
  end.

End Ext2Disk.

(** ** The filesystem facade and the inode engine

    [directory.py] calls [fs._readBlock], [fs._writeToBlock],
    [fs._readInode], [fs._allocateBlock], [fs._allocateInode] and the inode
    methods [lookupBlockId], [assignNextBlockId] and the setters of [size]
    and [numLinks].  The files that define them ([ext2/fs/fs.py],
    [ext2/fs/inode.py]) are not part of the sources at hand. *)

Definition with_blocks (bl : list Z) (ino : Inode) : Inode :=
  mkInode (i_number ino) (i_used ino) (i_mode ino) (i_uid ino) (i_size ino)
          (i_time_accessed ino) (i_time_created ino) (i_time_modified ino)
          (i_time_deleted ino) (i_gid ino) (i_numLinks ino) (i_flags ino) bl.

Definition with_size (sz : Z) (ino : Inode) : Inode :=
  mkInode (i_number ino) (i_used ino) (i_mode ino) (i_uid ino) sz
          (i_time_accessed ino) (i_time_created ino) (i_time_modified ino)
          (i_time_deleted ino) (i_gid ino) (i_numLinks ino) (i_flags ino)
          (i_blocks ino).

Definition with_numLinks (n : Z) (ino : Inode) : Inode :=
  mkInode (i_number ino) (i_used ino) (i_mode ino) (i_uid ino) (i_size ino)
          (i_time_accessed ino) (i_time_created ino) (i_time_modified ino)
          (i_time_deleted ino) (i_gid ino) n (i_flags ino) (i_blocks ino).

(** [l[i] = v] for an index in range. *)
Fixpoint list_set {A : Type} (i : nat) (v : A) (l : list A) : list A :=
  match l, i with
  | [], _ => []
  | _ :: t, O => v :: t
  | h :: t, S i' => h :: list_set i' v t
  end.

Module Filesystem.

(** Modelled from the spec: [_readBlock] of the filesystem facade (section
    4.1: block-sized I/O is device I/O at [blockId * blockSize]; a short
    read is fatal), through [_DeviceFromFile.read]. *)
Definition _readBlock (blockId : Z) (fs : FS) : Result (list Z) :=
  try bytes := _DeviceFromFile.read (blockId * blockSize fs) (blockSize fs)
                                    (device fs) in
  if Z.of_nat (List.length bytes) <? blockSize fs
  then Raise (PyException "Invalid block.")
  else Ok bytes.

(** Modelled from the spec: [_writeToBlock] of the filesystem facade
    (section 4.1), the device write at [blockId * blockSize + offset]. *)
Definition _writeToBlock (blockId offset : Z) (byteString : list Z)
  : M FS unit :=
  fun fs =>
    let (r, d) := _DeviceFromFile.write (blockId * blockSize fs + offset)
                                        (PyStr byteString) (device fs) in
    (r, set_device d fs).

(** Modelled from the spec: [_readInode] of the filesystem facade (section
    4.5); the computation is the one [Ext2Disk._readInode] spells out. *)
Definition _readInode (inodeNum : Z) (fs : FS) : Result Inode :=
  Ext2Disk._readInode inodeNum fs.

(** Modelled from the spec: where inode [inodeNum] lives on the device
    (section 4.5). *)
Definition inodeStartPos (inodeNum : Z) (fs : FS) : Result Z :=
  let sb := superblock fs in
  try bgroupNum := py_div (inodeNum - 1) (sb_numInodesPerGroup sb) in
  try bgroupIndex := py_mod (inodeNum - 1) (sb_numInodesPerGroup sb) in
  try bgroupDescEntry := py_index (bgdt fs) bgroupNum in
  Ok (bg_inodeTableLocation bgroupDescEntry * sb_blockSize sb
      + bgroupIndex * sb_inodeSize sb).

(** Modelled from the spec: the serialisation of the inode object (absent):
    its fields laid over the bytes of the on-disk record, at the offsets
    from which [_readInode] unpacks them. *)
Definition serializeInode (ino : Inode) (sb : Superblock) (old : list Z)
  : list Z :=
  let isLinux := String.eqb (sb_creatorOS sb) "LINUX" in
  let isHurd := String.eqb (sb_creatorOS sb) "HURD" in
  let b0 := overwrite 0 (le_bytes 2 (i_mode ino)) old in
  let b1 := overwrite 2 (le_bytes 2 (i_uid ino)) b0 in
  let b2 := overwrite 4 (le_bytes 4 (i_size ino)) b1 in
  let b3 := overwrite 8 (le_bytes 4 (i_time_accessed ino)) b2 in
  let b4 := overwrite 12 (le_bytes 4 (i_time_created ino)) b3 in
  let b5 := overwrite 16 (le_bytes 4 (i_time_modified ino)) b4 in
  let b6 := overwrite 20 (le_bytes 4 (i_time_deleted ino)) b5 in
  let b7 := overwrite 24 (le_bytes 2 (i_gid ino)) b6 in
  let b8 := overwrite 26 (le_bytes 2 (i_numLinks ino)) b7 in
  let b9 := overwrite 32 (le_bytes 4 (i_flags ino)) b8 in
  let b10 := overwrite 40 (flat_map (le_bytes 4) (i_blocks ino)) b9 in
  let b11 := if 0 <? sb_revisionMajor sb
             then overwrite 108 (le_bytes 4 (Z.shiftr (i_size ino) 32)) b10
             else b10 in
  let b12 := if isHurd && negb isLinux
             then overwrite 118 (le_bytes 2 (Z.shiftr (i_mode ino) 16)) b11
             else b11 in
  if isLinux || isHurd
  then overwrite 122 (le_bytes 2 (Z.shiftr (i_gid ino) 16))
         (overwrite 120 (le_bytes 2 (Z.shiftr (i_uid ino) 16)) b12)
  else b12.

(** Modelled from the spec: the write-back of a modified inode, "in full"
    (section 4.5). *)
Definition writeInode (ino : Inode) : M FS unit :=
  fs <- get ;;
  pos <- liftR (inodeStartPos (i_number ino)) ;;
  old <- liftR (fun fs => _DeviceFromFile.read pos (sb_inodeSize (superblock fs))
                                               (device fs)) ;;
  if Z.of_nat (List.length old) <? sb_inodeSize (superblock fs)
  then raise (PyException "Invalid inode.")
  else _writeToBlock 0 pos (serializeInode ino (superblock fs) old).

(** Modelled from the spec: the setters of [inode.size] and
    [inode.numLinks]; the object is updated and written back. *)
Definition set_size (sz : Z) (ino : Inode) : M FS Inode :=
  writeInode (with_size sz ino) ;;; ret (with_size sz ino).

Definition set_numLinks (n : Z) (ino : Inode) : M FS Inode :=
  writeInode (with_numLinks n ino) ;;; ret (with_numLinks n ino).

(** Modelled from the spec: entry [idx] of the pointer block [bid] of an
    indirect level (section 4.5); block id 0 is a hole. *)
Definition ptr_at (bid idx : Z) (fs : FS) : Result Z :=
  if bid =? 0 then Ok 0
  else try blk := _readBlock bid fs in Ok (uint_at 4 blk (4 * idx)).

(** Modelled from the spec: the pointer reached from the indirect block
    [bid] of level [lvl] (0: its entries are data blocks) for the relative
    index [j] (section 4.5). *)
Fixpoint tree_lookup (lvl : nat) (bid j : Z) (fs : FS) : Result Z :=
  match lvl with
  | O => ptr_at bid j fs
  | S l =>
      let span := (blockSize fs / 4) ^ Z.of_nat lvl in
      try p := ptr_at bid (j / span) fs in
      tree_lookup l p (j mod span) fs
  end.

(** Modelled from the spec: [lookupBlockId(i)] (section 4.5): twelve direct
    pointers, then the singly, doubly and triply indirect ranges of
    [k = blockSize / 4] pointers per block; a zero id at any level is a
    hole. *)
Definition lookupBlockId (ino : Inode) (i : Z) (fs : FS) : Result Z :=
  let k := blockSize fs / 4 in
  if i <? 0 then Raise IndexError
  else if i <? 12 then py_index (i_blocks ino) i
  else if i <? 12 + k then
    try top := py_index (i_blocks ino) 12 in tree_lookup 0 top (i - 12) fs
  else if i <? 12 + k + k * k then
    try top := py_index (i_blocks ino) 13 in
    tree_lookup 1 top (i - 12 - k) fs
  else if i <? 12 + k + k * k + k * k * k then
    try top := py_index (i_blocks ino) 14 in
    tree_lookup 2 top (i - 12 - k - k * k) fs
  else Raise IndexError.

(** Modelled from the spec: the scan of the descriptors for the first
    whose counter [free] is positive (section 4.9). *)
Fixpoint firstGroupWith (free : BGDTEntry -> Z) (entries : list (Z * BGDTEntry))
  : option (Z * BGDTEntry) :=
  match entries with
  | [] => None
  | (g, e) :: rest =>
      if 0 <? free e then Some (g, e) else firstGroupWith free rest
  end.

(** Modelled from the spec: the index (byte * 8 + bit, least significant
    bit first) of the first zero bit of [bitmap] that is [eligible]
    (section 4.4). *)
Definition firstZeroBit (bitmap : list Z) (eligible : Z -> bool) : option Z :=
  List.find (fun n => eligible n
                      && negb (Z.testbit (nth (Z.to_nat (n / 8)) bitmap 0)
                                         (n mod 8)))
            (range (8 * Z.of_nat (List.length bitmap))).

Definition dec_numFreeBlocks (e : BGDTEntry) : BGDTEntry :=
  mkBGDTEntry (bg_blockBitmapLocation e) (bg_inodeBitmapLocation e)
              (bg_inodeTableLocation e) (bg_numFreeBlocks e - 1)
              (bg_numFreeInodes e) (bg_numDirectories e).

Definition dec_numFreeInodes (isDir : bool) (e : BGDTEntry) : BGDTEntry :=
  mkBGDTEntry (bg_blockBitmapLocation e) (bg_inodeBitmapLocation e)
              (bg_inodeTableLocation e) (bg_numFreeBlocks e)
              (bg_numFreeInodes e - 1)
              (if isDir then bg_numDirectories e + 1 else bg_numDirectories e).

Definition sb_with_free (fb fi : Z) (sb : Superblock) : Superblock :=
  mkSuperblock (sb_numInodes sb) (sb_numBlocks sb) fb fi
               (sb_firstDataBlock sb) (sb_blockSize sb)
               (sb_numBlocksPerGroup sb) (sb_numInodesPerGroup sb)
               (sb_revisionMajor sb) (sb_firstInode sb) (sb_inodeSize sb)
               (sb_creatorOS sb).

(** Modelled from the spec: the update of the counters (section 4.4).  The
    cached descriptor [g] and the cached superblock are replaced; the byte
    layout of the two structures belongs to the absent parsers, so the
    cached copies stand for the written ones. *)
Definition updateCounters (g : Z) (e : BGDTEntry) (sb : Superblock)
  : M FS unit :=
  fun fs =>
    (Ok tt, set_superblock sb (set_bgdt (list_set (Z.to_nat g) e (bgdt fs)) fs)).

(** Modelled from the spec: [allocateBlock(zeroFill)] (section 4.9): the
    first group with [numFreeBlocks > 0], the first zero bit of its block
    bitmap, the bit set, the block zero-filled on request, both counters
    decremented; the id is
    [firstDataBlock + groupNum * numBlocksPerGroup + b * 8 + i]
    (section 4.4). *)
Definition _allocateBlock (zeroFill : bool) : M FS Z :=
  fs <- get ;;
  let sb := superblock fs in
  match firstGroupWith bg_numFreeBlocks (enumerate (bgdt fs)) with
  | None => raise (FilesystemError "No free blocks.")
  | Some (g, e) =>
      let start := bg_blockBitmapLocation e * sb_blockSize sb in
      let bitmapSize := sb_numBlocksPerGroup sb / 8 in
      bitmap <- liftR (fun fs => _DeviceFromFile.read start bitmapSize (device fs)) ;;
      if (Z.of_nat (List.length bitmap) <? bitmapSize) || (bitmapSize <? 0)
      then raise (PyException "Invalid block bitmap.")
      else
        match firstZeroBit bitmap (fun _ => true) with
        | None => raise (FilesystemError "No free blocks.")
        | Some n =>
            let byte := nth (Z.to_nat (n / 8)) bitmap 0 in
            let bid := sb_firstDataBlock sb + g * sb_numBlocksPerGroup sb + n in
            _writeToBlock 0 (start + n / 8)
                          [Z.lor byte (Z.shiftl 1 (n mod 8))] ;;;
            (if zeroFill then _writeToBlock bid 0 (zeros (sb_blockSize sb))
             else ret tt) ;;;
            updateCounters g (dec_numFreeBlocks e)
              (sb_with_free (sb_numFreeBlocks sb - 1) (sb_numFreeInodes sb) sb) ;;;
            ret bid
        end
  end.

(** Modelled from the spec: [allocateInode(mode, uid, gid)] (section 4.9):
    the first group with [numFreeInodes > 0], the first zero bit of its
    inode bitmap whose inode number is not below [firstInode], the bit
    set, the on-disk inode initialised, [numFreeInodes] decremented in the
    descriptor and the superblock, [numDirectories] incremented for a
    directory mode; the number is
    [groupNum * numInodesPerGroup + b * 8 + i + 1] (section 4.4). *)
Definition _allocateInode (mode uid gid : Z) : M FS Inode :=
  fs <- get ;;
  let sb := superblock fs in
  match firstGroupWith bg_numFreeInodes (enumerate (bgdt fs)) with
  | None => raise (FilesystemError "No free inodes.")
  | Some (g, e) =>
      let start := bg_inodeBitmapLocation e * sb_blockSize sb in
      let bitmapSize := sb_numInodesPerGroup sb / 8 in
      bitmap <- liftR (fun fs => _DeviceFromFile.read start bitmapSize (device fs)) ;;
      if (Z.of_nat (List.length bitmap) <? bitmapSize) || (bitmapSize <? 0)
      then raise (PyException "Invalid inode bitmap.")
      else
        match firstZeroBit bitmap
                (fun n => sb_firstInode sb <=? g * sb_numInodesPerGroup sb + n + 1)
        with
        | None => raise (FilesystemError "No free inodes.")
        | Some n =>
            let byte := nth (Z.to_nat (n / 8)) bitmap 0 in
            let inum := g * sb_numInodesPerGroup sb + n + 1 in
            let ino := mkInode inum true mode uid 0 (now fs) (now fs) (now fs) 0
                               gid 0 0 (repeat 0 15) in
            _writeToBlock 0 (start + n / 8)
                          [Z.lor byte (Z.shiftl 1 (n mod 8))] ;;;
            pos <- liftR (inodeStartPos inum) ;;
            _writeToBlock 0 pos (zeros (sb_inodeSize sb)) ;;;
            writeInode ino ;;;
            updateCounters g
              (dec_numFreeInodes (negb (Z.land mode 16384 =? 0)) e)
              (sb_with_free (sb_numFreeBlocks sb) (sb_numFreeInodes sb - 1) sb) ;;;
            ret ino
        end
  end.

Definition set_ptr (bid idx v : Z) : M FS unit :=
  _writeToBlock bid (4 * idx) (le_bytes 4 v).

(** Modelled from the spec: the indirect part of [assignNextBlockId]
    (section 4.5).  The first unused slot below the indirect block [bid]
    of level [lvl] takes [newId]; absent pointer blocks on the way are allocated
    zero-filled.  The result is the relative logical index, or [None] when
    every slot below [bid] is used. *)
Fixpoint tree_assign (lvl : nat) (bid newId : Z) {struct lvl}
  : M FS (option Z) :=
  fs <- get ;;
  let k := blockSize fs / 4 in
  match lvl with
  | O =>
      blk <- liftR (_readBlock bid) ;;
      match List.find (fun j => uint_at 4 blk (4 * j) =? 0) (range k) with
      | None => ret None
      | Some j => set_ptr bid j newId ;;; ret (Some j)
      end
  | S l =>
      let span := k ^ Z.of_nat lvl in
      (fix scan (js : list Z) : M FS (option Z) :=
         match js with
         | [] => ret None
         | j :: js' =>
             blk <- liftR (_readBlock bid) ;;
             let p := uint_at 4 blk (4 * j) in
             if p =? 0 then
               nb <- _allocateBlock true ;;
               set_ptr bid j nb ;;;
               r <- tree_assign l nb newId ;;
               ret (option_map (fun idx => j * span + idx) r)
             else
               r <- tree_assign l p newId ;;
               match r with
               | Some idx => ret (Some (j * span + idx))
               | None => scan js'
               end
         end) (range k)
  end.

(** Modelled from the spec: [numSectors] (bytes 28..31 of the on-disk
    inode) grows by [blockSize / 512] (section 4.5). *)
Definition addSectors (inodeNum : Z) : M FS unit :=
  fs <- get ;;
  pos <- liftR (inodeStartPos inodeNum) ;;
  old <- liftR (fun fs => _DeviceFromFile.read (pos + 28) 4 (device fs)) ;;
  _writeToBlock 0 (pos + 28) (le_bytes 4 (le_value old + blockSize fs / 512)).

(** Modelled from the spec: [assignNextBlockId(newId)] (section 4.5): the
    first unused logical slot takes [newId], indirect blocks are allocated
    as needed, [numSectors] grows by [blockSize / 512], the inode is
    written back and the logical index is returned. *)
Definition assignNextBlockId (newId : Z) (ino : Inode) : M FS (Inode * Z) :=
  fs <- get ;;
  let k := blockSize fs / 4 in
  let finish (ino' : Inode) (idx : Z) : M FS (Inode * Z) :=
    addSectors (i_number ino') ;;; writeInode ino' ;;; ret (ino', idx) in
  match List.find (fun i => nth (Z.to_nat i) (i_blocks ino) 0 =? 0) (range 12) with
  | Some i => finish (with_blocks (list_set (Z.to_nat i) newId (i_blocks ino)) ino) i
  | None =>
      (fix levels (ls : list (nat * Z)) : M FS (Inode * Z) :=
         match ls with
         | [] => raise (FilesystemError "No free block slot.")
         | (lvl, base) :: ls' =>
             let slot := (12 + lvl)%nat in
             let top := nth slot (i_blocks ino) 0 in
             if top =? 0 then
               nb <- _allocateBlock true ;;
               r <- tree_assign lvl nb newId ;;
               match r with
               | Some idx =>
                   finish (with_blocks (list_set slot nb (i_blocks ino)) ino)
                          (base + idx)
               | None => raise (FilesystemError "No free block slot.")
               end
             else
               r <- tree_assign lvl top newId ;;
               match r with
               | Some idx => finish ino (base + idx)
               | None => levels ls'
               end
         end) [(0%nat, 12); (1%nat, 12 + k); (2%nat, 12 + k + k * k)]
  end.

End Filesystem.

(** ** Directory entries and file objects ([ext2/file/directory.py]) *)

(** An [_Entry] object.  The [_prevEntry] and [_nextEntry] references link
    each entry to its neighbours in [_EntryList._entries]; in the model
    the neighbours are the adjacent elements of that list. *)
Record Entry : Type := mkEntry {
  e_name : string;
  e_inodeNum : Z;
  e_size : Z;
  e_bindex : Z;
  e_bid : Z;
  e_offset : Z
}.

(** The class chosen by [Ext2Directory._openEntry]. *)
Inductive Kind : Type :=
| KDirectory      (* Ext2Directory *)
| KRegularFile    (* Ext2RegularFile *)
| KSymlink        (* Ext2Symlink *)
| KFile.          (* Ext2File *)

(** A file object: its class, the entry it was opened from ([None] for
    the root), its inode object and, for a directory, the entries of its
    [_EntryList]. *)
Record File : Type := mkFile {
  f_kind : Kind;
  f_dirEntry : option Entry;
  f_inode : Inode;
  f_entries : list Entry
}.

(** What a method of a directory object works on: the object itself and
    the filesystem behind it. *)
Record Ctx : Type := mkCtx {
  c_self : File;
  c_fs : FS
}.

(** A filesystem operation run from a method of a directory. *)
Definition onFS {A : Type} (m : M FS A) : M Ctx A :=
  fun c => let (r, fs') := m (c_fs c) in (r, mkCtx (c_self c) fs').

Definition set_inode (ino : Inode) : M Ctx unit :=
  fun c => (Ok tt, mkCtx (mkFile (f_kind (c_self c)) (f_dirEntry (c_self c))
                                 ino (f_entries (c_self c)))
                         (c_fs c)).

Definition set_entries (es : list Entry) : M Ctx unit :=
  fun c => (Ok tt, mkCtx (mkFile (f_kind (c_self c)) (f_dirEntry (c_self c))
                                 (f_inode (c_self c)) es)
                         (c_fs c)).

(** Modelled from the spec: [name] of the base class [Ext2File]
    ([ext2/file/file.py], absent): it comes from the discovering entry and
    is empty for the root (section 4.7). *)
Definition name (f : File) : string :=
  match f_dirEntry f with
  | Some e => e_name e
  | None => EmptyString
  end.

(** Modelled from the spec: [isDir] of the base class [Ext2File] (absent),
    which [Ext2Directory] overrides with [True]: it holds of directories
    only (section 4.7). *)
Definition isDir (f : File) : bool :=
  match f_kind f with KDirectory => true | _ => false end.

(** Modelled from the spec: [numBlocks] of the base class [Ext2File]
    (absent): the number of logical blocks that cover [size] (section
    4.7, one block per logical block honoring [size]). *)
Definition numBlocks (ino : Inode) (fs : FS) : Result Z :=
  py_div (i_size ino + blockSize fs - 1) (blockSize fs).

Definition align4 (n : Z) : Z := n - n mod 4.

(** The bytes of a directory record: inode number, record length, name
    length, file type 0, name. *)
Definition dirRecord (inodeNum recordLength : Z) (nm : string) : list Z :=
  le_bytes 4 inodeNum ++ le_bytes 2 recordLength ++ [strlen nm; 0]
    ++ bytes_of_string nm.

Module _Entry.

(** [_Entry.__init__]: the header is unpacked with ["<IHB"], the name
    with ["<{nameLength}s"] at offset 8. *)
Definition __init__ (blockIndex blockId blockOffset : Z) (byteString : list Z)
  : Result Entry :=
  try _h := unpack_check 7 byteString 0 in
  let nameLength := uint_at 1 byteString 6 in
  try _n := unpack_check nameLength byteString 8 in
  Ok (mkEntry (str_at nameLength byteString 8)
              (uint_at 4 byteString 0)
              (uint_at 2 byteString 4)
              blockIndex blockId blockOffset).

(** The setter of [nextEntry] for a value that is not [None]: the record
    length of this entry on disk becomes the distance to the next entry. *)
Definition set_nextEntry (this value : Entry) : M FS unit :=
  fs <- get ;;
  newSize <-
    (if e_bindex value =? e_bindex this then
       let newSize := e_offset value - e_offset this in
       if 0 <? newSize then ret newSize
       else raise (FilesystemError "Next entry not after previous entry.")
     else ret (blockSize fs - e_offset this + e_offset value)) ;;
  bytes <- liftR (fun _ => pack_uint 2 newSize) ;;
  Filesystem._writeToBlock (e_bid this) (e_offset this + 4) bytes.

End _Entry.

Module _EntryList.

(** The [while offset < blockSize] loop of [__init__] over one block.
    Every turn parses one record; a record with [inodeNum == 0] leaves the
    loop.  [fuel] bounds the number of turns: with [blockSize] turns the
    loop can only be cut short when a record of length 0 keeps the offset
    in place, and then the Python loop does not end either. *)
Fixpoint scanBlock (fuel : nat) (i blockId offset : Z) (blockBytes : list Z)
    (bsize : Z) : Result (list Entry) :=
  if offset <? bsize then
    match fuel with
    | O => Diverge
    | S fuel' =>
        try entry := _Entry.__init__ i blockId offset
                       (skipn (Z.to_nat offset) blockBytes) in
        if e_inodeNum entry =? 0 then Ok []
        else
          try rest := scanBlock fuel' i blockId (offset + e_size entry)
                                blockBytes bsize in
          Ok (entry :: rest)
    end
  else Ok [].

(** The [for i in range(numBlocks)] loop of [__init__]. *)
Fixpoint scanBlocks (indices : list Z) (ino : Inode) (fs : FS)
  : Result (list Entry) :=
  match indices with
  | [] => Ok []
  | i :: rest =>
      try blockId := Filesystem.lookupBlockId ino i fs in
      if blockId =? 0 then Ok []
      else
        try blockBytes := Filesystem._readBlock blockId fs in
        try es := scanBlock (Z.to_nat (blockSize fs)) i blockId 0 blockBytes
                            (blockSize fs) in
        try more := scanBlocks rest ino fs in
        Ok (es ++ more)
  end.

Definition __init__ (ino : Inode) (fs : FS) : Result (list Entry) :=
  try n := numBlocks ino fs in
  scanBlocks (range n) ino fs.

(** [pack("<IHBB{n}s", inodeNum, entrySize, nameLength, 0, name)]. *)
Definition packEntry (inodeNum entrySize : Z) (nm : string)
  : Result (list Z) :=
  try a := pack_uint 4 inodeNum in
  try b := pack_uint 2 entrySize in
  try c := pack_uint 1 (strlen nm) in
  Ok (a ++ b ++ c ++ [0] ++ bytes_of_string nm).

(** The [if]/[else] of [append] that chooses where the new record goes:
    after the last record in its block when it fits, else at the start of
    a block allocated for the directory.  The result is
    [(entryBlockIndex, entryBlockId, entryOffset)]. *)
Definition placeEntry (lastEntry : Entry) (entrySize : Z) : M Ctx (Z * Z * Z) :=
  c <- get ;;
  let bsize := blockSize (c_fs c) in
  if entrySize + e_offset lastEntry + strlen (e_name lastEntry) + 11 <? bsize
  then
    let lastSize := align4 (strlen (e_name lastEntry) + 11) in
    ret (e_bindex lastEntry, e_bid lastEntry, e_offset lastEntry + lastSize)
  else
    entryBlockId <- onFS (Filesystem._allocateBlock true) ;;
    r <- onFS (Filesystem.assignNextBlockId entryBlockId
                 (f_inode (c_self c))) ;;
    set_inode (fst r) ;;;
    ino' <- onFS (Filesystem.set_size (i_size (fst r) + bsize) (fst r)) ;;
    set_inode ino' ;;;
    ret (snd r, entryBlockId, 0).

(** [append(name, inodeNum)], a method of the entry list of the directory
    [c_self]. *)
Definition append (nm : string) (inodeNum : Z) : M Ctx Entry :=
  let nameLength := strlen nm in
  if 255 <? nameLength then raise (FilesystemError "Name is too long.")
  else if negb (0 <? nameLength) then raise (FilesystemError "Name is too short.")
  else
    lastEntry <- liftR (fun c => py_index (f_entries (c_self c)) (-1)) ;;
    let entrySize := align4 (nameLength + 11) in
    place <- placeEntry lastEntry entrySize ;;
    let '(entryBlockIndex, entryBlockId, entryOffset) := place in
    byteString <- liftR (fun _ => packEntry inodeNum entrySize nm) ;;
    onFS (Filesystem._writeToBlock entryBlockId entryOffset byteString) ;;;
    newEntry <- liftR (fun _ => _Entry.__init__ entryBlockIndex entryBlockId
                                                entryOffset byteString) ;;
    onFS (_Entry.set_nextEntry lastEntry newEntry) ;;;
    c' <- get ;;
    set_entries (f_entries (c_self c') ++ [newEntry]) ;;;
    ret newEntry.

End _EntryList.

(** ** Paths: [re.compile("/+").split] and string slicing *)

Definition is_slash (c : ascii) : bool := Ascii.eqb c "/"%char.

Arguments is_slash : simpl never.

Definition starts_with_slash (s : string) : bool :=
  match s with
  | String c _ => is_slash c
  | EmptyString => false
  end.

Definition cons_head (c : ascii) (l : list string) : list string :=
  match l with
  | h :: t => String c h :: t
  | [] => [String c EmptyString]
  end.

(** [re.compile("/+").split(s)]: the pieces between maximal runs of
    slashes, with an empty piece before a leading run and after a trailing
    one. *)
Fixpoint splitSlashes (s : string) : list string :=
  match s with
  | EmptyString => [EmptyString]
  | String c s' =>
      if is_slash c then
        if starts_with_slash s' then splitSlashes s'
        else EmptyString :: splitSlashes s'
      else cons_head c (splitSlashes s')
  end.

(** [(s[:s.rindex("/")], s[s.rindex("/")+1:])], or [None] when
    [s.find("/") < 0]. *)
Fixpoint rsplitSlash (s : string) : option (string * string) :=
  match s with
  | EmptyString => None
  | String c s' =>
      match rsplitSlash s' with
      | Some (p, q) => Some (String c p, q)
      | None => if is_slash c then Some (EmptyString, s') else None
      end
  end.

Definition is_space (c : ascii) : bool :=
  let n := N_of_ascii c in
  (N.eqb n 32 || (N.leb 9 n && N.leb n 13))%bool.

(** [len(s.strip()) == 0]. *)
Fixpoint all_space (s : string) : bool :=
  match s with
  | EmptyString => true
  | String c s' => is_space c && all_space s'
  end.

(** [del l[0]] guarded by [len(l) > 1 and l[0] == ""]. *)
Definition dropLeadingEmpty (l : list string) : list string :=
  match l with
  | EmptyString :: (_ :: _) as t => t
  | _ => l
  end.

(** [del l[-1]] guarded by [len(l) > 1 and l[-1] == ""]. *)
Definition dropTrailingEmpty (l : list string) : list string :=
  match l with
  | _ :: _ :: _ =>
      match last l EmptyString with
      | EmptyString => removelast l
      | _ => l
      end
  | _ => l
  end.

Module Ext2Directory.

(** [_openEntry(dirEntry, fs)].  The constructors of [Ext2RegularFile],
    [Ext2Symlink] and [Ext2File] (absent) keep the entry and the inode;
    the one of [Ext2Directory] also checks the mode and reads the entry
    list. *)
Definition _openEntry (dirEntry : option Entry) (fs : FS) : Result File :=
  try inode :=
    match dirEntry with
    | Some e => Filesystem._readInode (e_inodeNum e) fs
    | None => Filesystem._readInode 2 fs
    end in
  if negb (Z.land (i_mode inode) 16384 =? 0) then
    if Z.land (i_mode inode) 16384 =? 0
    then Raise (FilesystemError "Inode does not point to a directory.")
    else
      try entries := _EntryList.__init__ inode fs in
      Ok (mkFile KDirectory dirEntry inode entries)
  else if negb (Z.land (i_mode inode) 32768 =? 0) then
    Ok (mkFile KRegularFile dirEntry inode [])
  else if negb (Z.land (i_mode inode) 40960 =? 0) then
    Ok (mkFile KSymlink dirEntry inode [])
  else Ok (mkFile KFile dirEntry inode []).

(** [files()]: one file object per entry of the list, in order. *)
Definition files (d : File) (fs : FS) : Result (list File) :=
  mapR (fun entry => _openEntry (Some entry) fs) (f_entries d).

(** The parts of a relative path, as [getFileAt] prepares them. *)
Definition pathPartsAt (relativePath : string) : list string :=
  dropTrailingEmpty (dropLeadingEmpty (splitSlashes relativePath)).

(** The [for curPart in pathParts] loop of [getFileAt].  The flag tells
    whether the result is a newly opened object rather than the object
    the walk started from. *)
Fixpoint walkParts (parts : list string) (curFile : File) (opened : bool)
    (fs : FS) : Result (File * bool) :=
  match parts with
  | [] => Ok (curFile, opened)
  | curPart :: rest =>
      if isDir curFile then
        match List.find (fun entry => String.eqb (e_name entry) curPart)
                        (f_entries curFile) with
        | Some entry =>
            try f := _openEntry (Some entry) fs in walkParts rest f true fs
        | None => walkParts rest curFile opened fs
        end
      else walkParts rest curFile opened fs
  end.

Definition getFileAt_object (self : File) (relativePath : string) (fs : FS)
  : Result (File * bool) :=
  let pathParts := pathPartsAt relativePath in
  match pathParts with
  | [] => Raise FileNotFoundError
  | _ :: _ =>
      try r := walkParts pathParts self false fs in
      let lastPart := last pathParts EmptyString in
      if negb (String.eqb lastPart EmptyString)
         && negb (String.eqb lastPart (name (fst r)))
      then Raise FileNotFoundError
      else Ok r
  end.

Definition getFileAt (self : File) (relativePath : string) (fs : FS)
  : Result File :=
  try r := getFileAt_object self relativePath fs in Ok (fst r).

Definition removeFile (self : File) (f : File) : Result unit :=
  Raise UnsupportedOperationError.

(** [__makeNewEntry] for a name without a slash. *)
Definition makeNewEntry_here (nm : string) (mode uid gid : Z) : M Ctx Entry :=
  if all_space nm then raise (FilesystemError "No name specified.")
  else
    c <- get ;;
    if existsb (fun entry => String.eqb (e_name entry) nm)
               (f_entries (c_self c))
    then raise (FilesystemError "An entry with that name already exists.")
    else
      inode <- onFS (Filesystem._allocateInode mode uid gid) ;;
      bid <- onFS (Filesystem._allocateBlock true) ;;
      r <- onFS (Filesystem.assignNextBlockId bid inode) ;;
      inode1 <- onFS (Filesystem.set_size (i_size (fst r) + blockSize (c_fs c))
                                          (fst r)) ;;
      entry <- _EntryList.append nm (i_number inode1) ;;
      _i <- onFS (Filesystem.set_numLinks (i_numLinks inode1 + 1) inode1) ;;
      ret entry.

(** [__makeNewEntry(name, mode, uid, gid)].  With a slash in the name the
    call is passed on to the directory found at the part before the last
    slash, with the part after it, which has no slash.  That directory is
    another object unless the lookup returned [self]; a file object of
    another class has no such method. *)
Definition __makeNewEntry (nm : string) (mode uid gid : Z) : M Ctx Entry :=
  match rsplitSlash nm with
  | None => makeNewEntry_here nm mode uid gid
  | Some (parentPath, localName) =>
      c <- get ;;
      r <- liftR (fun c => getFileAt_object (c_self c) parentPath (c_fs c)) ;;
      let (parent, opened) := (r : File * bool) in
      if negb opened then makeNewEntry_here localName mode uid gid
      else if negb (isDir parent) then raise AttributeError
      else
        fun c0 =>
          let (res, c1) := makeNewEntry_here localName mode uid gid
                             (mkCtx parent (c_fs c0)) in
          (res, mkCtx (c_self c0) (c_fs c1))
  end.

(** [pack("<IHBB1s3xIHBB2s", inodeNum, 12, 1, 0, ".", parentNum, 12, 2, 0, "..")]. *)
Definition defaultEntries (inodeNum parentNum : Z) : Result (list Z) :=
  try a := pack_uint 4 inodeNum in
  try b := pack_uint 4 parentNum in
  Ok (a ++ le_bytes 2 12 ++ [1; 0] ++ bytes_of_string "." ++ [0; 0; 0]
        ++ b ++ le_bytes 2 12 ++ [2; 0] ++ bytes_of_string "..").

Definition makeDirectory (nm : string) (uid gid : option Z) : M Ctx File :=
  c <- get ;;
  let uid := match uid with Some u => u | None => i_uid (f_inode (c_self c)) end in
  let gid := match gid with Some g => g | None => i_gid (f_inode (c_self c)) end in
  let mode := 16877 in
  entry <- __makeNewEntry nm mode uid gid ;;
  c1 <- get ;;
  bytes <- liftR (fun _ => defaultEntries (e_inodeNum entry)
                                           (i_number (f_inode (c_self c1)))) ;;
  inode <- onFS (liftR (Filesystem._readInode (e_inodeNum entry))) ;;
  bid <- onFS (liftR (Filesystem.lookupBlockId inode 0)) ;;
  onFS (Filesystem._writeToBlock bid 0 bytes) ;;;
  onFS (liftR (_openEntry (Some entry))).

End Ext2Directory.

(** ** [Ext2Disk.getFile] ([ext2/disk/disk.py]) *)

(** Modelled from the spec: [listContents()] of the [Ext2File] class that
    [disk.py] imports (absent); like [files()] it yields one file object
    per entry, opened when the loop asks for it (section 4.7).  This is
    [for f in fileObject.listContents(): if f.name == localPath: ... break],
    the first child whose name is [localPath]. *)
Fixpoint findContent (localPath : string) (entries : list Entry) (fs : FS)
  : Result (option File) :=
  match entries with
  | [] => Ok None
  | entry :: rest =>
      try f := Ext2Directory._openEntry (Some entry) fs in
      if String.eqb (name f) localPath then Ok (Some f)
      else findContent localPath rest fs
  end.

(** The [for localPath in pathParts] loop of [getFile]; [break] on a file
    object that is not a directory. *)
Fixpoint getFile_walk (parts : list string) (fileObject : File) (fs : FS)
  : Result File :=
  match parts with
  | [] => Ok fileObject
  | localPath :: rest =>
      if negb (isDir fileObject) then Ok fileObject
      else
        try found := findContent localPath (f_entries fileObject) fs in
        match found with
        | Some f => getFile_walk rest f fs
        | None => getFile_walk rest fileObject fs
        end
  end.

(** [getFile(absolutePath)].  [self._rootDir] is an object of the absent
    [Ext2File] class made at [mount] for inode 2; here it is the root
    directory as [_openRootDirectory] opens it.  [isValid] holds while the
    image is open. *)
Definition Ext2Disk_getFile (absolutePath : string) (fs : FS) : Result File :=
  if negb (_DeviceFromFile.isMounted (device fs)) then Raise AssertionError
  else
    let pathParts := splitSlashes absolutePath in
    match pathParts with
    | [] => Raise FileNotFoundError
    | first :: _ =>
        if negb (String.eqb first EmptyString) then Raise FileNotFoundError
        else
          let pathParts := dropTrailingEmpty pathParts in
          let localName := last pathParts EmptyString in
          try rootDir := Ext2Directory._openEntry None fs in
          try fileObject := getFile_walk (tl pathParts) rootDir fs in
          if negb (String.eqb (name fileObject) localName)
          then Raise FileNotFoundError
          else Ok fileObject
    end.

(** ** A small image

    One block group of 16 blocks of 1024 bytes and 16 inodes of 128 bytes
    (revision 1, created on Linux).  Block 1 holds the superblock, 2 the
    group descriptors, 3 the block bitmap, 4 the inode bitmap, 5 and 6 the
    inode table, 7 the root directory, 8 [lost+found], 9 the content of
    [hello].  Inodes 1 to 10 are reserved; 2 is the root, 11 [lost+found],
    12 the regular file [hello], 13 the symbolic link [link], 14 the
    character device [tty]. *)

Module Image.

Definition sb0 : Superblock :=
  mkSuperblock 16 17 7 2 1 1024 16 16 1 11 128 "LINUX".

Definition bg0 : BGDTEntry := mkBGDTEntry 3 4 5 7 2 2.

(** The bytes 0..43 of an on-disk inode with one block pointer: mode,
    uid, size, four timestamps, gid, link count, sector count, flags,
    osd1, first block. *)
Definition rawInode (mode size links block0 : Z) : list Z :=
  le_bytes 2 mode ++ le_bytes 2 0 ++ le_bytes 4 size ++ zeros 16
    ++ le_bytes 2 0 ++ le_bytes 2 links ++ le_bytes 4 (if block0 =? 0 then 0 else 2)
    ++ le_bytes 4 0 ++ le_bytes 4 0 ++ le_bytes 4 block0.

Definition patches : list (Z * list Z) :=
  [ (3 * 1024, [255; 1]);
    (4 * 1024, [255; 63]);
    (5 * 1024 + 1 * 128, rawInode 16877 1024 3 7);
    (5 * 1024 + 10 * 128, rawInode 16832 1024 2 8);
    (5 * 1024 + 11 * 128, rawInode 33188 5 1 9);
    (5 * 1024 + 12 * 128, rawInode 41471 0 1 0);
    (5 * 1024 + 13 * 128, rawInode 8630 0 1 0);
    (7 * 1024, dirRecord 2 12 ".");
    (7 * 1024 + 12, dirRecord 2 12 "..");
    (7 * 1024 + 24, dirRecord 11 20 "lost+found");
    (7 * 1024 + 44, dirRecord 12 16 "hello");
    (7 * 1024 + 60, dirRecord 13 12 "link");
    (7 * 1024 + 72, dirRecord 14 952 "tty");
    (8 * 1024, dirRecord 11 12 ".");
    (8 * 1024 + 12, dirRecord 2 1012 "..");
    (9 * 1024, bytes_of_string "hello") ].

Definition image0 : list Z :=
  fold_left (fun img p => overwrite (Z.to_nat (fst p)) (snd p) img)
            patches (zeros (17 * 1024)).

Definition fs0 : FS := mkFS (Some image0) sb0 [bg0] 1000.

(** The root directory object of [fs0], as [_openRootDirectory] builds
    it. *)
Definition rootInode0 : Inode :=
  mkInode 2 true 16877 0 1024 0 0 0 0 0 3 0
          [7; 0; 0; 0; 0; 0; 0; 0; 0; 0; 0; 0; 0; 0; 0].

Definition rootEntries0 : list Entry :=
  [ mkEntry "." 2 12 0 7 0;
    mkEntry ".." 2 12 0 7 12;
    mkEntry "lost+found" 11 20 0 7 24;
    mkEntry "hello" 12 16 0 7 44;
    mkEntry "link" 13 12 0 7 60;
    mkEntry "tty" 14 952 0 7 72 ].

Definition root0 : File := mkFile KDirectory None rootInode0 rootEntries0.

Definition ctx0 : Ctx := mkCtx root0 fs0.

(** [fs0] with the record of [hello] in the root directory marked as
    deleted ([inodeNum] 0); the records of [link] and [tty] follow it in
    the same block. *)
Definition fsDeleted : FS :=
  mkFS (Some (overwrite (Z.to_nat (7 * 1024 + 44)) [0; 0; 0; 0] image0))
       sb0 [bg0] 1000.

(** A filesystem of 4096-byte blocks, for which [firstDataBlock] is 0: the
    block bitmap in block 1 marks the first three blocks of the group. *)
Definition sb4k : Superblock :=
  mkSuperblock 16 16 13 5 0 4096 16 16 1 11 128 "LINUX".

Definition fs4k : FS :=
  mkFS (Some (overwrite 4096 [7; 0] (zeros (2 * 4096)))) sb4k
       [mkBGDTEntry 1 2 3 13 5 1] 1000.

(** A root directory whose block is full in the way of the format: [.]
    with record length 12, [..] with record length 984 and, at offset
    996, [last] (inode 12) with record length 28, which reaches the end of
    the block; the record lengths add up to 1024.  The bytes that the
    records do not use are zero. *)
Definition blockTight : list Z :=
  dirRecord 2 12 "." ++ zeros 3
    ++ dirRecord 2 984 ".." ++ zeros 974
    ++ dirRecord 12 28 "last" ++ zeros 16.

Definition fsTight : FS :=
  mkFS (Some (overwrite (Z.to_nat (7 * 1024)) blockTight image0))
       sb0 [bg0] 1000.

Definition rootEntriesTight : list Entry :=
  [ mkEntry "." 2 12 0 7 0;
    mkEntry ".." 2 984 0 7 12;
    mkEntry "last" 12 28 0 7 996 ].

Definition rootTight : File :=
  mkFile KDirectory None rootInode0 rootEntriesTight.

Definition ctxTight : Ctx := mkCtx rootTight fsTight.

End Image.

(** ** Notions used by the statements *)

(** The file type named by the high nibble of a 16-bit mode (section 3 of
    the specification). *)
Definition typeNibble (mode : Z) : Z := (mode / 4096) mod 16.

(** The variant the specification assigns to a file type: directory for
    [0x4], regular file for [0x8], symbolic link for [0xA], the generic
    file object otherwise. *)
Definition kindOfNibble (nibble : Z) : Kind :=
  if nibble =? 4 then KDirectory
  else if nibble =? 8 then KRegularFile
  else if nibble =? 10 then KSymlink
  else KFile.

(** The block id that the specification gives to bit [i] of byte [b] of
    the block bitmap of group [g] (section 4.4). *)
Definition specBlockId (sb : Superblock) (g b i : Z) : Z :=
  sb_firstDataBlock sb + g * sb_numBlocksPerGroup sb + b * 8 + i.

(** The records that a scan started at [off] of a block yields: the
    records met by following the record lengths, up to the end of the
    block or to the first record whose [inodeNum] is 0, whichever comes
    first. *)
Inductive liveRun (i blockId : Z) (blockBytes : list Z) (bsize : Z)
  : Z -> list Entry -> Prop :=
| liveRun_end : forall off,
    bsize <= off -> liveRun i blockId blockBytes bsize off []
| liveRun_deleted : forall off e,
    off < bsize ->
    _Entry.__init__ i blockId off (skipn (Z.to_nat off) blockBytes) = Ok e ->
    e_inodeNum e = 0 ->
    liveRun i blockId blockBytes bsize off []
| liveRun_live : forall off e es,
    off < bsize ->
    _Entry.__init__ i blockId off (skipn (Z.to_nat off) blockBytes) = Ok e ->
    e_inodeNum e <> 0 ->
    liveRun i blockId blockBytes bsize (off + e_size e) es ->
    liveRun i blockId blockBytes bsize off (e :: es).

(** The entries that the iteration over the logical blocks [indices] of
    an inode yields: block after block up to the first hole, the run of
    each block. *)
Inductive liveBlocks (ino : Inode) (fs : FS) : list Z -> list Entry -> Prop :=
| liveBlocks_nil : liveBlocks ino fs [] []
| liveBlocks_hole : forall i rest,
    Filesystem.lookupBlockId ino i fs = Ok 0 ->
    liveBlocks ino fs (i :: rest) []
| liveBlocks_block : forall i rest blockId blockBytes es more,
    Filesystem.lookupBlockId ino i fs = Ok blockId ->
    blockId <> 0 ->
    Filesystem._readBlock blockId fs = Ok blockBytes ->
    liveRun i blockId blockBytes (blockSize fs) 0 es ->
    liveBlocks ino fs rest more ->
    liveBlocks ino fs (i :: rest) (es ++ more).

(** The sum of the record lengths of the entries of logical block [i]. *)
Definition recordLengthSum (i : Z) (es : list Entry) : Z :=
  fold_right Z.add 0
    (map e_size (filter (fun e => e_bindex e =? i) es)).

(** A path with each run of slashes replaced by one slash. *)
Fixpoint collapseSlashes (s : string) : string :=
  match s with
  | EmptyString => EmptyString
  | String c s' =>
      if is_slash c && starts_with_slash s' then collapseSlashes s'
      else String c (collapseSlashes s')
  end.

(** A path without its final slash, if it has one: the trailing empty
    component dropped. *)
Fixpoint dropTrailingSlash (s : string) : string :=
  match s with
  | EmptyString => EmptyString
  | String c EmptyString => if is_slash c then EmptyString else s
  | String c s' => String c (dropTrailingSlash s')
  end.

Definition normalizePath (s : string) : string :=
  dropTrailingSlash (collapseSlashes s).

Fixpoint ends_with_slash (s : string) : bool :=
  match s with
  | EmptyString => false
  | String c EmptyString => is_slash c
  | String _ s' => ends_with_slash s'
  end.

(** What is observed of a file object: its class, its name and its inode
    number. *)
Definition inodeNum (f : File) : Z := i_number (f_inode f).

(** A mode of 16 bits is classified by [_openEntry] through three bit
    tests made in order. *)
Definition classByBits (mode : Z) : Kind :=
  if negb (Z.land mode 16384 =? 0) then KDirectory
  else if negb (Z.land mode 32768 =? 0) then KRegularFile
  else if negb (Z.land mode 40960 =? 0) then KSymlink
  else KFile.

Definition Kind_eqb (a b : Kind) : bool :=
  match a, b with
  | KDirectory, KDirectory => true
  | KRegularFile, KRegularFile => true
  | KSymlink, KSymlink => true
  | KFile, KFile => true
  | _, _ => false
  end.

(** The class [_openEntry] gives to each file type: bit [0x4000] is also
    set in the types [0x6] and [0xC], bit [0x8000] in [0xA], and a bit of
    [0xA000] in [0x2]. *)
Definition classOfNibble (nibble : Z) : Kind :=
  if Z.testbit nibble 2 then KDirectory
  else if Z.testbit nibble 3 then KRegularFile
  else if Z.testbit nibble 1 then KSymlink
  else KFile.

(** Where the bit of inode [inodeNum] lives in the inode bitmap, as
    [_readInode] computes it. *)
Definition inodeBitmapBytePos (inodeNum : Z) (fs : FS) : Result Z :=
  let sb := superblock fs in
  try bgroupNum := py_div (inodeNum - 1) (sb_numInodesPerGroup sb) in
  try bgroupIndex := py_mod (inodeNum - 1) (sb_numInodesPerGroup sb) in
  try bgroupDescEntry := py_index (bgdt fs) bgroupNum in
  Ok (bg_inodeBitmapLocation bgroupDescEntry * sb_blockSize sb
      + bgroupIndex / 8).

(** The on-disk record of inode [inodeNum] and the byte of its bitmap bit
    lie outside the bytes [lo .. hi - 1] of the device. *)
Definition inodeRecordOutside (inodeNum lo hi : Z) (fs : FS) : Prop :=
  exists ipos bpos,
    Filesystem.inodeStartPos inodeNum fs = Ok ipos
    /\ inodeBitmapBytePos inodeNum fs = Ok bpos
    /\ 0 <= sb_inodeSize (superblock fs)
    /\ (ipos + sb_inodeSize (superblock fs) <= lo \/ hi <= ipos)
    /\ (bpos < lo \/ hi <= bpos).

(** A step of a directory method that leaves the entry list of the
    directory object as it was, whatever its outcome. *)
Definition keepsEntries {A : Type} (m : M Ctx A) : Prop :=
  forall c r c', m c = (r, c') -> f_entries (c_self c') = f_entries (c_self c).

(** The integers [a], [a + 1], ..., [a + n - 1]. *)
Fixpoint zseq (a : Z) (n : nat) : list Z :=
  match n with
  | O => []
  | S n' => a :: zseq (a + 1) n'
  end.

(** An inode object under another number. *)
Definition with_number (n : Z) (ino : Inode) : Inode :=
  mkInode n (i_used ino) (i_mode ino) (i_uid ino) (i_size ino)
          (i_time_accessed ino) (i_time_created ino) (i_time_modified ino)
          (i_time_deleted ino) (i_gid ino) (i_numLinks ino) (i_flags ino)
          (i_blocks ino).

(** The number of inodes that the group descriptor table covers. *)
Definition inodeCapacity (fs : FS) : Z :=
  sb_numInodesPerGroup (superblock fs) * Z.of_nat (List.length (bgdt fs)).

(** The scan of a block that is at offset [start] arrives at offset
    [off]: it gets there through records whose [inodeNum] is not 0,
    following their record lengths. *)
Inductive reachesRecord (i blockId : Z) (blockBytes : list Z) (bsize : Z)
  : Z -> Z -> Prop :=
| reaches_here : forall off, reachesRecord i blockId blockBytes bsize off off
| reaches_next : forall start e off,
    start < bsize ->
    _Entry.__init__ i blockId start (skipn (Z.to_nat start) blockBytes) = Ok e ->
    e_inodeNum e <> 0 ->
    reachesRecord i blockId blockBytes bsize (start + e_size e) off ->
    reachesRecord i blockId blockBytes bsize start off.

(** A step of a directory method that leaves the class of the directory
    object as it was, whatever its outcome. *)
Definition keepsKind {A : Type} (m : M Ctx A) : Prop :=
  forall c r c', m c = (r, c') -> f_kind (c_self c') = f_kind (c_self c).

(** A path made of slashes only (the empty path included). *)
Fixpoint all_slash (s : string) : bool :=
  match s with
  | EmptyString => true
  | String c s' => is_slash c && all_slash s'
  end.

(** A step of a directory method that leaves the directory object as it
    was, whatever its outcome. *)
Definition keepsSelf {A : Type} (m : M Ctx A) : Prop :=
  forall c r c', m c = (r, c') -> c_self c' = c_self c.

(** * Properties *)

(** ** The monad *)

Lemma forM__unchanged :
  forall (S A : Type) (body : A -> M S unit) (l : list A) (s : S),
    (forall x s0, snd (body x s0) = s0) ->
    snd (forM_ l body s) = s.
Proof.
  intros S A body l s Hbody.
  induction l as [|x l IH]; simpl.
  - reflexivity.
  - unfold bind. specialize (Hbody x s).
    destruct (body x s) as [[u| e |] s1]; simpl in *; subst s1; auto.
Qed.

Lemma Kind_eqb_eq : forall a b, Kind_eqb a b = true -> a = b.
Proof. intros [] []; simpl; congruence. Qed.

(** ** File classes (C1) *)

Lemma openEntry_kind :
  forall dirEntry fs f,
    Ext2Directory._openEntry dirEntry fs = Ok f ->
    f_kind f = classByBits (i_mode (f_inode f)).
Proof.
  intros dirEntry fs f H. unfold Ext2Directory._openEntry in H.
  destruct (match dirEntry with
            | Some e => Filesystem._readInode (e_inodeNum e) fs
            | None => Filesystem._readInode 2 fs
            end) as [inode| |]; simpl in H; try discriminate.
  unfold classByBits.
  destruct (Z.land (i_mode inode) 16384 =? 0) eqn:E1; simpl in H.
  - destruct (Z.land (i_mode inode) 32768 =? 0) eqn:E2; simpl in H.
    + destruct (Z.land (i_mode inode) 40960 =? 0) eqn:E3; simpl in H;
        inversion H; subst f; simpl; rewrite E1, E2, E3; reflexivity.
    + inversion H; subst f; simpl; rewrite E1, E2; reflexivity.
  - destruct (_EntryList.__init__ inode fs); simpl in H; try discriminate.
    inversion H; subst f; simpl; rewrite E1; reflexivity.
Qed.

Lemma zseq_In : forall n a x, a <= x < a + Z.of_nat n -> In x (zseq a n).
Proof.
  induction n as [|n IH]; intros a x H; simpl.
  - lia.
  - destruct (Z.eq_dec a x) as [->|Hne]; [left; reflexivity|].
    right. apply IH. lia.
Qed.

Lemma classByBits_table :
  forall mode, 0 <= mode < 65536 ->
    classByBits mode = classOfNibble (typeNibble mode).
Proof.
  assert (H : forallb (fun m => Kind_eqb (classByBits m)
                                         (classOfNibble (typeNibble m)))
                      (zseq 0 (Z.to_nat 65536)) = true)
    by (vm_compute; reflexivity).
  intros mode Hm. rewrite forallb_forall in H.
  apply Kind_eqb_eq, H, zseq_In. rewrite Z2Nat.id; lia.
Qed.

(** C1.  The symbolic link [link] of the image has the file type [0xA],
    for which the specification names the Symlink variant; [_openEntry]
    returns an [Ext2RegularFile], because the test of bit [0x8000] comes
    first.  The character device [tty] (type [0x2]) comes back as an
    [Ext2Symlink]. *)
Theorem openEntry_symlink_opens_as_regular :
  exists f g,
    Ext2Directory._openEntry (Some (mkEntry "link" 13 12 0 7 60)) Image.fs0 = Ok f
    /\ typeNibble (i_mode (f_inode f)) = 10
    /\ kindOfNibble (typeNibble (i_mode (f_inode f))) = KSymlink
    /\ f_kind f = KRegularFile
    /\ Ext2Directory._openEntry (Some (mkEntry "tty" 14 952 0 7 72)) Image.fs0 = Ok g
    /\ typeNibble (i_mode (f_inode g)) = 2
    /\ kindOfNibble (typeNibble (i_mode (f_inode g))) = KFile
    /\ f_kind g = KSymlink.
Proof.
  eexists. eexists.
  split; [vm_compute; reflexivity|].
  split; [vm_compute; reflexivity|].
  split; [vm_compute; reflexivity|].
  split; [vm_compute; reflexivity|].
  split; [vm_compute; reflexivity|].
  repeat split; vm_compute; reflexivity.
Qed.

(** The classes agree with the specification on the file types [0x4],
    [0x8] and [0x1] only. *)
Lemma classOfNibble_vs_spec :
  map classOfNibble [4; 8; 10; 2; 6; 1; 12]
    = [KDirectory; KRegularFile; KRegularFile; KSymlink; KDirectory; KFile;
       KDirectory]
  /\ map kindOfNibble [4; 8; 10; 2; 6; 1; 12]
    = [KDirectory; KRegularFile; KSymlink; KFile; KFile; KFile; KFile].
Proof. split; reflexivity. Qed.

(** ** The inode allocator of [Ext2Disk] (C3) *)

Lemma file_write_int_unchanged :
  forall pos n fs, snd (Ext2Disk.file_write pos (PyInt n) fs) = fs.
Proof.
  intros pos n fs. unfold Ext2Disk.file_write.
  destruct (device fs); [destruct (pos <? 0)|]; reflexivity.
Qed.

(** Whatever the filesystem, [_allocateInode] leaves the image, the group
    descriptors and the superblock as they were. *)
Lemma allocateInode_disk_unchanged :
  forall isForDirectory fs,
    snd (Ext2Disk._allocateInode isForDirectory fs) = fs.
Proof.
  intros b fs. unfold Ext2Disk._allocateInode, bind, get.
  destruct (Ext2Disk.firstFreeGroup _ _) as [[g start]|]; [|reflexivity].
  unfold liftR.
  destruct (Ext2Disk.file_read start _ fs) as [bytes| |]; try reflexivity.
  destruct (_ <? _); [reflexivity|].
  destruct (_ <? 0); [reflexivity|].
  apply forM__unchanged.
  intros [byteIndex byte] s0.
  destruct (byte =? 255); [reflexivity|].
  apply forM__unchanged.
  intros i s1. destruct (_ =? 0); [|reflexivity].
  apply file_write_int_unchanged.
Qed.

(** C3.  On the image, whose group has 2 free inodes and whose inode
    bitmap has bit 14 (inode 15) clear, [_allocateInode] raises at the
    [write] of the bitmap byte: no bit is set, no counter is decremented,
    no inode is initialised and none is returned. *)
Theorem allocateInode_disk_does_not_allocate :
  bg_numFreeInodes Image.bg0 = 2
  /\ Ext2Disk.file_read (4 * 1024) 2 Image.fs0 = Ok [255; 63]
  /\ Ext2Disk._allocateInode true Image.fs0 = (Raise TypeError, Image.fs0)
  /\ Ext2Disk._allocateInode false Image.fs0 = (Raise TypeError, Image.fs0).
Proof.
  split; [reflexivity|].
  split; [vm_compute; reflexivity|].
  split.
  - rewrite (surjective_pairing (Ext2Disk._allocateInode true Image.fs0)).
    rewrite allocateInode_disk_unchanged.
    replace (fst (Ext2Disk._allocateInode true Image.fs0))
      with (@Raise unit TypeError) by (vm_compute; reflexivity).
    reflexivity.
  - rewrite (surjective_pairing (Ext2Disk._allocateInode false Image.fs0)).
    rewrite allocateInode_disk_unchanged.
    replace (fst (Ext2Disk._allocateInode false Image.fs0))
      with (@Raise unit TypeError) by (vm_compute; reflexivity).
    reflexivity.
Qed.

(** ** Names refused by [append] (C10) *)

(** C10.  For a name of length 0 or of more than 255 bytes, [append]
    raises [FilesystemError] and leaves the directory object (its entry
    list and inode) and the filesystem (device, descriptors, superblock)
    exactly as they were: the checks come before any allocation or
    write. *)
Theorem append_rejects_bad_name_length :
  forall (c : Ctx) (nm : string) (inodeNum : Z),
    strlen nm = 0 \/ 255 < strlen nm ->
    exists msg,
      _EntryList.append nm inodeNum c = (Raise (FilesystemError msg), c).
Proof.
  intros c nm inodeNum H. unfold _EntryList.append.
  destruct (255 <? strlen nm) eqn:Elong.
  - eexists. reflexivity.
  - apply Z.ltb_ge in Elong.
    assert (Hz : strlen nm = 0) by lia.
    rewrite Hz. simpl. eexists. reflexivity.
Qed.

Lemma append_rejects_bad_name_length_witness :
  (strlen "" = 0 \/ 255 < strlen "")
  /\ exists msg,
       _EntryList.append "" 15 Image.ctx0
       = (Raise (FilesystemError msg), Image.ctx0).
Proof.
  split.
  - left. reflexivity.
  - apply (append_rejects_bad_name_length Image.ctx0 "" 15).
    left. reflexivity.
Defined.

(** ** Path lookup with a missing component (C8) *)

Lemma root0_opened : Ext2Directory._openEntry None Image.fs0 = Ok Image.root0.
Proof. vm_compute. reflexivity. Qed.

(** C8.  The root directory of the image has no entry [nope], and
    [lost+found] has no entry [lost+found].  Both lookups nevertheless
    return a file object for [/nope/lost+found] (the missing intermediate
    component is passed over) and for [/lost+found/lost+found] (the
    missing final component bears the name of the directory reached):
    in each case the directory [lost+found], inode 11. *)
Theorem lookup_passes_over_missing_component :
  List.find (fun e => String.eqb (e_name e) "nope") (f_entries Image.root0) = None
  /\ (exists f,
        Ext2Directory.getFileAt Image.root0 "/nope/lost+found" Image.fs0 = Ok f
        /\ inodeNum f = 11 /\ name f = "lost+found"%string)
  /\ (exists f,
        Ext2Disk_getFile "/nope/lost+found" Image.fs0 = Ok f
        /\ inodeNum f = 11 /\ name f = "lost+found"%string)
  /\ (exists d f,
        Ext2Directory.getFileAt Image.root0 "/lost+found" Image.fs0 = Ok d
        /\ List.find (fun e => String.eqb (e_name e) "lost+found") (f_entries d) = None
        /\ Ext2Directory.getFileAt Image.root0 "/lost+found/lost+found" Image.fs0 = Ok f
        /\ inodeNum f = 11)
  /\ (exists f,
        Ext2Disk_getFile "/lost+found/lost+found" Image.fs0 = Ok f
        /\ inodeNum f = 11).
Proof.
  split; [reflexivity|].
  split; [eexists; split; [vm_compute; reflexivity | split; reflexivity]|].
  split; [eexists; split; [vm_compute; reflexivity | split; reflexivity]|].
  split.
  - eexists. eexists.
    split; [vm_compute; reflexivity|].
    split; [reflexivity|].
    split; [vm_compute; reflexivity | reflexivity].
  - eexists. split; [vm_compute; reflexivity | reflexivity].
Qed.

(** A final component that is missing and differs from the name of the
    file reached is reported. *)
Lemma lookup_missing_final_component :
  Ext2Directory.getFileAt Image.root0 "/nope" Image.fs0 = Raise FileNotFoundError
  /\ Ext2Disk_getFile "/nope" Image.fs0 = Raise FileNotFoundError
  /\ Ext2Directory.getFileAt Image.root0 "/lost+found/nope" Image.fs0
     = Raise FileNotFoundError.
Proof. repeat split; vm_compute; reflexivity. Qed.

(** ** Link counts after [makeDirectory] (C6) *)

(** C6.  [makeDirectory("new")] on the root of the image (inode 2, 3
    links) creates inode 15 with one link and raises the group's
    directory count from 2 to 3, but the root still has 3 links, in the
    directory object and on the device: nothing increments the parent's
    [numLinks] for the [..] entry of the child. *)
Theorem makeDirectory_parent_numLinks_unchanged :
  exists f c' parent,
    Ext2Directory.makeDirectory "new" None None Image.ctx0 = (Ok f, c')
    /\ inodeNum f = 15
    /\ i_numLinks (f_inode f) = 1
    /\ map bg_numDirectories (bgdt (c_fs Image.ctx0)) = [2]
    /\ map bg_numDirectories (bgdt (c_fs c')) = [3]
    /\ i_numLinks (f_inode (c_self Image.ctx0)) = 3
    /\ i_numLinks (f_inode (c_self c')) = 3
    /\ Filesystem._readInode 2 (c_fs c') = Ok parent
    /\ i_numLinks parent = 3.
Proof.
  eexists. eexists. eexists.
  split; [vm_compute; reflexivity|].
  split; [reflexivity|].
  split; [reflexivity|].
  split; [reflexivity|].
  split; [reflexivity|].
  split; [reflexivity|].
  split; [reflexivity|].
  split; [vm_compute; reflexivity | reflexivity].
Qed.

(** ** Used blocks (C7) *)

Lemma land_bit_testbit :
  forall i byte, 0 <= i ->
    (Z.land (Z.shiftl 1 i) byte =? 0) = negb (Z.testbit byte i).
Proof.
  intros i byte Hi. rewrite Z.shiftl_1_l.
  destruct (Z.testbit byte i) eqn:Eb; cbn [negb].
  - apply Z.eqb_neq. intros H.
    assert (Ht : Z.testbit (Z.land (2 ^ i) byte) i = true).
    { rewrite Z.land_spec, Z.pow2_bits_true, Eb by lia. reflexivity. }
    rewrite H, Z.bits_0 in Ht. discriminate.
  - apply Z.eqb_eq. apply Z.bits_inj'. intros n Hn.
    rewrite Z.land_spec, Z.bits_0.
    destruct (Z.eq_dec i n) as [<-|Hne].
    + rewrite Eb. apply andb_false_r.
    + rewrite Z.pow2_bits_false by lia. reflexivity.
Qed.

Lemma In_range : forall n x, In x (range n) <-> 0 <= x < n.
Proof.
  intros n x. unfold range. rewrite in_map_iff. split.
  - intros (k & <- & Hk). apply in_seq in Hk. lia.
  - intros H. exists (Z.to_nat x). split; [lia|]. apply in_seq. lia.
Qed.

Lemma In_setBits :
  forall (A : Type) (byte : Z) (f : Z -> A) (y : A),
    In y (Ext2Disk.setBits byte f)
    <-> exists i, 0 <= i < 8 /\ Z.testbit byte i = true /\ y = f i.
Proof.
  intros A byte f y. unfold Ext2Disk.setBits. rewrite in_flat_map. split.
  - intros (i & Hi & Hy). apply In_range in Hi.
    rewrite land_bit_testbit in Hy by lia.
    destruct (Z.testbit byte i) eqn:Eb; cbn in Hy; [|contradiction].
    destruct Hy as [<-|[]]. eauto.
  - intros (i & Hi & Hb & ->). exists i. split; [apply In_range; exact Hi|].
    rewrite land_bit_testbit by lia. rewrite Hb. left. reflexivity.
Qed.

Lemma In_enumerate_from :
  forall (A : Type) (l : list A) (s : nat) (i : Z) (x : A),
    In (i, x) (combine (map Z.of_nat (seq s (List.length l))) l)
    <-> Z.of_nat s <= i /\ nth_error l (Z.to_nat i - s) = Some x.
Proof.
  intros A l. induction l as [|a l IH]; intros s i x.
  - simpl. split; [contradiction|]. intros [_ H].
    destruct (Z.to_nat i - s)%nat; discriminate.
  - cbn [List.length seq map combine In]. rewrite IH. split.
    + intros [H|[H1 H2]].
      * inversion H; subst. split; [lia|].
        rewrite Nat2Z.id, Nat.sub_diag. reflexivity.
      * split; [lia|].
        replace (Z.to_nat i - s)%nat with (S (Z.to_nat i - S s)) by lia.
        exact H2.
    + intros [H1 H2].
      destruct (Z.to_nat i - s)%nat as [|k] eqn:Ek.
      * left. inversion H2. f_equal. lia.
      * right. split; [lia|].
        replace (Z.to_nat i - S s)%nat with k by lia. exact H2.
Qed.

Lemma In_enumerate :
  forall (A : Type) (l : list A) (i : Z) (x : A),
    In (i, x) (enumerate l) <-> 0 <= i /\ nth_error l (Z.to_nat i) = Some x.
Proof.
  intros A l i x. unfold enumerate. rewrite In_enumerate_from.
  rewrite Nat.sub_0_r. reflexivity.
Qed.

(** The ids that [__getUsedBlocks] returns: one for each set bit [i] of
    each byte [b] of the bitmap of each group [g], namely
    [g * numBlocksPerGroup + b * 8 + i + 1]. *)
Lemma getUsedBlocks_ids :
  forall fs bitmaps used,
    Ext2Disk.readBitmaps bg_blockBitmapLocation
      (sb_numBlocksPerGroup (superblock fs) / 8) "Invalid block bitmap." fs
      = Ok bitmaps ->
    Ext2Disk.__getUsedBlocks fs = Ok used ->
    forall bid,
      In bid used
      <-> exists g bitmap b byte i,
            0 <= g /\ nth_error bitmaps (Z.to_nat g) = Some bitmap
            /\ 0 <= b /\ nth_error bitmap (Z.to_nat b) = Some byte
            /\ 0 <= i < 8 /\ Z.testbit byte i = true
            /\ bid = g * sb_numBlocksPerGroup (superblock fs) + b * 8 + i + 1.
Proof.
  intros fs bitmaps used Hb Hu bid.
  unfold Ext2Disk.__getUsedBlocks in Hu. rewrite Hb in Hu. cbn [bindR] in Hu.
  inversion Hu as [Hused]. clear Hu Hused.
  rewrite in_flat_map. split.
  - intros ([g bitmap] & Hg & Hin). apply In_enumerate in Hg.
    rewrite in_flat_map in Hin. destruct Hin as ([b byte] & Hbi & Hin).
    apply In_enumerate in Hbi.
    destruct (byte =? 0); [contradiction|].
    apply In_setBits in Hin. destruct Hin as (i & Hi & Ht & ->).
    exists g, bitmap, b, byte, i. intuition.
  - intros (g & bitmap & b & byte & i & Hg & Hgb & Hb0 & Hbb & Hi & Ht & ->).
    exists (g, bitmap). split; [apply In_enumerate; auto|].
    rewrite in_flat_map. exists (b, byte). split; [apply In_enumerate; auto|].
    destruct (Z.eqb_spec byte 0) as [->|_].
    + rewrite Z.bits_0 in Ht. discriminate.
    + apply In_setBits. exists i. auto.
Qed.

(** They are the ids of the specification exactly when the first data
    block is block 1. *)
Lemma getUsedBlocks_id_vs_spec :
  forall sb g b i,
    g * sb_numBlocksPerGroup sb + b * 8 + i + 1 = specBlockId sb g b i
    <-> sb_firstDataBlock sb = 1.
Proof. intros sb g b i. unfold specBlockId. lia. Qed.

(** C7.  With blocks of 4096 bytes the first data block is block 0.  The
    bitmap of the only group has bits 0, 1 and 2 of byte 0 set, which
    mark the blocks 0, 1 and 2; the enumeration returns 1, 2 and 3. *)
Theorem getUsedBlocks_off_by_one_when_first_block_is_0 :
  sb_firstDataBlock (superblock Image.fs4k) = 0
  /\ Ext2Disk.file_read (1 * 4096) 2 Image.fs4k = Ok [7; 0]
  /\ map (specBlockId (superblock Image.fs4k) 0 0) [0; 1; 2] = [0; 1; 2]
  /\ Ext2Disk.__getUsedBlocks Image.fs4k = Ok [1; 2; 3].
Proof. repeat split; vm_compute; reflexivity. Qed.

(** ** The scan of a directory block (C5) *)

Lemma scanBlock_sound :
  forall fuel i blockId blockBytes bsize off es,
    _EntryList.scanBlock fuel i blockId off blockBytes bsize = Ok es ->
    liveRun i blockId blockBytes bsize off es.
Proof.
  induction fuel as [|fuel IH]; intros i blockId blockBytes bsize off es H;
    simpl in H; destruct (off <? bsize) eqn:Eoff;
    try discriminate;
    try (inversion H; subst es; apply liveRun_end; apply Z.ltb_ge; exact Eoff).
  apply Z.ltb_lt in Eoff.
  destruct (_Entry.__init__ i blockId off (skipn (Z.to_nat off) blockBytes))
    as [entry| |] eqn:Eparse; simpl in H; try discriminate.
  destruct (e_inodeNum entry =? 0) eqn:Ezero.
  - inversion H; subst es. apply Z.eqb_eq in Ezero.
    eapply liveRun_deleted; eauto.
  - apply Z.eqb_neq in Ezero.
    destruct (_EntryList.scanBlock fuel i blockId (off + e_size entry)
                                   blockBytes bsize) as [rest| |] eqn:Erest;
      simpl in H; try discriminate.
    inversion H; subst es.
    eapply liveRun_live; eauto.
Qed.

(** With records of positive length, [blockSize - off] turns are enough
    for the loop to end. *)
Lemma scanBlock_complete :
  forall i blockId blockBytes bsize off es,
    liveRun i blockId blockBytes bsize off es ->
    (forall e, In e es -> 0 < e_size e) ->
    forall fuel, (Z.to_nat (bsize - off) <= fuel)%nat ->
    _EntryList.scanBlock fuel i blockId off blockBytes bsize = Ok es.
Proof.
  intros i blockId blockBytes bsize off es Hrun.
  induction Hrun as [off Hend | off e Hlt Hparse Hzero
                    | off e es Hlt Hparse Hlive Hrun IH];
    intros Hpos fuel Hfuel.
  - destruct fuel; simpl; apply Z.ltb_ge in Hend; rewrite Hend; reflexivity.
  - destruct fuel as [|fuel]; [lia|].
    simpl. apply Z.ltb_lt in Hlt. rewrite Hlt, Hparse. simpl.
    apply Z.eqb_eq in Hzero. rewrite Hzero. reflexivity.
  - destruct fuel as [|fuel]; [lia|].
    simpl. pose proof Hlt as Hlt'. apply Z.ltb_lt in Hlt'.
    rewrite Hlt', Hparse. simpl.
    apply Z.eqb_neq in Hlive. rewrite Hlive.
    assert (Hsz : 0 < e_size e) by (apply Hpos; left; reflexivity).
    rewrite IH; [reflexivity | | lia].
    intros e' He'. apply Hpos. right. exact He'.
Qed.

(** Every entry of a run is live and lies at or after the start. *)
Lemma liveRun_entries_live :
  forall i blockId blockBytes bsize off es,
    liveRun i blockId blockBytes bsize off es ->
    forall e, In e es -> e_inodeNum e <> 0 /\ e_bindex e = i.
Proof.
  intros i blockId blockBytes bsize off es Hrun.
  induction Hrun as [off Hend | off e Hlt Hparse Hzero
                    | off e es Hlt Hparse Hlive Hrun IH];
    intros x Hx; try (destruct Hx; fail).
  destruct Hx as [<-|Hx]; [|apply IH; exact Hx].
  split; [exact Hlive|].
  unfold _Entry.__init__ in Hparse.
  destruct (unpack_check 7 _ 0); cbn [bindR] in Hparse; try discriminate.
  destruct (unpack_check _ _ 8); cbn [bindR] in Hparse; try discriminate.
  inversion Hparse. reflexivity.
Qed.

(** The scan of one block, with records of positive length. *)
Lemma scanBlock_liveRun :
  forall i blockId blockBytes bsize es,
    (forall e, In e es -> 0 < e_size e) ->
    (_EntryList.scanBlock (Z.to_nat bsize) i blockId 0 blockBytes bsize = Ok es
     <-> liveRun i blockId blockBytes bsize 0 es).
Proof.
  intros i blockId blockBytes bsize es Hpos. split.
  - apply scanBlock_sound.
  - intros Hrun. apply scanBlock_complete; auto.
    rewrite Z.sub_0_r. apply Nat.le_refl.
Qed.

Lemma scanBlocks_sound :
  forall ino fs indices all,
    _EntryList.scanBlocks indices ino fs = Ok all ->
    liveBlocks ino fs indices all.
Proof.
  intros ino fs. induction indices as [|i rest IH]; intros all H.
  - inversion H. constructor.
  - cbn [_EntryList.scanBlocks] in H.
    destruct (Filesystem.lookupBlockId ino i fs) as [blockId| |] eqn:El;
      cbn [bindR] in H; try discriminate.
    destruct (Z.eqb_spec blockId 0) as [->|Hnz].
    + inversion H. apply liveBlocks_hole. exact El.
    + destruct (Filesystem._readBlock blockId fs) as [blockBytes| |] eqn:Er;
        cbn [bindR] in H; try discriminate.
      destruct (_EntryList.scanBlock _ i blockId 0 blockBytes _) as [es| |] eqn:Es;
        cbn [bindR] in H; try discriminate.
      destruct (_EntryList.scanBlocks rest ino fs) as [more| |] eqn:Em;
        cbn [bindR] in H; try discriminate.
      inversion H. eapply liveBlocks_block; eauto.
      eapply scanBlock_sound; eauto.
Qed.

Lemma scanBlocks_complete :
  forall ino fs indices all,
    liveBlocks ino fs indices all ->
    (forall e, In e all -> 0 < e_size e) ->
    _EntryList.scanBlocks indices ino fs = Ok all.
Proof.
  intros ino fs indices all H.
  induction H as [|i rest Hl|i rest blockId blockBytes es more Hl Hnz Hr Hrun Hmore IH];
    intros Hpos.
  - reflexivity.
  - cbn [_EntryList.scanBlocks]. rewrite Hl. reflexivity.
  - cbn [_EntryList.scanBlocks]. rewrite Hl. cbn [bindR].
    apply Z.eqb_neq in Hnz. rewrite Hnz, Hr. cbn [bindR].
    rewrite (scanBlock_complete _ _ _ _ _ _ Hrun).
    + cbn [bindR]. rewrite IH; [reflexivity|].
      intros e He. apply Hpos, in_or_app. right. exact He.
    + intros e He. apply Hpos, in_or_app. left. exact He.
    + rewrite Z.sub_0_r. apply Nat.le_refl.
Qed.

(** C5 (as the code has it).  Building the entry list of a directory
    goes through its logical blocks in order, and the scan of each block
    yields the records met from its start up to the first record whose
    [inodeNum] is 0: a record with [inodeNum] 0 ends the scan of its
    block, nothing that lies after it in the block is yielded, and the
    iteration goes on with the next logical block. *)
Theorem entry_list_ends_block_at_first_deleted :
  forall (ino : Inode) (fs : FS) (indices : list Z) (all : list Entry),
    (forall e, In e all -> 0 < e_size e) ->
    (_EntryList.scanBlocks indices ino fs = Ok all
     <-> liveBlocks ino fs indices all).
Proof.
  intros ino fs indices all Hpos. split.
  - apply scanBlocks_sound.
  - intros H. apply scanBlocks_complete; assumption.
Qed.

Lemma entry_list_ends_block_at_first_deleted_witness :
  (forall e, In e (firstn 3 Image.rootEntries0) -> 0 < e_size e)
  /\ (_EntryList.scanBlocks [0] Image.rootInode0 Image.fsDeleted
        = Ok (firstn 3 Image.rootEntries0)
      <-> liveBlocks Image.rootInode0 Image.fsDeleted [0]
                     (firstn 3 Image.rootEntries0)).
Proof.
  assert (Hpos : forall e, In e (firstn 3 Image.rootEntries0) -> 0 < e_size e).
  { intros e He. simpl in He.
    destruct He as [<-|[<-|[<-|[]]]]; reflexivity. }
  split.
  - exact Hpos.
  - apply (entry_list_ends_block_at_first_deleted Image.rootInode0
             Image.fsDeleted [0] (firstn 3 Image.rootEntries0) Hpos).
Defined.

(** C5, counterexample.  In the root block of [fsDeleted] the record at
    offset 44 has [inodeNum] 0 and length 16; the record that follows it
    at offset 60 is the live entry [link] (inode 13).  The entry list of
    the root ends before the deleted record: [link] and [tty] are not
    yielded. *)
Lemma deleted_entry_hides_later_entries :
  exists blk deleted later es,
    Filesystem._readBlock 7 Image.fsDeleted = Ok blk
    /\ _Entry.__init__ 0 7 44 (skipn 44 blk) = Ok deleted
    /\ e_inodeNum deleted = 0
    /\ _Entry.__init__ 0 7 (44 + e_size deleted) (skipn 60 blk) = Ok later
    /\ e_inodeNum later = 13
    /\ e_name later = "link"%string
    /\ _EntryList.__init__ Image.rootInode0 Image.fsDeleted = Ok es
    /\ map e_name es = ["."; ".."; "lost+found"]%string
    /\ ~ In "link"%string (map e_name es).
Proof.
  eexists. eexists. eexists. eexists.
  split; [vm_compute; reflexivity|].
  split; [vm_compute; reflexivity|].
  split; [reflexivity|].
  split; [vm_compute; reflexivity|].
  split; [reflexivity|].
  split; [reflexivity|].
  split; [vm_compute; reflexivity|].
  split; [reflexivity|].
  simpl. intros [H|[H|[H|[]]]]; discriminate.
Qed.

(** ** Bytes *)

Lemma le_value_le_bytes :
  forall n v, le_value (le_bytes n v) = v mod 256 ^ Z.of_nat n.
Proof.
  induction n as [|n IH]; intros v.
  - simpl. rewrite Z.mod_1_r. reflexivity.
  - cbn [le_bytes le_value]. rewrite IH.
    rewrite Nat2Z.inj_succ, Z.pow_succ_r by lia.
    rewrite Z.rem_mul_r by lia. lia.
Qed.

Lemma le_value_le_bytes_small :
  forall n v, 0 <= v < 256 ^ Z.of_nat n -> le_value (le_bytes n v) = v.
Proof.
  intros n v H. rewrite le_value_le_bytes. apply Z.mod_small. exact H.
Qed.

Lemma le_bytes_length : forall n v, List.length (le_bytes n v) = n.
Proof. induction n; intros; simpl; auto. Qed.

Lemma pack_uint_Ok :
  forall n v bs, pack_uint n v = Ok bs ->
    bs = le_bytes n v /\ 0 <= v < 256 ^ Z.of_nat n.
Proof.
  intros n v bs H. unfold pack_uint in H.
  destruct ((0 <=? v) && (v <? 256 ^ Z.of_nat n)) eqn:E; [|discriminate].
  apply andb_true_iff in E. destruct E as [E1 E2].
  apply Z.leb_le in E1. apply Z.ltb_lt in E2.
  inversion H. split; [reflexivity | lia].
Qed.

Lemma string_of_bytes_of_string :
  forall s, string_of_bytes (bytes_of_string s) = s.
Proof.
  unfold string_of_bytes, bytes_of_string.
  intros s. rewrite map_map.
  rewrite (map_ext _ (fun c => c)).
  - rewrite map_id. apply string_of_list_ascii_of_string.
  - intros c. rewrite N2Z.id. apply ascii_N_embedding.
Qed.

Lemma bytes_of_string_length :
  forall s, List.length (bytes_of_string s) = String.length s.
Proof.
  intros s. unfold bytes_of_string. rewrite length_map.
  induction s; simpl; auto.
Qed.

(** The record that [packEntry] builds is read back by [_Entry.__init__]. *)
Lemma init_packEntry :
  forall inodeNum entrySize nm byteString blockIndex blockId blockOffset e,
    _EntryList.packEntry inodeNum entrySize nm = Ok byteString ->
    _Entry.__init__ blockIndex blockId blockOffset byteString = Ok e ->
    e = mkEntry nm inodeNum entrySize blockIndex blockId blockOffset.
Proof.
  intros inodeNum entrySize nm byteString blockIndex blockId blockOffset e Hp Hi.
  unfold _EntryList.packEntry in Hp.
  destruct (pack_uint 4 inodeNum) as [a| |] eqn:Ea; cbn [bindR] in Hp;
    try discriminate.
  destruct (pack_uint 2 entrySize) as [b| |] eqn:Eb; cbn [bindR] in Hp;
    try discriminate.
  destruct (pack_uint 1 (strlen nm)) as [c| |] eqn:Ec; cbn [bindR] in Hp;
    try discriminate.
  apply pack_uint_Ok in Ea, Eb, Ec.
  destruct Ea as [-> Ha], Eb as [-> Hb], Ec as [-> Hc].
  assert (H4 : uint_at 4 byteString 0 = inodeNum).
  { inversion Hp. unfold uint_at.
    cbn [Z.to_nat skipn le_bytes app firstn].
    change (le_value (le_bytes 4 inodeNum) = inodeNum).
    apply le_value_le_bytes_small. exact Ha. }
  assert (H2 : uint_at 2 byteString 4 = entrySize).
  { inversion Hp. unfold uint_at.
    change (Z.to_nat 4) with 4%nat.
    cbn [skipn le_bytes app firstn].
    change (le_value (le_bytes 2 entrySize) = entrySize).
    apply le_value_le_bytes_small. exact Hb. }
  assert (H1 : uint_at 1 byteString 6 = strlen nm).
  { inversion Hp. unfold uint_at.
    change (Z.to_nat 6) with 6%nat.
    cbn [skipn le_bytes app firstn].
    change (le_value (le_bytes 1 (strlen nm)) = strlen nm).
    apply le_value_le_bytes_small. exact Hc. }
  assert (Hs : str_at (strlen nm) byteString 8 = nm).
  { inversion Hp. unfold str_at.
    change (Z.to_nat 8) with 8%nat.
    cbn [skipn le_bytes app].
    unfold strlen. rewrite Nat2Z.id.
    rewrite <- bytes_of_string_length, firstn_all.
    apply string_of_bytes_of_string. }
  unfold _Entry.__init__ in Hi.
  destruct (unpack_check 7 byteString 0); cbn [bindR] in Hi; try discriminate.
  destruct (unpack_check _ byteString 8); cbn [bindR] in Hi; try discriminate.
  inversion Hi; subst e; clear Hi.
  rewrite H4, H2, H1, Hs. reflexivity.
Qed.

(** ** Appending an entry *)

Lemma keepsEntries_ret : forall A (a : A), keepsEntries (ret a).
Proof. intros A a c r c' H. inversion H. reflexivity. Qed.

Lemma keepsEntries_raise : forall A e, keepsEntries (@raise Ctx A e).
Proof. intros A e c r c' H. inversion H. reflexivity. Qed.

Lemma keepsEntries_get : keepsEntries (@get Ctx).
Proof. intros c r c' H. inversion H. reflexivity. Qed.

Lemma keepsEntries_liftR : forall A (f : Ctx -> Result A), keepsEntries (liftR f).
Proof. intros A f c r c' H. inversion H. reflexivity. Qed.

Lemma keepsEntries_onFS : forall A (m : M FS A), keepsEntries (onFS m).
Proof.
  intros A m c r c' H. unfold onFS in H.
  destruct (m (c_fs c)) as [r0 fs']. inversion H. reflexivity.
Qed.

Lemma keepsEntries_set_inode : forall ino, keepsEntries (set_inode ino).
Proof. intros ino c r c' H. inversion H. reflexivity. Qed.

Lemma keepsEntries_bind :
  forall A B (m : M Ctx A) (k : A -> M Ctx B),
    keepsEntries m -> (forall a, keepsEntries (k a)) -> keepsEntries (bind m k).
Proof.
  intros A B m k Hm Hk c r c' H. unfold bind in H.
  destruct (m c) as [[a| e |] c1] eqn:E.
  - rewrite (Hk a c1 r c' H). eapply Hm; eauto.
  - inversion H; subst. eapply Hm; eauto.
  - inversion H; subst. eapply Hm; eauto.
Qed.

Lemma keepsEntries_placeEntry :
  forall lastEntry entrySize,
    keepsEntries (_EntryList.placeEntry lastEntry entrySize).
Proof.
  intros lastEntry entrySize. unfold _EntryList.placeEntry.
  apply keepsEntries_bind; [apply keepsEntries_get|]. intros c.
  destruct (_ <? _).
  - apply keepsEntries_ret.
  - repeat (first [ apply keepsEntries_bind; [|intros ?]
                  | apply keepsEntries_onFS
                  | apply keepsEntries_set_inode
                  | apply keepsEntries_ret ]).
Qed.

(** A write of at least one byte. *)
Lemma overwrite_nonempty :
  forall pos (b img : list Z),
    b <> [] ->
    overwrite pos b img
    = firstn pos img ++ repeat 0 (pos - List.length img) ++ b
        ++ skipn (pos + List.length b) img.
Proof.
  intros pos [|x b] img H; [contradiction|reflexivity].
Qed.

(** What is read at the place of a write is what was written. *)
Lemma read_overwrite_at :
  forall pos (b img : list Z),
    firstn (List.length b) (skipn pos (overwrite pos b img)) = b.
Proof.
  intros pos b img.
  destruct b as [|x b']; [reflexivity|].
  rewrite overwrite_nonempty by discriminate.
  generalize (x :: b') as b. intros b.
  rewrite app_assoc, skipn_app.
  assert (Hlen : List.length (firstn pos img ++ repeat 0 (pos - List.length img))
                 = pos).
  { rewrite length_app, length_firstn, repeat_length. lia. }
  rewrite skipn_all2 by lia. rewrite Hlen, Nat.sub_diag.
  cbn [skipn app]. rewrite firstn_app, firstn_all, Nat.sub_diag.
  cbn [firstn]. apply app_nil_r.
Qed.

(** The steps of a successful [append]. *)
Lemma append_steps :
  forall (c c' : Ctx) (nm : string) (inodeNum : Z) (e : Entry),
    _EntryList.append nm inodeNum c = (Ok e, c') ->
    exists lastEntry c1 c2 c3 byteString,
      py_index (f_entries (c_self c)) (-1) = Ok lastEntry
      /\ _EntryList.placeEntry lastEntry (align4 (strlen nm + 11)) c
         = (Ok (e_bindex e, e_bid e, e_offset e), c1)
      /\ _EntryList.packEntry inodeNum (align4 (strlen nm + 11)) nm = Ok byteString
      /\ onFS (Filesystem._writeToBlock (e_bid e) (e_offset e) byteString) c1
         = (Ok tt, c2)
      /\ onFS (_Entry.set_nextEntry lastEntry e) c2 = (Ok tt, c3)
      /\ e = mkEntry nm inodeNum (align4 (strlen nm + 11))
                     (e_bindex e) (e_bid e) (e_offset e)
      /\ c' = mkCtx (mkFile (f_kind (c_self c3)) (f_dirEntry (c_self c3))
                            (f_inode (c_self c3)) (f_entries (c_self c3) ++ [e]))
                    (c_fs c3).
Proof.
  intros c c' nm inodeNum e H. unfold _EntryList.append in H.
  destruct (255 <? strlen nm); [discriminate|].
  destruct (negb (0 <? strlen nm)); [discriminate|].
  unfold bind at 1 in H. unfold liftR at 1 in H.
  destruct (py_index (f_entries (c_self c)) (-1)) as [lastEntry| |];
    try discriminate.
  unfold bind at 1 in H.
  destruct (_EntryList.placeEntry lastEntry _ c) as [[[[bindex bid] off]| |] c1]
    eqn:Eplace; try discriminate.
  unfold bind at 1 in H. unfold liftR at 1 in H.
  destruct (_EntryList.packEntry inodeNum _ nm) as [byteString| |] eqn:Epack;
    try discriminate.
  unfold bind at 1 in H.
  destruct (onFS (Filesystem._writeToBlock bid off byteString) c1)
    as [[[]| |] c2] eqn:Ewrite; try discriminate.
  unfold bind at 1 in H. unfold liftR at 1 in H.
  destruct (_Entry.__init__ bindex bid off byteString) as [newEntry| |] eqn:Einit;
    try discriminate.
  unfold bind at 1 in H.
  destruct (onFS (_Entry.set_nextEntry lastEntry newEntry) c2)
    as [[[]| |] c3] eqn:Enext; try discriminate.
  unfold bind, get, set_entries, ret in H. cbn in H.
  inversion H; subst e c'; clear H.
  pose proof (init_packEntry _ _ _ _ _ _ _ _ Epack Einit) as ->.
  cbn [e_bindex e_bid e_offset].
  exists lastEntry, c1, c2, c3, byteString. repeat split; assumption.
Qed.

(** The entry list that the directory object keeps in memory.  A
    successful [append] makes it the former entries, in their order,
    followed by the new entry, which bears the given name and inode
    number; its record length is the aligned minimum for its name,
    [(len(name) + 11)] rounded down to a multiple of 4, not the rest of
    the block.  This says nothing of the records on the device. *)
Lemma append_extends_entry_list :
  forall (c c' : Ctx) (nm : string) (inodeNum : Z) (e : Entry),
    _EntryList.append nm inodeNum c = (Ok e, c') ->
    f_entries (c_self c') = f_entries (c_self c) ++ [e]
    /\ e_name e = nm
    /\ e_inodeNum e = inodeNum
    /\ e_size e = align4 (strlen nm + 11).
Proof.
  intros c c' nm inodeNum e H.
  destruct (append_steps _ _ _ _ _ H)
    as (lastEntry & c1 & c2 & c3 & byteString
        & _ & Hplace & _ & Hwrite & Hnext & He & ->).
  apply keepsEntries_placeEntry in Hplace.
  apply keepsEntries_onFS in Hwrite, Hnext.
  cbn [c_self f_entries]. rewrite Hnext, Hwrite, Hplace.
  split; [reflexivity|].
  rewrite He. repeat split.
Qed.

(** On the device, a successful [append] leaves in the record of the
    former last entry, as its length, the distance to the new record: the
    difference of the offsets when both are in one block, else what was
    left of the block of the former last entry. *)
Lemma append_rewrites_previous_length :
  forall (c c' : Ctx) (nm : string) (inodeNum : Z) (e : Entry),
    _EntryList.append nm inodeNum c = (Ok e, c') ->
    exists lastEntry img',
      py_index (f_entries (c_self c)) (-1) = Ok lastEntry
      /\ device (c_fs c') = Some img'
      /\ uint_at 2 img' (e_bid lastEntry * blockSize (c_fs c')
                         + (e_offset lastEntry + 4))
         = (if e_bindex e =? e_bindex lastEntry
            then e_offset e - e_offset lastEntry
            else blockSize (c_fs c') - e_offset lastEntry + e_offset e).
Proof.
  intros c c' nm inodeNum e H.
  destruct (append_steps _ _ _ _ _ H)
    as (lastEntry & c1 & c2 & c3 & byteString & Hlast & _ & _ & _ & Hnext & _ & ->).
  exists lastEntry. cbn [c_fs].
  unfold onFS in Hnext.
  destruct (_Entry.set_nextEntry lastEntry e (c_fs c2)) as [r fs3] eqn:Es.
  inversion Hnext; subst r c3; clear Hnext. cbn [c_fs].
  unfold _Entry.set_nextEntry in Es.
  unfold bind at 1 in Es. unfold get at 1 in Es.
  set (newSize := if e_bindex e =? e_bindex lastEntry
                  then e_offset e - e_offset lastEntry
                  else blockSize (c_fs c2) - e_offset lastEntry + e_offset e).
  assert (Hsize : exists s2,
            (if e_bindex e =? e_bindex lastEntry
             then (if 0 <? e_offset e - e_offset lastEntry
                   then ret (e_offset e - e_offset lastEntry)
                   else raise (FilesystemError "Next entry not after previous entry."))
             else ret (blockSize (c_fs c2) - e_offset lastEntry + e_offset e))
              (c_fs c2) = (s2, c_fs c2)
            /\ (forall v, s2 = Ok v -> v = newSize)).
  { unfold newSize. destruct (e_bindex e =? e_bindex lastEntry).
    - destruct (0 <? e_offset e - e_offset lastEntry);
        eexists; (split; [reflexivity|]); intros v Hv; inversion Hv; reflexivity.
    - eexists. split; [reflexivity|]. intros v Hv. inversion Hv. reflexivity. }
  destruct Hsize as (s2 & Hs2 & Hv).
  unfold bind at 1 in Es. rewrite Hs2 in Es.
  destruct s2 as [v| |]; try discriminate.
  rewrite (Hv v eq_refl) in Es. clear Hs2 Hv v.
  unfold bind at 1 in Es. unfold liftR at 1 in Es.
  destruct (pack_uint 2 newSize) as [bytes| |] eqn:Epack; try discriminate.
  apply pack_uint_Ok in Epack. destruct Epack as [-> Hrange].
  unfold Filesystem._writeToBlock, _DeviceFromFile.write in Es.
  destruct (device (c_fs c2)) as [img|] eqn:Edev; [|discriminate].
  destruct (Z.ltb_spec (e_bid lastEntry * blockSize (c_fs c2)
                        + (e_offset lastEntry + 4)) 0); [discriminate|].
  inversion Es; subst fs3; clear Es.
  eexists. split; [exact Hlast|]. split; [reflexivity|].
  change (blockSize (set_device _ (c_fs c2))) with (blockSize (c_fs c2)).
  fold newSize. unfold uint_at. clear H.
  change [newSize mod 256; (newSize / 256) mod 256] with (le_bytes 2 newSize).
  change 2%nat with (List.length (le_bytes 2 newSize)) at 1.
  match goal with
  | |- le_value (firstn _ (skipn ?p ?t)) = _ =>
      change t with (overwrite p (le_bytes 2 newSize) img)
  end.
  rewrite read_overwrite_at.
  apply le_value_le_bytes_small. exact Hrange.
Qed.

Lemma append_extends_entry_list_witness :
  exists e c',
    _EntryList.append "new" 15 Image.ctx0 = (Ok e, c')
    /\ (f_entries (c_self c') = f_entries (c_self Image.ctx0) ++ [e]
        /\ e_name e = "new"%string
        /\ e_inodeNum e = 15
        /\ e_size e = align4 (strlen "new" + 11)).
Proof.
  eexists. eexists.
  match goal with
  | |- ?A /\ _ => assert (H : A) by (vm_compute; reflexivity)
  end.
  split; [exact H|].
  exact (append_extends_entry_list _ _ _ _ _ H).
Defined.

(** The sum of the record lengths.  The root directory of the image has
    one block whose record lengths add up to the block size, 1024.  After
    [append("new", 15)] the records on the device are those of the former
    entries followed by [new], but the length of [tty] has been cut to 12
    and [new] has length 12: the lengths add up to 96.  Here the bytes
    after the new record are zero and there are more than 8 of them, so
    the scan stops there.  In the entry list the object of [tty] keeps
    its length 952, for a sum of 1036. *)
Lemma append_breaks_record_length_sum :
  exists e c' onDisk,
    _EntryList.__init__ (f_inode Image.root0) Image.fs0
      = Ok (f_entries Image.root0)
    /\ recordLengthSum 0 (f_entries Image.root0) = blockSize Image.fs0
    /\ _EntryList.append "new" 15 Image.ctx0 = (Ok e, c')
    /\ blockSize (c_fs c') = 1024
    /\ _EntryList.__init__ (f_inode (c_self c')) (c_fs c') = Ok onDisk
    /\ map e_name onDisk
       = ["."; ".."; "lost+found"; "hello"; "link"; "tty"; "new"]%string
    /\ map e_size onDisk = [12; 12; 20; 16; 12; 12; 12]
    /\ recordLengthSum 0 onDisk = 96
    /\ recordLengthSum 0 onDisk <> blockSize (c_fs c')
    /\ recordLengthSum 0 (f_entries (c_self c')) = 1036.
Proof.
  eexists. eexists. eexists.
  split; [vm_compute; reflexivity|].
  split; [reflexivity|].
  split; [vm_compute; reflexivity|].
  split; [reflexivity|].
  split; [vm_compute; reflexivity|].
  split; [reflexivity|].
  split; [reflexivity|].
  split; [reflexivity|].
  split; [discriminate|].
  reflexivity.
Qed.

(** C4.  [append] does not keep the records of a block readable.  The
    block of the root directory of [Image.fsTight] holds [.], [..] and
    [last]; the record lengths 12, 984 and 28 add up to the block size and
    the directory opens with these three entries.  [append("new", 15)]
    passes the test
    [entrySize + lastEntry._offset + len(lastEntry.name) + 11 < blockSize]
    (12 + 996 + 4 + 11 = 1023) and succeeds: the entry list in memory is
    the former entries followed by [new].  On the device the record of
    [last] is cut to 12 bytes and [new] is written at offset 1008 with
    record length 12, so the records end at offset 1020, four bytes before
    the end of the block, and their lengths add up to 1020.  A scan of the
    block goes on at offset 1020, where [unpack_from("<IHB", ...)] has
    four bytes for the seven it needs: building the entry list of the
    directory again, and so opening the directory, raises [struct.error]. *)
Theorem append_leaves_directory_unreadable :
  exists e c' blk,
    Ext2Directory._openEntry None Image.fsTight = Ok Image.rootTight
    /\ map e_name (f_entries Image.rootTight) = ["."; ".."; "last"]%string
    /\ map e_size (f_entries Image.rootTight) = [12; 984; 28]
    /\ recordLengthSum 0 (f_entries Image.rootTight) = blockSize Image.fsTight
    /\ _EntryList.append "new" 15 Image.ctxTight = (Ok e, c')
    /\ map e_name (f_entries (c_self c')) = ["."; ".."; "last"; "new"]%string
    /\ e_offset e = 1008
    /\ e_size e = 12
    /\ blockSize (c_fs c') = 1024
    /\ Filesystem._readBlock 7 (c_fs c') = Ok blk
    /\ map (fun off =>
              try r := _Entry.__init__ 0 7 off (skipn (Z.to_nat off) blk) in
              Ok (e_name r, e_inodeNum r, e_size r))
           [0; 12; 996; 1008]
       = [Ok ("."%string, 2, 12); Ok (".."%string, 2, 984);
          Ok ("last"%string, 12, 12); Ok ("new"%string, 15, 12)]
    /\ 12 + 984 + 12 + 12 = 1020
    /\ _Entry.__init__ 0 7 1020 (skipn (Z.to_nat 1020) blk) = Raise StructError
    /\ _EntryList.__init__ (f_inode (c_self c')) (c_fs c') = Raise StructError
    /\ Ext2Directory._openEntry None (c_fs c') = Raise StructError.
Proof.
  eexists. eexists. eexists.
  split; [vm_compute; reflexivity|].
  split; [reflexivity|].
  split; [reflexivity|].
  split; [reflexivity|].
  split; [vm_compute; reflexivity|].
  split; [reflexivity|].
  split; [reflexivity|].
  split; [reflexivity|].
  split; [reflexivity|].
  split; [vm_compute; reflexivity|].
  split; [vm_compute; reflexivity|].
  split; [reflexivity|].
  split; [vm_compute; reflexivity|].
  split; [vm_compute; reflexivity|].
  vm_compute; reflexivity.
Qed.

(** ** Paths (C9) *)

Lemma splitSlashes_nonempty : forall s, splitSlashes s <> [].
Proof.
  induction s as [|c s IH]; simpl; [discriminate|].
  destruct (is_slash c).
  - destruct (starts_with_slash s); [exact IH | discriminate].
  - destruct (splitSlashes s); simpl; discriminate.
Qed.

Lemma starts_with_slash_collapse :
  forall s, starts_with_slash (collapseSlashes s) = starts_with_slash s.
Proof.
  induction s as [|c s IH]; simpl; [reflexivity|].
  destruct (is_slash c) eqn:Ec; simpl.
  - destruct (starts_with_slash s) eqn:Es; simpl.
    + exact IH.
    + exact Ec.
  - exact Ec.
Qed.

Lemma splitSlashes_collapse :
  forall s, splitSlashes (collapseSlashes s) = splitSlashes s.
Proof.
  induction s as [|c s IH]; simpl; [reflexivity|].
  destruct (is_slash c) eqn:Ec; simpl.
  - destruct (starts_with_slash s) eqn:Es; simpl.
    + exact IH.
    + rewrite Ec, starts_with_slash_collapse, Es, IH. reflexivity.
  - rewrite Ec, IH. reflexivity.
Qed.

Lemma dropTrailingSlash_no_slash :
  forall s, ends_with_slash s = false -> dropTrailingSlash s = s.
Proof.
  induction s as [|c s IH]; intros H; [reflexivity|].
  destruct s as [|c' s'].
  - simpl in *. rewrite H. reflexivity.
  - change (String c (dropTrailingSlash (String c' s')) = String c (String c' s')).
    rewrite IH; [reflexivity | exact H].
Qed.

Lemma cons_head_app :
  forall c l m, l <> [] -> cons_head c (l ++ m) = cons_head c l ++ m.
Proof. intros c [|h t] m H; [congruence | reflexivity]. Qed.

Lemma splitSlashes_trailing :
  forall s, ends_with_slash s = true ->
    (ends_with_slash (dropTrailingSlash s) = true
     /\ splitSlashes s = splitSlashes (dropTrailingSlash s))
    \/ (ends_with_slash (dropTrailingSlash s) = false
        /\ splitSlashes s = splitSlashes (dropTrailingSlash s) ++ [EmptyString]).
Proof.
  induction s as [|c s IH]; intros H; [discriminate|].
  destruct s as [|c' s'].
  - simpl in H. right. simpl. rewrite H. split; reflexivity.
  - change (ends_with_slash (String c' s') = true) in H.
    specialize (IH H).
    change (dropTrailingSlash (String c (String c' s')))
      with (String c (dropTrailingSlash (String c' s'))).
    destruct s' as [|c'' s''].
    + (* s' is one slash *)
      simpl in H. simpl. rewrite H.
      destruct (is_slash c) eqn:Ec.
      * left. split; reflexivity.
      * right. split; reflexivity.
    + set (s1 := String c' (String c'' s'')) in *.
      assert (Hd : dropTrailingSlash s1
                   = String c' (dropTrailingSlash (String c'' s''))) by reflexivity.
      assert (Hst : starts_with_slash (dropTrailingSlash s1) = starts_with_slash s1)
        by (rewrite Hd; reflexivity).
      assert (Hends : ends_with_slash (String c (dropTrailingSlash s1))
                      = ends_with_slash (dropTrailingSlash s1))
        by (rewrite Hd; reflexivity).
      rewrite Hends.
      assert (Hsplit : forall t, starts_with_slash t = starts_with_slash s1 ->
                splitSlashes (String c t)
                = if is_slash c
                  then if starts_with_slash s1 then splitSlashes t
                       else EmptyString :: splitSlashes t
                  else cons_head c (splitSlashes t)).
      { intros t Ht. simpl. rewrite Ht. reflexivity. }
      rewrite (Hsplit s1 eq_refl), (Hsplit _ Hst).
      destruct IH as [[He Hs]|[He Hs]]; [left|right]; (split; [exact He|]);
        rewrite Hs.
      * reflexivity.
      * destruct (is_slash c); [destruct (starts_with_slash s1)|];
          try reflexivity.
        apply cons_head_app, splitSlashes_nonempty.
Qed.

Lemma last_cons_head :
  forall c l, last (cons_head c l) EmptyString <> EmptyString
              \/ (exists h t, l = h :: t /\ t <> []
                              /\ last (cons_head c l) EmptyString = last l EmptyString).
Proof.
  intros c [|h [|h' t]].
  - left. simpl. discriminate.
  - left. simpl. discriminate.
  - right. exists h, (h' :: t). repeat split. discriminate.
Qed.

Lemma splitSlashes_last :
  forall s, ends_with_slash s = false -> s <> EmptyString ->
    last (splitSlashes s) EmptyString <> EmptyString.
Proof.
  induction s as [|c s IH]; intros He Hne; [congruence|].
  destruct s as [|c' s'].
  - simpl in He. simpl. rewrite He. simpl. discriminate.
  - change (ends_with_slash (String c' s') = false) in He.
    assert (IH' := IH He ltac:(discriminate)).
    set (s1 := String c' s') in *.
    change (splitSlashes (String c s1))
      with (if is_slash c
            then if starts_with_slash s1 then splitSlashes s1
                 else EmptyString :: splitSlashes s1
            else cons_head c (splitSlashes s1)).
    destruct (is_slash c); [destruct (starts_with_slash s1)|].
    + exact IH'.
    + pose proof (splitSlashes_nonempty s1) as Hn.
      destruct (splitSlashes s1) as [|h t]; [congruence|]. exact IH'.
    + destruct (last_cons_head c (splitSlashes s1)) as [H|(h & t & _ & _ & H)].
      * exact H.
      * rewrite H. exact IH'.
Qed.

Lemma dropTrailingEmpty_snoc :
  forall l, l <> [] -> dropTrailingEmpty (l ++ [EmptyString]) = l.
Proof.
  intros l Hl. unfold dropTrailingEmpty.
  destruct l as [|a l]; [congruence|].
  destruct l as [|b l]; [reflexivity|].
  change (((a :: b :: l) ++ [EmptyString])) with (a :: b :: (l ++ [EmptyString])).
  change (a :: b :: (l ++ [EmptyString])) with ((a :: b :: l) ++ [EmptyString]).
  rewrite last_last, removelast_last.
  destruct (l ++ [EmptyString]) eqn:E; [destruct l; discriminate|].
  reflexivity.
Qed.

Lemma dropTrailingEmpty_stable :
  forall l, last l EmptyString <> EmptyString \/ l = [EmptyString] ->
    dropTrailingEmpty l = l.
Proof.
  intros l [H| ->]; [|reflexivity].
  unfold dropTrailingEmpty.
  destruct l as [|a [|b l]]; try reflexivity.
  destruct (last (a :: b :: l) EmptyString); [congruence | reflexivity].
Qed.

Lemma dropLeading_snoc :
  forall l, l <> [] ->
    (last l EmptyString <> EmptyString \/ l = [EmptyString]) ->
    dropTrailingEmpty (dropLeadingEmpty (l ++ [EmptyString]))
    = dropTrailingEmpty (dropLeadingEmpty l).
Proof.
  intros l Hl Hlast.
  destruct l as [|x [|y l]]; [congruence | |].
  - destruct x; reflexivity.
  - destruct Hlast as [Hlast|Heq]; [|discriminate].
    destruct x as [|cx x].
    + change (dropLeadingEmpty ((EmptyString :: y :: l) ++ [EmptyString]))
        with ((y :: l) ++ [EmptyString]).
      change (dropLeadingEmpty (EmptyString :: y :: l)) with (y :: l).
      rewrite dropTrailingEmpty_snoc by discriminate.
      symmetry. apply dropTrailingEmpty_stable. left. exact Hlast.
    + change (dropLeadingEmpty ((String cx x :: y :: l) ++ [EmptyString]))
        with ((String cx x :: y :: l) ++ [EmptyString]).
      change (dropLeadingEmpty (String cx x :: y :: l)) with (String cx x :: y :: l).
      rewrite dropTrailingEmpty_snoc by discriminate.
      symmetry. apply dropTrailingEmpty_stable. left. exact Hlast.
Qed.

Lemma splitSlashes_dropTrailingSlash :
  forall s,
    hd_error (splitSlashes (dropTrailingSlash s)) = hd_error (splitSlashes s)
    /\ dropTrailingEmpty (splitSlashes (dropTrailingSlash s))
       = dropTrailingEmpty (splitSlashes s)
    /\ dropTrailingEmpty (dropLeadingEmpty (splitSlashes (dropTrailingSlash s)))
       = dropTrailingEmpty (dropLeadingEmpty (splitSlashes s)).
Proof.
  intros s. destruct (ends_with_slash s) eqn:E.
  - destruct (splitSlashes_trailing s E) as [[_ ->]|[He ->]];
      [repeat split|].
    set (r := dropTrailingSlash s) in *.
    pose proof (splitSlashes_nonempty r) as Hn.
    assert (Hlast : last (splitSlashes r) EmptyString <> EmptyString
                    \/ splitSlashes r = [EmptyString]).
    { destruct r as [|c r'] eqn:Er; [right; reflexivity|].
      left. apply splitSlashes_last; [exact He | discriminate]. }
    split; [|split].
    + destruct (splitSlashes r); [congruence | reflexivity].
    + rewrite dropTrailingEmpty_snoc by exact Hn.
      apply dropTrailingEmpty_stable. exact Hlast.
    + symmetry. apply dropLeading_snoc; assumption.
  - rewrite dropTrailingSlash_no_slash by exact E. repeat split.
Qed.

Lemma pathPartsAt_normalizePath :
  forall p, Ext2Directory.pathPartsAt (normalizePath p) = Ext2Directory.pathPartsAt p.
Proof.
  intros p. unfold Ext2Directory.pathPartsAt, normalizePath.
  destruct (splitSlashes_dropTrailingSlash (collapseSlashes p)) as (_ & _ & H).
  rewrite H, splitSlashes_collapse. reflexivity.
Qed.

Lemma getFile_parts :
  forall p q fs,
    hd_error (splitSlashes p) = hd_error (splitSlashes q) ->
    dropTrailingEmpty (splitSlashes p) = dropTrailingEmpty (splitSlashes q) ->
    Ext2Disk_getFile p fs = Ext2Disk_getFile q fs.
Proof.
  intros p q fs Hh Hd. unfold Ext2Disk_getFile.
  destruct (negb (_DeviceFromFile.isMounted (device fs))); [reflexivity|].
  rewrite Hd.
  destruct (splitSlashes p) as [|a l], (splitSlashes q) as [|b m];
    simpl in Hh; try discriminate; try reflexivity.
  inversion Hh. reflexivity.
Qed.

(** C9.  Replacing every run of slashes of a path by one slash and
    dropping a final slash does not change what either lookup does with
    the path: the same file object is returned, or the same exception
    raised. *)
Theorem lookup_insensitive_to_slash_runs :
  forall (self : File) (p : string) (fs : FS),
    Ext2Directory.getFileAt self (normalizePath p) fs
      = Ext2Directory.getFileAt self p fs
    /\ Ext2Disk_getFile (normalizePath p) fs = Ext2Disk_getFile p fs.
Proof.
  intros self p fs. split.
  - unfold Ext2Directory.getFileAt, Ext2Directory.getFileAt_object.
    rewrite pathPartsAt_normalizePath. reflexivity.
  - apply getFile_parts; unfold normalizePath;
      destruct (splitSlashes_dropTrailingSlash (collapseSlashes p)) as (H1 & H2 & _).
    + rewrite H1, splitSlashes_collapse. reflexivity.
    + rewrite H2, splitSlashes_collapse. reflexivity.
Qed.

(** In particular [//a///b/] resolves as [/a/b] does. *)
Lemma lookup_example_paths :
  forall (self : File) (fs : FS),
    Ext2Directory.getFileAt self "//a///b/" fs
      = Ext2Directory.getFileAt self "/a/b" fs
    /\ Ext2Disk_getFile "//a///b/" fs = Ext2Disk_getFile "/a/b" fs.
Proof.
  intros self fs. split.
  - unfold Ext2Directory.getFileAt, Ext2Directory.getFileAt_object.
    replace (Ext2Directory.pathPartsAt "//a///b/")
      with (Ext2Directory.pathPartsAt "/a/b") by reflexivity.
    reflexivity.
  - apply getFile_parts; reflexivity.
Qed.

Lemma normalizePath_example :
  normalizePath "//a///b/" = "/a/b"%string
  /\ Ext2Directory.pathPartsAt "//a///b/" = Ext2Directory.pathPartsAt "/a/b"
  /\ splitSlashes "//a///b/" = [""; "a"; "b"; ""]%string.
Proof. repeat split. Qed.

(** ** Reads after a write *)

Lemma overwrite_inside :
  forall pos (b img : list Z),
    (pos + List.length b <= List.length img)%nat ->
    overwrite pos b img = firstn pos img ++ b ++ skipn (pos + List.length b) img.
Proof.
  intros pos b img H.
  destruct b as [|x b'].
  - cbn [overwrite List.length app]. rewrite Nat.add_0_r.
    symmetry. apply firstn_skipn.
  - rewrite overwrite_nonempty by discriminate.
    replace (pos - List.length img)%nat with 0%nat by lia. reflexivity.
Qed.

Lemma nth_error_overwrite_outside :
  forall pos (b img : list Z) j,
    (pos + List.length b <= List.length img)%nat ->
    (j < pos \/ pos + List.length b <= j)%nat ->
    nth_error (overwrite pos b img) j = nth_error img j.
Proof.
  intros pos b img j Hin Hj. rewrite overwrite_inside by exact Hin.
  assert (Hlen : List.length (firstn pos img) = pos)
    by (rewrite length_firstn; lia).
  destruct Hj as [Hj|Hj].
  - rewrite nth_error_app1 by lia.
    rewrite nth_error_firstn.
    destruct (Nat.ltb_spec j pos); [reflexivity | lia].
  - rewrite nth_error_app2 by lia. rewrite Hlen.
    rewrite nth_error_app2 by lia.
    rewrite nth_error_skipn. f_equal. lia.
Qed.

Lemma read_overwrite_outside :
  forall pos (b img : list Z) r n,
    (pos + List.length b <= List.length img)%nat ->
    (r + n <= pos \/ pos + List.length b <= r)%nat ->
    firstn n (skipn r (overwrite pos b img)) = firstn n (skipn r img).
Proof.
  intros pos b img r n Hin Hr. apply nth_error_ext. intros i.
  rewrite !nth_error_firstn, !nth_error_skipn.
  destruct (Nat.ltb_spec i n); [|reflexivity].
  apply nth_error_overwrite_outside; [exact Hin | lia].
Qed.

Lemma read_overwrite_same :
  forall pos (b img : list Z) n,
    (pos + n <= List.length img)%nat ->
    (List.length b <= n)%nat ->
    firstn n (skipn pos (overwrite pos b img))
    = b ++ firstn (n - List.length b) (skipn (pos + List.length b) img).
Proof.
  intros pos b img n Hin Hb. rewrite overwrite_inside by lia.
  rewrite skipn_app.
  rewrite skipn_all2 by (rewrite length_firstn; lia).
  rewrite length_firstn.
  replace (pos - Nat.min pos (List.length img))%nat with 0%nat by lia.
  cbn [skipn app].
  rewrite firstn_app. rewrite firstn_all2 by exact Hb. reflexivity.
Qed.

Lemma skipn_repeat_Z :
  forall (k n : nat) (a : Z), skipn k (repeat a n) = repeat a (n - k).
Proof.
  induction k as [|k IH]; intros n a.
  - rewrite Nat.sub_0_r. reflexivity.
  - destruct n as [|n]; [reflexivity|]. simpl. apply IH.
Qed.

Lemma tail_of_zero_block :
  forall (img : list Z) pos n k,
    firstn n (skipn pos img) = repeat 0 n ->
    (k <= n)%nat ->
    firstn (n - k) (skipn (pos + k) img) = repeat 0 (n - k).
Proof.
  intros img pos n k H Hk.
  replace (pos + k)%nat with (k + pos)%nat by lia.
  rewrite <- skipn_skipn.
  rewrite firstn_skipn_comm.
  replace (k + (n - k))%nat with n by lia.
  rewrite H. apply skipn_repeat_Z.
Qed.

Lemma le_value_zeros : forall n, le_value (repeat 0 n) = 0.
Proof. induction n as [|n IH]; simpl; [reflexivity | rewrite IH; reflexivity]. Qed.

(** ** Records read back from a block *)

Lemma unpack_check_Ok :
  forall size buf off,
    size <= Z.of_nat (List.length buf) - off -> unpack_check size buf off = Ok tt.
Proof.
  intros size buf off H. unfold unpack_check.
  destruct (Z.leb_spec size (Z.of_nat (List.length buf) - off)); [reflexivity | lia].
Qed.

Lemma dirRecord_length :
  forall ino sz nm,
    List.length (dirRecord ino sz nm) = (8 + String.length nm)%nat.
Proof.
  intros. unfold dirRecord.
  rewrite !length_app, !le_bytes_length, bytes_of_string_length. reflexivity.
Qed.

(** A record followed by anything is read back as the entry it encodes. *)
Lemma init_dirRecord :
  forall blockIndex blockId blockOffset ino sz nm rest,
    0 <= ino < 256 ^ 4 -> 0 <= sz < 256 ^ 2 -> 0 <= strlen nm ->
    _Entry.__init__ blockIndex blockId blockOffset (dirRecord ino sz nm ++ rest)
    = Ok (mkEntry nm ino sz blockIndex blockId blockOffset).
Proof.
  intros blockIndex blockId blockOffset ino sz nm rest Hi Hs Hn.
  unfold _Entry.__init__.
  assert (Hlen : Z.of_nat (List.length (dirRecord ino sz nm ++ rest))
                 = 8 + strlen nm + Z.of_nat (List.length rest)).
  { rewrite length_app, dirRecord_length. unfold strlen. lia. }
  assert (H4 : uint_at 4 (dirRecord ino sz nm ++ rest) 0 = ino).
  { unfold uint_at, dirRecord. cbn [Z.to_nat skipn le_bytes app firstn].
    change (le_value (le_bytes 4 ino) = ino).
    apply le_value_le_bytes_small. exact Hi. }
  assert (H2 : uint_at 2 (dirRecord ino sz nm ++ rest) 4 = sz).
  { unfold uint_at, dirRecord. change (Z.to_nat 4) with 4%nat.
    cbn [skipn le_bytes app firstn].
    change (le_value (le_bytes 2 sz) = sz).
    apply le_value_le_bytes_small. exact Hs. }
  assert (H1 : uint_at 1 (dirRecord ino sz nm ++ rest) 6 = strlen nm).
  { unfold uint_at, dirRecord. change (Z.to_nat 6) with 6%nat.
    cbn [skipn le_bytes app firstn le_value]. lia. }
  assert (Hstr : str_at (strlen nm) (dirRecord ino sz nm ++ rest) 8 = nm).
  { unfold str_at, dirRecord. change (Z.to_nat 8) with 8%nat.
    cbn [skipn le_bytes app].
    unfold strlen. rewrite Nat2Z.id.
    rewrite firstn_app, <- bytes_of_string_length, firstn_all, Nat.sub_diag.
    cbn [firstn]. rewrite app_nil_r.
    apply string_of_bytes_of_string. }
  rewrite unpack_check_Ok by lia. cbn [bindR].
  rewrite H1. rewrite unpack_check_Ok by lia. cbn [bindR].
  rewrite H4, H2, Hstr. reflexivity.
Qed.

(** Zero bytes are read as a record with [inodeNum] 0. *)
Lemma init_zeros :
  forall blockIndex blockId blockOffset n,
    (8 <= n)%nat ->
    exists e,
      _Entry.__init__ blockIndex blockId blockOffset (repeat 0 n) = Ok e
      /\ e_inodeNum e = 0.
Proof.
  intros blockIndex blockId blockOffset n Hn. unfold _Entry.__init__.
  rewrite unpack_check_Ok by (rewrite repeat_length; lia). cbn [bindR].
  assert (Hz : forall k off, uint_at k (repeat 0 n) off = 0).
  { intros k off. unfold uint_at. rewrite skipn_repeat_Z.
    assert (Hf : forall a b, firstn a (repeat 0 b) = repeat 0 (Nat.min a b)).
    { induction a as [|a IH]; intros [|b]; simpl; try reflexivity.
      rewrite IH. reflexivity. }
    rewrite Hf. apply le_value_zeros. }
  rewrite Hz. rewrite unpack_check_Ok by (rewrite repeat_length; lia).
  cbn [bindR]. eexists. split; [reflexivity|]. cbn [e_inodeNum]. apply Hz.
Qed.

(** The block written by [makeDirectory], scanned. *)
Lemma scanBlock_default_entries :
  forall i blockId n p bsize,
    0 < n < 256 ^ 4 -> 0 < p < 256 ^ 4 -> 32 <= bsize ->
    _EntryList.scanBlock (Z.to_nat bsize) i blockId 0
      ((dirRecord n 12 "." ++ [0; 0; 0] ++ dirRecord p 12 "..")
         ++ repeat 0 (Z.to_nat bsize - 22))
      bsize
    = Ok [mkEntry "." n 12 i blockId 0; mkEntry ".." p 12 i blockId 12].
Proof.
  intros i blockId n p bsize Hn Hp Hb.
  destruct (Z.to_nat bsize) as [|[|[|fuel]]] eqn:Efuel; try lia.
  assert (Hrep : repeat 0 (S (S (S fuel)) - 22)
                 = [0; 0] ++ repeat 0 (Z.to_nat bsize - 24)).
  { replace (S (S (S fuel)) - 22)%nat with (2 + (Z.to_nat bsize - 24))%nat by lia.
    reflexivity. }
  rewrite Hrep.
  set (tailz := repeat 0 (Z.to_nat bsize - 24)).
  cbn [_EntryList.scanBlock].
  destruct (Z.ltb_spec 0 bsize); [|lia].
  change (Z.to_nat 0) with 0%nat. cbn [skipn].
  rewrite <- !app_assoc.
  rewrite init_dirRecord by (cbn; lia). cbn [bindR e_inodeNum e_size].
  destruct (Z.eqb_spec n 0); [lia|].
  change (0 + 12) with 12.
  destruct (Z.ltb_spec 12 bsize); [|lia].
  assert (Hskip12 : skipn (Z.to_nat 12)
            (dirRecord n 12 "." ++ [0; 0; 0] ++ dirRecord p 12 ".." ++ [0; 0] ++ tailz)
          = dirRecord p 12 ".." ++ [0; 0] ++ tailz).
  { unfold dirRecord. reflexivity. }
  rewrite Hskip12.
  rewrite init_dirRecord by (cbn; lia). cbn [bindR e_inodeNum e_size].
  destruct (Z.eqb_spec p 0); [lia|].
  change (12 + 12) with 24.
  destruct (Z.ltb_spec 24 bsize); [|lia].
  assert (Hskip24 : skipn (Z.to_nat 24)
            (dirRecord n 12 "." ++ [0; 0; 0] ++ dirRecord p 12 ".." ++ [0; 0] ++ tailz)
          = tailz).
  { unfold dirRecord. reflexivity. }
  rewrite Hskip24.
  destruct (init_zeros i blockId 24 (Z.to_nat bsize - 24)) as (e & He & Hz); [lia|].
  fold tailz in He. rewrite He. cbn [bindR]. rewrite Hz. reflexivity.
Qed.

(** ** [makeDirectory] (C2) *)

Lemma file_read_after_write_outside :
  forall fs img pos D rpos rsize,
    device fs = Some img ->
    0 <= pos ->
    (Z.to_nat pos + List.length D <= List.length img)%nat ->
    0 <= rsize ->
    rpos + rsize <= pos \/ pos + Z.of_nat (List.length D) <= rpos ->
    Ext2Disk.file_read rpos rsize
      (set_device (Some (overwrite (Z.to_nat pos) D img)) fs)
    = Ext2Disk.file_read rpos rsize fs.
Proof.
  intros fs img pos D rpos rsize Hdev Hpos Hin Hsize Hout.
  unfold Ext2Disk.file_read. cbn [device set_device]. rewrite Hdev.
  destruct (Z.ltb_spec rpos 0); [reflexivity|].
  destruct (Z.ltb_spec rsize 0); [lia|].
  f_equal. apply read_overwrite_outside; [exact Hin | lia].
Qed.

Lemma readInode_after_write_outside :
  forall n fs img pos D,
    device fs = Some img ->
    0 <= pos ->
    (Z.to_nat pos + List.length D <= List.length img)%nat ->
    inodeRecordOutside n pos (pos + Z.of_nat (List.length D)) fs ->
    Filesystem._readInode n (set_device (Some (overwrite (Z.to_nat pos) D img)) fs)
    = Filesystem._readInode n fs.
Proof.
  intros n fs img pos D Hdev Hpos Hin (ipos & bpos & Hi & Hb & Hsz & Hio & Hbo).
  unfold Filesystem._readInode, Ext2Disk._readInode.
  unfold Filesystem.inodeStartPos in Hi. unfold inodeBitmapBytePos in Hb.
  cbn [superblock bgdt set_device].
  destruct (py_div (n - 1) _) as [bgroupNum| |]; cbn [bindR] in *; try reflexivity.
  destruct (py_mod (n - 1) _) as [bgroupIndex| |]; cbn [bindR] in *; try reflexivity.
  destruct (py_index (bgdt fs) bgroupNum) as [e| |]; cbn [bindR] in *; try reflexivity.
  inversion Hi as [Hi']. inversion Hb as [Hb'].
  rewrite (file_read_after_write_outside fs img pos D _ 1 Hdev Hpos Hin)
    by lia.
  rewrite (file_read_after_write_outside fs img pos D _ _ Hdev Hpos Hin Hsz)
    by lia.
  reflexivity.
Qed.

Lemma readBlock_zeros_inside :
  forall fs bid,
    0 < blockSize fs ->
    Filesystem._readBlock bid fs = Ok (zeros (blockSize fs)) ->
    exists img,
      device fs = Some img
      /\ 0 <= bid * blockSize fs
      /\ (Z.to_nat (bid * blockSize fs) + Z.to_nat (blockSize fs)
          <= List.length img)%nat
      /\ firstn (Z.to_nat (blockSize fs)) (skipn (Z.to_nat (bid * blockSize fs)) img)
         = repeat 0 (Z.to_nat (blockSize fs)).
Proof.
  intros fs bid Hbs H. unfold Filesystem._readBlock, _DeviceFromFile.read in H.
  destruct (device fs) as [img|]; cbn [bindR] in H; [|discriminate].
  exists img. split; [reflexivity|].
  destruct (Z.ltb_spec (bid * blockSize fs) 0); cbn [bindR] in H; [discriminate|].
  destruct (Z.ltb_spec (blockSize fs) 0); [lia|]. cbn [bindR] in H.
  destruct (Z.ltb_spec (Z.of_nat (List.length
              (firstn (Z.to_nat (blockSize fs))
                 (skipn (Z.to_nat (bid * blockSize fs)) img)))) (blockSize fs))
    as [|Hlen]; [discriminate|].
  rewrite length_firstn, length_skipn in Hlen.
  split; [lia|]. split; [lia|].
  inversion H as [H']. unfold zeros in H'. rewrite H'. reflexivity.
Qed.

Lemma defaultEntries_Ok :
  forall n p,
    0 <= n < 256 ^ 4 -> 0 <= p < 256 ^ 4 ->
    Ext2Directory.defaultEntries n p
    = Ok (dirRecord n 12 "." ++ [0; 0; 0] ++ dirRecord p 12 "..").
Proof.
  intros n p Hn Hp. unfold Ext2Directory.defaultEntries, pack_uint.
  change (256 ^ Z.of_nat 4) with (256 ^ 4).
  destruct (Z.leb_spec 0 n); [|lia]. destruct (Z.ltb_spec n (256 ^ 4)); [|lia].
  destruct (Z.leb_spec 0 p); [|lia]. destruct (Z.ltb_spec p (256 ^ 4)); [|lia].
  reflexivity.
Qed.

Lemma defaultEntries_length :
  forall n p,
    List.length (dirRecord n 12 "." ++ [0; 0; 0] ++ dirRecord p 12 "..") = 22%nat.
Proof. intros. reflexivity. Qed.

Lemma writeToBlock_Ok :
  forall fs img bid D,
    device fs = Some img -> 0 <= bid * blockSize fs ->
    Filesystem._writeToBlock bid 0 D fs
    = (Ok tt, set_device (Some (overwrite (Z.to_nat (bid * blockSize fs)) D img)) fs).
Proof.
  intros fs img bid D Hdev Hpos.
  unfold Filesystem._writeToBlock, _DeviceFromFile.write. rewrite Hdev.
  rewrite Z.add_0_r.
  destruct (Z.ltb_spec (bid * blockSize fs) 0); [lia | reflexivity].
Qed.

Lemma readBlock_after_write :
  forall fs img bid D,
    device fs = Some img ->
    0 <= bid * blockSize fs ->
    (Z.to_nat (bid * blockSize fs) + Z.to_nat (blockSize fs)
     <= List.length img)%nat ->
    firstn (Z.to_nat (blockSize fs)) (skipn (Z.to_nat (bid * blockSize fs)) img)
      = repeat 0 (Z.to_nat (blockSize fs)) ->
    Z.of_nat (List.length D) <= blockSize fs ->
    Filesystem._readBlock bid
      (set_device (Some (overwrite (Z.to_nat (bid * blockSize fs)) D img)) fs)
    = Ok (D ++ repeat 0 (Z.to_nat (blockSize fs) - List.length D)).
Proof.
  intros fs img bid D Hdev Hpos Hin Hz HD.
  unfold Filesystem._readBlock, _DeviceFromFile.read.
  change (blockSize (set_device ?d fs)) with (blockSize fs).
  cbn [device set_device].
  destruct (Z.ltb_spec (bid * blockSize fs) 0); [lia|].
  destruct (Z.ltb_spec (blockSize fs) 0); [lia|].
  cbn [bindR].
  rewrite read_overwrite_same by lia.
  rewrite (tail_of_zero_block img _ _ _ Hz) by lia.
  rewrite length_app, repeat_length.
  destruct (Z.ltb_spec (Z.of_nat (List.length D
              + (Z.to_nat (blockSize fs) - List.length D))) (blockSize fs));
    [lia | reflexivity].
Qed.

(** C2 (as the code has it).  Let [__makeNewEntry] have returned the
    entry of a new inode that reads back as a directory of one block,
    whose block is zero-filled and does not hold the inode's own record.
    Then [makeDirectory] succeeds; the block of the new directory begins
    with the record of [.] for the new inode, of length 12, followed by
    the record of [..] for the inode of the directory the call was made
    on, also of length 12, and the rest of the block stays zero; the
    entry list of the directory returned has exactly these two entries,
    in this order. *)
Theorem makeDirectory_default_entries :
  forall (c c1 : Ctx) (nm : string) (uid gid : option Z)
         (entry : Entry) (ino : Inode) (bid : Z),
    Ext2Directory.__makeNewEntry nm 16877
      (match uid with Some u => u | None => i_uid (f_inode (c_self c)) end)
      (match gid with Some g => g | None => i_gid (f_inode (c_self c)) end) c
      = (Ok entry, c1) ->
    0 < e_inodeNum entry < 256 ^ 4 ->
    0 < i_number (f_inode (c_self c1)) < 256 ^ 4 ->
    32 <= blockSize (c_fs c1) ->
    Filesystem._readInode (e_inodeNum entry) (c_fs c1) = Ok ino ->
    Z.land (i_mode ino) 16384 <> 0 ->
    0 < i_size ino <= blockSize (c_fs c1) ->
    Filesystem.lookupBlockId ino 0 (c_fs c1) = Ok bid ->
    0 < bid ->
    Filesystem._readBlock bid (c_fs c1) = Ok (zeros (blockSize (c_fs c1))) ->
    inodeRecordOutside (e_inodeNum entry) (bid * blockSize (c_fs c1))
                       (bid * blockSize (c_fs c1) + 22) (c_fs c1) ->
    exists c2,
      Ext2Directory.makeDirectory nm uid gid c
      = (Ok (mkFile KDirectory (Some entry) ino
               [mkEntry "." (e_inodeNum entry) 12 0 bid 0;
                mkEntry ".." (i_number (f_inode (c_self c1))) 12 0 bid 12]),
         c2)
      /\ Filesystem._readBlock bid (c_fs c2)
         = Ok ((dirRecord (e_inodeNum entry) 12 "." ++ [0; 0; 0]
                  ++ dirRecord (i_number (f_inode (c_self c1))) 12 "..")
                 ++ zeros (blockSize (c_fs c1) - 22)).
Proof.
  intros c c1 nm uid gid entry ino bid Hnew Hn Hp Hbs Hino Hmode Hsize Hblk
         Hbid Hzero Hout.
  destruct c1 as [self1 fs1]. cbn [c_fs c_self] in *.
  destruct (readBlock_zeros_inside fs1 bid ltac:(lia) Hzero)
    as (img & Hdev & Hpos & Hin & Hz).
  set (D := dirRecord (e_inodeNum entry) 12 "." ++ [0; 0; 0]
              ++ dirRecord (i_number (f_inode self1)) 12 "..").
  set (fs2 := set_device (Some (overwrite (Z.to_nat (bid * blockSize fs1)) D img)) fs1).
  assert (HreadBlk : Filesystem._readBlock bid fs2
                     = Ok (D ++ repeat 0 (Z.to_nat (blockSize fs1) - 22))).
  { unfold fs2. rewrite (readBlock_after_write fs1 img bid D Hdev Hpos Hin Hz).
    - reflexivity.
    - unfold D. rewrite defaultEntries_length. lia. }
  assert (Hzeros : zeros (blockSize fs1 - 22)
                   = repeat 0 (Z.to_nat (blockSize fs1) - 22)).
  { unfold zeros. f_equal. lia. }
  exists (mkCtx self1 fs2). cbn [c_fs]. split; [|rewrite Hzeros; exact HreadBlk].
  unfold Ext2Directory.makeDirectory.
  unfold bind at 1. unfold get at 1.
  unfold bind at 1. rewrite Hnew.
  unfold bind at 1. unfold get at 1.
  unfold bind at 1. unfold liftR at 1. cbn [c_self].
  rewrite defaultEntries_Ok by lia. fold D.
  unfold bind at 1. unfold onFS at 1. unfold liftR at 1. cbn [c_fs c_self].
  rewrite Hino.
  unfold bind at 1. unfold onFS at 1. unfold liftR at 1. cbn [c_fs c_self].
  rewrite Hblk.
  unfold bind at 1. unfold onFS at 1. cbn [c_fs c_self].
  rewrite (writeToBlock_Ok fs1 img bid D Hdev Hpos). fold fs2.
  unfold onFS, liftR. cbn [c_fs c_self].
  f_equal.
  (* the new directory is opened from the written state *)
  unfold Ext2Directory._openEntry.
  assert (Hino2 : Filesystem._readInode (e_inodeNum entry) fs2 = Ok ino).
  { unfold fs2.
    rewrite (readInode_after_write_outside (e_inodeNum entry) fs1 img _ D
               Hdev Hpos).
    - exact Hino.
    - unfold D. rewrite defaultEntries_length. lia.
    - unfold D. rewrite defaultEntries_length. exact Hout. }
  rewrite Hino2. cbn [bindR].
  destruct (Z.eqb_spec (Z.land (i_mode ino) 16384) 0) as [E|_]; [congruence|].
  cbn [negb].
  unfold _EntryList.__init__, numBlocks, py_div.
  change (blockSize fs2) with (blockSize fs1).
  destruct (Z.eqb_spec (blockSize fs1) 0); [lia|]. cbn [bindR].
  replace ((i_size ino + blockSize fs1 - 1) / blockSize fs1) with 1
    by (apply Z.div_unique with (r := i_size ino - 1); lia).
  change (range 1) with [0].
  cbn [_EntryList.scanBlocks].
  change (Filesystem.lookupBlockId ino 0 fs2)
    with (Filesystem.lookupBlockId ino 0 fs1).
  rewrite Hblk. cbn [bindR].
  destruct (Z.eqb_spec bid 0); [lia|].
  rewrite HreadBlk. cbn [bindR].
  change (blockSize fs2) with (blockSize fs1).
  unfold D. rewrite scanBlock_default_entries by lia.
  reflexivity.
Qed.

Lemma makeDirectory_default_entries_witness :
  exists f c2,
    Ext2Directory.makeDirectory "new" None None Image.ctx0 = (Ok f, c2)
    /\ f_kind f = KDirectory
    /\ inodeNum f = 15
    /\ f_entries f = [mkEntry "." 15 12 0 10 0; mkEntry ".." 2 12 0 10 12].
Proof.
  epose proof (makeDirectory_default_entries Image.ctx0 _ "new" None None _ _ _)
    as H.
  edestruct H as (c2 & Hm & Hb); clear H.
  - vm_compute. reflexivity.
  - vm_compute. split; reflexivity.
  - vm_compute. split; reflexivity.
  - vm_compute. discriminate.
  - vm_compute. reflexivity.
  - vm_compute. discriminate.
  - vm_compute. split; [reflexivity | discriminate].
  - vm_compute. reflexivity.
  - vm_compute. reflexivity.
  - vm_compute. reflexivity.
  - unfold inodeRecordOutside. eexists. eexists.
    split; [vm_compute; reflexivity|].
    split; [vm_compute; reflexivity|].
    split; [vm_compute; discriminate|].
    split; left; vm_compute; [discriminate | reflexivity].
  - eexists. eexists. split; [exact Hm|]. repeat split.
Defined.

(** C2, counterexample.  After [makeDirectory("new")] on the root of the
    image (blocks of 1024 bytes), the record of [..] in the block of the
    new directory has length 12, not 1024 - 12 = 1012. *)
Lemma makeDirectory_dotdot_record_length :
  exists f c' blk dotdot,
    Ext2Directory.makeDirectory "new" None None Image.ctx0 = (Ok f, c')
    /\ Filesystem.lookupBlockId (f_inode f) 0 (c_fs c') = Ok 10
    /\ Filesystem._readBlock 10 (c_fs c') = Ok blk
    /\ _Entry.__init__ 0 10 12 (skipn 12 blk) = Ok dotdot
    /\ e_name dotdot = ".."%string
    /\ e_inodeNum dotdot = 2
    /\ e_size dotdot = 12
    /\ blockSize (c_fs c') - 12 = 1012
    /\ e_size dotdot <> blockSize (c_fs c') - 12.
Proof.
  eexists. eexists. eexists. eexists.
  split; [vm_compute; reflexivity|].
  split; [vm_compute; reflexivity|].
  split; [vm_compute; reflexivity|].
  split; [vm_compute; reflexivity|].
  split; [reflexivity|].
  split; [reflexivity|].
  split; [reflexivity|].
  split; [reflexivity|].
  discriminate.
Qed.

(** * Further properties of the code *)

(** ** The device: positioned reads and writes *)

(** X1.  [_DeviceFromFile]: what [write] puts at a position is what
    [read] returns from that position for the same number of bytes, also
    when the position lies past the end of the image. *)
Theorem device_read_after_write :
  forall (d d' : Device) (position : Z) (byteString : list Z),
    _DeviceFromFile.write position (PyStr byteString) d = (Ok tt, d') ->
    _DeviceFromFile.read position (Z.of_nat (List.length byteString)) d'
    = Ok byteString.
Proof.
  intros d d' position bs H.
  unfold _DeviceFromFile.write in H.
  destruct d as [img|]; [|discriminate].
  destruct (position <? 0) eqn:Hp; [discriminate|].
  inversion H; subst; clear H.
  unfold _DeviceFromFile.read. rewrite Hp.
  destruct (Z.of_nat (List.length bs) <? 0) eqn:Hl.
  - apply Z.ltb_lt in Hl. lia.
  - rewrite Nat2Z.id. rewrite read_overwrite_at. reflexivity.
Qed.

Lemma device_read_after_write_witness :
  _DeviceFromFile.write 3 (PyStr [7; 8]) (Some [1; 2]) = (Ok tt, Some [1; 2; 0; 7; 8])
  /\ _DeviceFromFile.read 3 (Z.of_nat (List.length [7; 8])) (Some [1; 2; 0; 7; 8])
     = Ok [7; 8].
Proof.
  split; [reflexivity|].
  apply (device_read_after_write (Some [1; 2]) (Some [1; 2; 0; 7; 8]) 3 [7; 8]).
  reflexivity.
Defined.

(** X2.  [_DeviceFromFile]: a [write] inside the image leaves every byte
    outside the written range as it was: a [read] of a range that does not
    meet the written one returns what it returned before. *)
Theorem device_write_keeps_other_bytes :
  forall (img : list Z) (d' : Device) (position : Z) (byteString : list Z)
         (p n : Z),
    _DeviceFromFile.write position (PyStr byteString) (Some img) = (Ok tt, d') ->
    position + Z.of_nat (List.length byteString) <= Z.of_nat (List.length img) ->
    0 <= p -> 0 <= n ->
    p + n <= position \/ position + Z.of_nat (List.length byteString) <= p ->
    _DeviceFromFile.read p n d' = _DeviceFromFile.read p n (Some img).
Proof.
  intros img d' position bs p n H Hin Hp Hn Hdis.
  unfold _DeviceFromFile.write in H.
  destruct (position <? 0) eqn:Hpos; [discriminate|].
  apply Z.ltb_ge in Hpos.
  inversion H; subst; clear H.
  unfold _DeviceFromFile.read.
  destruct (p <? 0); [reflexivity|].
  destruct (n <? 0) eqn:Hn0; [apply Z.ltb_lt in Hn0; lia|].
  f_equal. apply read_overwrite_outside; lia.
Qed.

Lemma device_write_keeps_other_bytes_witness :
  _DeviceFromFile.read 0 2 (Some [1; 2; 7; 8; 5])
  = _DeviceFromFile.read 0 2 (Some [1; 2; 3; 4; 5]).
Proof.
  apply (device_write_keeps_other_bytes [1; 2; 3; 4; 5] (Some [1; 2; 7; 8; 5])
           2 [7; 8] 0 2).
  - reflexivity.
  - simpl; lia.
  - lia.
  - lia.
  - left; lia.
Defined.

(** ** [Ext2Disk]: blocks, inodes and bitmaps *)

(** X3.  [Ext2Disk._readBlock]: when it returns, the result has exactly
    [blockSize] bytes, they are the bytes of the image from
    [blockId * blockSize] on, and the block lies inside the image; a block
    that is cut short by the end of the image is never returned. *)
Theorem readBlock_returns_whole_block :
  forall (fs : FS) (blockId : Z) (bytes : list Z),
    0 <= blockSize fs ->
    Ext2Disk._readBlock blockId fs = Ok bytes ->
    Z.of_nat (List.length bytes) = blockSize fs
    /\ exists img,
         device fs = Some img
         /\ bytes = firstn (Z.to_nat (blockSize fs))
                           (skipn (Z.to_nat (blockId * blockSize fs)) img)
         /\ blockId * blockSize fs + blockSize fs <= Z.of_nat (List.length img).
Proof.
  intros fs bid bytes Hb H.
  unfold Ext2Disk._readBlock, Ext2Disk.file_read in H.
  destruct (device fs) as [img|] eqn:Hd; [|discriminate].
  destruct (bid * blockSize fs <? 0) eqn:Hp; [discriminate|].
  apply Z.ltb_ge in Hp.
  destruct (blockSize fs <? 0) eqn:Hn; [apply Z.ltb_lt in Hn; lia|].
  cbn [bindR] in H.
  destruct (Z.of_nat (List.length (firstn (Z.to_nat (blockSize fs))
             (skipn (Z.to_nat (bid * blockSize fs)) img))) <? blockSize fs) eqn:Hl;
    [discriminate|].
  apply Z.ltb_ge in Hl.
  inversion H; subst; clear H.
  pose proof (firstn_le_length (Z.to_nat (blockSize fs))
                (skipn (Z.to_nat (bid * blockSize fs)) img)) as Hle.
  assert (Hlen : List.length (firstn (Z.to_nat (blockSize fs))
             (skipn (Z.to_nat (bid * blockSize fs)) img))
                 = Z.to_nat (blockSize fs)) by lia.
  split; [lia|].
  exists img. split; [reflexivity|]. split; [reflexivity|].
  rewrite length_firstn, length_skipn in Hlen.
  destruct (Z.eq_dec (blockSize fs) 0) as [Hz|Hz].
  - rewrite Hz, Z.mul_0_r. lia.
  - lia.
Qed.

Lemma readBlock_returns_whole_block_witness :
  exists bytes,
    Ext2Disk._readBlock 7 Image.fs0 = Ok bytes
    /\ Z.of_nat (List.length bytes) = blockSize Image.fs0.
Proof.
  eexists. split; [vm_compute; reflexivity|].
  refine (proj1 (readBlock_returns_whole_block Image.fs0 7 _ _ _)).
  - vm_compute; discriminate.
  - vm_compute; reflexivity.
Defined.

(** An index outside [-len .. len - 1] raises [IndexError]. *)
Lemma py_index_out_of_range :
  forall (A : Type) (l : list A) (i : Z),
    Z.of_nat (List.length l) <= i \/ i < - Z.of_nat (List.length l) ->
    py_index l i = Raise IndexError.
Proof.
  intros A l i H. unfold py_index.
  destruct (i <? 0) eqn:Hi.
  - apply Z.ltb_lt in Hi.
    destruct ((0 <=? i + Z.of_nat (List.length l))
              && (i + Z.of_nat (List.length l) <? Z.of_nat (List.length l))) eqn:Hc.
    + apply andb_prop in Hc. destruct Hc as [H1 H2].
      apply Z.leb_le in H1. apply Z.ltb_lt in H2. lia.
    + reflexivity.
  - apply Z.ltb_ge in Hi.
    destruct ((0 <=? i) && (i <? Z.of_nat (List.length l))) eqn:Hc.
    + apply andb_prop in Hc. destruct Hc as [H1 H2].
      apply Z.leb_le in H1. apply Z.ltb_lt in H2. lia.
    + reflexivity.
Qed.

(** X4.  [Ext2Disk._readInode]: an inode number above the number of
    inodes that the group descriptors cover, or at most its opposite,
    raises [IndexError] at the lookup of the group descriptor; nothing is
    read from the image. *)
Theorem readInode_out_of_range :
  forall (fs : FS) (inodeNum : Z),
    0 < sb_numInodesPerGroup (superblock fs) ->
    inodeCapacity fs < inodeNum \/ inodeNum <= - inodeCapacity fs ->
    Ext2Disk._readInode inodeNum fs = Raise IndexError.
Proof.
  intros fs n Hipg Hn. unfold inodeCapacity in Hn.
  unfold Ext2Disk._readInode, py_div, py_mod.
  destruct (Z.eqb_spec (sb_numInodesPerGroup (superblock fs)) 0) as [E|_]; [lia|].
  cbn [bindR].
  rewrite py_index_out_of_range; [reflexivity|].
  set (ipg := sb_numInodesPerGroup (superblock fs)) in *.
  set (len := Z.of_nat (List.length (bgdt fs))) in *.
  destruct Hn as [Hn|Hn].
  - left. apply Z.div_le_lower_bound; lia.
  - right. apply Z.div_lt_upper_bound; lia.
Qed.

Lemma readInode_out_of_range_witness :
  Ext2Disk._readInode 17 Image.fs0 = Raise IndexError.
Proof.
  apply (readInode_out_of_range Image.fs0 17).
  - vm_compute; reflexivity.
  - left; vm_compute; reflexivity.
Defined.

(** A negative index counts from the end of the list. *)
Lemma py_index_negative :
  forall (A : Type) (l : list A) (i : Z),
    i < 0 -> py_index l i = py_index l (i + Z.of_nat (List.length l))
             \/ py_index l i = Raise IndexError /\ i + Z.of_nat (List.length l) < 0.
Proof.
  intros A l i Hi. unfold py_index.
  destruct (Z.ltb_spec i 0) as [_|]; [|lia].
  destruct (Z.ltb_spec (i + Z.of_nat (List.length l)) 0) as [Hn|Hn].
  - right. split; [|lia].
    destruct (Z.leb_spec 0 (i + Z.of_nat (List.length l))); [lia|]. reflexivity.
  - left. reflexivity.
Qed.

(** X5.  [Ext2Disk._readInode] does not refuse the inode number 0 or a
    negative one: with floor division and Python's negative list indices
    the number [n] in [-N + 1 .. 0], for [N] inodes covered by the group
    descriptors, reads the bitmap bit and the record of inode [n + N].
    Number 0, which marks a deleted directory entry, reads the last inode
    of the last group. *)
Theorem readInode_wraps_nonpositive :
  forall (fs : FS) (inodeNum : Z),
    0 < sb_numInodesPerGroup (superblock fs) ->
    - inodeCapacity fs < inodeNum <= 0 ->
    Ext2Disk._readInode inodeNum fs
    = bindR (Ext2Disk._readInode (inodeNum + inodeCapacity fs) fs)
            (fun ino => Ok (with_number inodeNum ino)).
Proof.
  intros fs n Hipg Hn. unfold inodeCapacity in *.
  unfold Ext2Disk._readInode, py_div, py_mod.
  destruct (Z.eqb_spec (sb_numInodesPerGroup (superblock fs)) 0) as [E|_]; [lia|].
  cbn [bindR].
  set (ipg := sb_numInodesPerGroup (superblock fs)) in *.
  set (len := Z.of_nat (List.length (bgdt fs))) in *.
  replace (n + ipg * len - 1) with (n - 1 + len * ipg) by lia.
  rewrite Z.div_add, Z.mod_add by lia.
  assert (Hq : (n - 1) / ipg < 0) by (apply Z.div_lt_upper_bound; lia).
  assert (Hq2 : 0 <= (n - 1) / ipg + len).
  { assert (- len <= (n - 1) / ipg); [|lia].
    apply Z.div_le_lower_bound; lia. }
  destruct (py_index_negative BGDTEntry (bgdt fs) ((n - 1) / ipg) Hq) as [E|[_ E]];
    [|fold len in E; lia].
  fold len in E. rewrite E.
  destruct (py_index (bgdt fs) ((n - 1) / ipg + len)) as [e| |]; cbn [bindR];
    [|reflexivity|reflexivity].
  destruct (Ext2Disk.file_read _ 1 fs) as [bb| |]; cbn [bindR];
    [|reflexivity|reflexivity].
  destruct bb as [|b [|b2 bb]]; cbn [bindR]; [reflexivity| |reflexivity].
  destruct (Ext2Disk.file_read _ (sb_inodeSize (superblock fs)) fs) as [ib| |];
    cbn [bindR]; [|reflexivity|reflexivity].
  destruct (Z.of_nat (List.length ib) <? sb_inodeSize (superblock fs));
    [reflexivity|].
  destruct (unpack_check _ ib 0) as [u| |]; cbn [bindR]; [|reflexivity|reflexivity].
  match goal with
  | |- bindR ?x _ = _ => destruct x as [u'| |]; cbn [bindR]; reflexivity
  end.
Qed.

Lemma readInode_wraps_nonpositive_witness :
  Ext2Disk._readInode 0 Image.fs0
  = bindR (Ext2Disk._readInode (0 + inodeCapacity Image.fs0) Image.fs0)
          (fun ino => Ok (with_number 0 ino)).
Proof.
  apply (readInode_wraps_nonpositive Image.fs0 0).
  - vm_compute; reflexivity.
  - vm_compute. split; [reflexivity|discriminate].
Defined.

(** The results of a loop that returned, one per element. *)
Lemma mapR_nth :
  forall (A B : Type) (f : A -> Result B) (l : list A) (ys : list B),
    mapR f l = Ok ys ->
    List.length ys = List.length l
    /\ forall k y, nth_error ys k = Some y ->
         exists x, nth_error l k = Some x /\ f x = Ok y.
Proof.
  intros A B f l. induction l as [|a l IH]; intros ys H.
  - inversion H; subst. split; [reflexivity|].
    intros [|k] y Hy; discriminate.
  - cbn [mapR] in H.
    destruct (f a) as [y0| |] eqn:Ea; cbn [bindR] in H; try discriminate.
    destruct (mapR f l) as [ys0| |] eqn:El; cbn [bindR] in H; try discriminate.
    inversion H; subst. destruct (IH ys0 eq_refl) as [Hlen Hnth].
    split; [simpl; lia|].
    intros [|k] y Hy.
    + inversion Hy; subst. exists a. split; [reflexivity|assumption].
    + apply Hnth. exact Hy.
Qed.

(** What one turn of the first loop of [__getUsedInodes] and
    [__getUsedBlocks] reads. *)
Lemma readBitmaps_nth :
  forall location bitmapSize what fs bitmaps,
    Ext2Disk.readBitmaps location bitmapSize what fs = Ok bitmaps ->
    List.length bitmaps = List.length (bgdt fs)
    /\ forall g bitmap, nth_error bitmaps g = Some bitmap ->
         exists e img,
           nth_error (bgdt fs) g = Some e
           /\ device fs = Some img
           /\ 0 <= location e * blockSize fs
           /\ 0 <= bitmapSize
           /\ List.length bitmap = Z.to_nat bitmapSize
           /\ bitmap = firstn (Z.to_nat bitmapSize)
                              (skipn (Z.to_nat (location e * blockSize fs)) img).
Proof.
  intros location bitmapSize what fs bitmaps H.
  unfold Ext2Disk.readBitmaps in H. apply mapR_nth in H.
  destruct H as [Hlen Hnth]. split; [exact Hlen|].
  intros g bitmap Hg. destruct (Hnth g bitmap Hg) as (e & He & Hf).
  unfold Ext2Disk.file_read in Hf.
  destruct (device fs) as [img|]; [|discriminate].
  destruct (Z.ltb_spec (location e * blockSize fs) 0) as [|Hpos]; [discriminate|].
  destruct (Z.ltb_spec bitmapSize 0) as [Hneg|Hsz].
  - cbn [bindR] in Hf.
    destruct (Z.of_nat (List.length (skipn (Z.to_nat (location e * blockSize fs)) img))
              <? bitmapSize); discriminate.
  - cbn [bindR] in Hf.
    destruct (Z.ltb_spec (Z.of_nat (List.length (firstn (Z.to_nat bitmapSize)
                (skipn (Z.to_nat (location e * blockSize fs)) img)))) bitmapSize)
      as [|Hl]; [discriminate|].
    inversion Hf; subst. exists e, img.
    repeat split; try assumption.
    pose proof (firstn_le_length (Z.to_nat bitmapSize)
                  (skipn (Z.to_nat (location e * blockSize fs)) img)). lia.
Qed.

Lemma nth_error_firstn_skipn :
  forall (A : Type) (l : list A) (n p k : nat),
    (k < n)%nat ->
    nth_error (firstn n (skipn p l)) k = nth_error l (p + k).
Proof.
  intros A l n p k Hk.
  rewrite nth_error_firstn.
  destruct (Nat.ltb_spec k n); [|lia].
  apply nth_error_skipn.
Qed.

Lemma py_index_Ok_nonneg :
  forall (A : Type) (l : list A) (i : Z) (a : A),
    0 <= i -> py_index l i = Ok a ->
    nth_error l (Z.to_nat i) = Some a /\ i < Z.of_nat (List.length l).
Proof.
  intros A l i a Hi H. unfold py_index in H.
  destruct (Z.ltb_spec i 0); [lia|].
  destruct (Z.leb_spec 0 i); [|lia].
  destruct (Z.ltb_spec i (Z.of_nat (List.length l))); cbn [andb] in H;
    [|discriminate].
  destruct (nth_error l (Z.to_nat i)); [|discriminate].
  inversion H; subst. split; [reflexivity|assumption].
Qed.

(** What [_readInode] reads for the [used] flag. *)
Lemma readInode_used :
  forall fs n ino,
    Ext2Disk._readInode n fs = Ok ino ->
    let ipg := sb_numInodesPerGroup (superblock fs) in
    ipg <> 0
    /\ exists e img byte,
         py_index (bgdt fs) ((n - 1) / ipg) = Ok e
         /\ device fs = Some img
         /\ 0 <= bg_inodeBitmapLocation e * blockSize fs + ((n - 1) mod ipg) / 8
         /\ nth_error img (Z.to_nat (bg_inodeBitmapLocation e * blockSize fs
                                     + ((n - 1) mod ipg) / 8)) = Some byte
         /\ i_used ino = Z.testbit byte (((n - 1) mod ipg) mod 8).
Proof.
  intros fs n ino H ipg. subst ipg.
  unfold Ext2Disk._readInode, py_div, py_mod in H.
  destruct (Z.eqb_spec (sb_numInodesPerGroup (superblock fs)) 0) as [E|Hne];
    [discriminate|].
  split; [exact Hne|]. cbn [bindR] in H.
  set (ipg := sb_numInodesPerGroup (superblock fs)) in *.
  destruct (py_index (bgdt fs) ((n - 1) / ipg)) as [e| |] eqn:Ee; cbn [bindR] in H;
    try discriminate.
  fold (blockSize fs) in H.
  destruct (Ext2Disk.file_read
              (bg_inodeBitmapLocation e * blockSize fs + (n - 1) mod ipg / 8) 1 fs)
    as [bb| |] eqn:Eb; cbn [bindR] in H; try discriminate.
  destruct bb as [|byte [|b2 bb]]; cbn [bindR] in H; try discriminate.
  destruct (Ext2Disk.file_read _ (sb_inodeSize (superblock fs)) fs) as [ib| |];
    cbn [bindR] in H; try discriminate.
  destruct (Z.of_nat (List.length ib) <? sb_inodeSize (superblock fs));
    [discriminate|].
  destruct (unpack_check _ ib 0) as [u| |]; cbn [bindR] in H; try discriminate.
  match type of H with
  | bindR ?x _ = _ => destruct x as [u'| |]; cbn [bindR] in H; try discriminate
  end.
  inversion H; subst; clear H. cbn [i_used].
  unfold Ext2Disk.file_read in Eb.
  destruct (device fs) as [img|]; [|discriminate].
  destruct (Z.ltb_spec (bg_inodeBitmapLocation e * blockSize fs
                        + (n - 1) mod ipg / 8) 0) as [|Hpos]; [discriminate|].
  cbn in Eb. inversion Eb as [Hb]; clear Eb.
  exists e, img, byte. repeat split; try assumption; try reflexivity.
  - destruct (skipn _ img) as [|x t] eqn:Es; [discriminate|].
    cbn in Hb. inversion Hb; subst.
    rewrite <- (Nat.add_0_r (Z.to_nat _)), <- nth_error_skipn, Es. reflexivity.
  - rewrite Z.land_comm. rewrite land_bit_testbit.
    + apply negb_involutive.
    + apply Z.mod_pos_bound. lia.
Qed.

(** X6.  [Ext2Disk.__getUsedInodes] and [Ext2Disk._readInode] agree.  With
    a positive number of inodes per group that is a multiple of 8, an
    inode number [n >= 1] that [_readInode] can read is in the list of
    [__getUsedInodes] exactly when [_readInode] reports it as [used] and
    it is not below [firstInode]. *)
Theorem getUsedInodes_agrees_with_readInode :
  forall (fs : FS) (used : list Z) (inodeNum : Z) (ino : Inode),
    0 < sb_numInodesPerGroup (superblock fs) ->
    sb_numInodesPerGroup (superblock fs) mod 8 = 0 ->
    Ext2Disk.__getUsedInodes fs = Ok used ->
    Ext2Disk._readInode inodeNum fs = Ok ino ->
    1 <= inodeNum ->
    (In inodeNum used
     <-> i_used ino = true /\ sb_firstInode (superblock fs) <= inodeNum).
Proof.
  intros fs used n ino Hipg H8 Hu Hr Hn.
  apply readInode_used in Hr. cbv zeta in Hr.
  destruct Hr as (_ & e & img & byte & He & Hd & Hpos & Hbyte & Hused).
  unfold Ext2Disk.__getUsedInodes in Hu.
  destruct (Ext2Disk.readBitmaps _ _ _ fs) as [bitmaps| |] eqn:Hb;
    cbn [bindR] in Hu; try discriminate.
  inversion Hu as [Hused']; clear Hu Hused'.
  apply readBitmaps_nth in Hb. destruct Hb as [Hlen Hnth].
  set (ipg := sb_numInodesPerGroup (superblock fs)) in *.
  assert (Hipg8 : ipg = 8 * (ipg / 8)).
  { pose proof (Z.div_mod ipg 8). lia. }
  assert (Hg0 : 0 <= (n - 1) / ipg) by (apply Z.div_pos; lia).
  pose proof (Z.mod_pos_bound (n - 1) ipg Hipg) as Hidx.
  apply py_index_Ok_nonneg in He; [|exact Hg0]. destruct He as [He Hglt].
  rewrite in_flat_map. split.
  - intros ([g bitmap] & Hg & Hin). apply In_enumerate in Hg.
    destruct Hg as [Hg Hgb].
    rewrite in_flat_map in Hin. destruct Hin as ([b byte'] & Hbi & Hin).
    apply In_enumerate in Hbi. destruct Hbi as [Hb0 Hbb].
    destruct (byte' =? 0); [contradiction|].
    rewrite in_flat_map in Hin. destruct Hin as (inum & Hset & Hfi).
    apply In_setBits in Hset. destruct Hset as (i & Hi & Ht & ->).
    destruct (Z.leb_spec (sb_firstInode (superblock fs)) (g * ipg + b * 8 + i + 1))
      as [Hfirst|]; [|contradiction].
    destruct Hfi as [Hfi|[]].
    destruct (Hnth _ _ Hgb) as (e' & img' & He' & Hd' & Hloc & Hsz & Hbl & Hbm).
    assert (Hblt : b < ipg / 8).
    { assert (Z.to_nat b < List.length bitmap)%nat
        by (apply nth_error_Some; rewrite Hbb; discriminate). lia. }
    assert (Hq : (n - 1) / ipg = g).
    { symmetry. apply (Z.div_unique _ _ _ (b * 8 + i)); lia. }
    assert (Hm : (n - 1) mod ipg = b * 8 + i).
    { symmetry. apply (Z.mod_unique _ _ g); lia. }
    assert (Hb8 : (b * 8 + i) / 8 = b).
    { symmetry. apply (Z.div_unique _ _ _ i); lia. }
    assert (Hi8 : (b * 8 + i) mod 8 = i).
    { symmetry. apply (Z.mod_unique _ _ b); lia. }
    rewrite Hq in *. rewrite Hm in *. rewrite Hb8 in *. rewrite Hi8 in *.
    rewrite He in He'. inversion He'; subst e'.
    rewrite Hd in Hd'. inversion Hd'; subst img'.
    split; [|lia].
    rewrite Hused. rewrite <- Ht. f_equal.
    rewrite Hbm in Hbb. rewrite nth_error_firstn_skipn in Hbb by lia.
    replace (Z.to_nat (bg_inodeBitmapLocation e * blockSize fs + b))
      with (Z.to_nat (bg_inodeBitmapLocation e * blockSize fs) + Z.to_nat b)%nat
      in Hbyte by lia.
    rewrite Hbyte in Hbb. inversion Hbb. reflexivity.
  - intros [Hu Hfirst].
    set (g := (n - 1) / ipg) in *.
    set (idx := (n - 1) mod ipg) in *.
    assert (Hdm : n - 1 = ipg * g + idx) by (apply Z.div_mod; lia).
    assert (Hgn : (Z.to_nat g < List.length bitmaps)%nat) by lia.
    destruct (nth_error bitmaps (Z.to_nat g)) as [bitmap|] eqn:Hgb;
      [|apply nth_error_None in Hgb; lia].
    destruct (Hnth _ _ Hgb) as (e' & img' & He' & Hd' & Hloc & Hsz & Hbl & Hbm).
    rewrite He in He'. inversion He'; subst e'.
    rewrite Hd in Hd'. inversion Hd'; subst img'.
    pose proof (Z.div_mod idx 8) as Hdm8.
    pose proof (Z.mod_pos_bound idx 8) as Hi8.
    assert (Hb0 : 0 <= idx / 8) by (apply Z.div_pos; lia).
    assert (Hblt : idx / 8 < ipg / 8) by (apply Z.div_lt_upper_bound; lia).
    exists (g, bitmap). split; [apply In_enumerate; auto|].
    rewrite in_flat_map. exists (idx / 8, byte). split.
    + apply In_enumerate. split; [exact Hb0|].
      rewrite Hbm. rewrite nth_error_firstn_skipn by lia.
      rewrite <- Hbyte. f_equal. lia.
    + rewrite Hused in Hu.
      destruct (Z.eqb_spec byte 0) as [->|_].
      * rewrite Z.bits_0 in Hu. discriminate.
      * rewrite in_flat_map. exists n. split.
        -- apply In_setBits. exists (idx mod 8). split; [lia|].
           split; [exact Hu|]. lia.
        -- destruct (Z.leb_spec (sb_firstInode (superblock fs)) n); [|lia].
           left. reflexivity.
Qed.

Lemma getUsedInodes_agrees_with_readInode_witness :
  exists used ino,
    Ext2Disk.__getUsedInodes Image.fs0 = Ok used
    /\ Ext2Disk._readInode 12 Image.fs0 = Ok ino
    /\ (In 12 used
        <-> i_used ino = true /\ sb_firstInode (superblock Image.fs0) <= 12).
Proof.
  eexists. eexists.
  split; [vm_compute; reflexivity|].
  split; [vm_compute; reflexivity|].
  apply (getUsedInodes_agrees_with_readInode Image.fs0).
  - vm_compute; reflexivity.
  - vm_compute; reflexivity.
  - vm_compute; reflexivity.
  - vm_compute; reflexivity.
  - lia.
Defined.

(** X7.  [Ext2Disk.__getUsedInodes]: every number of the list is at least
    [firstInode] (the reserved inodes are left out) and lies between 1 and
    the number of inodes that the group descriptors cover. *)
Theorem getUsedInodes_in_range :
  forall (fs : FS) (used : list Z),
    Ext2Disk.__getUsedInodes fs = Ok used ->
    forall inum, In inum used ->
      sb_firstInode (superblock fs) <= inum /\ 1 <= inum <= inodeCapacity fs.
Proof.
  intros fs used Hu n Hin. unfold inodeCapacity.
  unfold Ext2Disk.__getUsedInodes in Hu.
  destruct (Ext2Disk.readBitmaps _ _ _ fs) as [bitmaps| |] eqn:Hb;
    cbn [bindR] in Hu; try discriminate.
  inversion Hu as [Hused]; clear Hu. subst used.
  apply readBitmaps_nth in Hb. destruct Hb as [Hlen Hnth].
  set (ipg := sb_numInodesPerGroup (superblock fs)) in *.
  rewrite in_flat_map in Hin. destruct Hin as ([g bitmap] & Hg & Hin).
  apply In_enumerate in Hg. destruct Hg as [Hg Hgb].
  rewrite in_flat_map in Hin. destruct Hin as ([b byte] & Hbi & Hin).
  apply In_enumerate in Hbi. destruct Hbi as [Hb0 Hbb].
  destruct (byte =? 0); [contradiction|].
  rewrite in_flat_map in Hin. destruct Hin as (inum & Hset & Hfi).
  apply In_setBits in Hset. destruct Hset as (i & Hi & Ht & ->).
  destruct (Z.leb_spec (sb_firstInode (superblock fs)) (g * ipg + b * 8 + i + 1))
    as [Hfirst|]; [|contradiction].
  destruct Hfi as [<-|[]].
  destruct (Hnth _ _ Hgb) as (e' & img' & He' & Hd' & Hloc & Hsz & Hbl & Hbm).
  assert (Hblt : b < ipg / 8).
  { assert (Z.to_nat b < List.length bitmap)%nat
      by (apply nth_error_Some; rewrite Hbb; discriminate). lia. }
  assert (Hglt : g < Z.of_nat (List.length (bgdt fs))).
  { assert (Z.to_nat g < List.length bitmaps)%nat
      by (apply nth_error_Some; rewrite Hgb; discriminate). lia. }
  assert (Hipg : 0 < ipg).
  { destruct (Z_lt_le_dec 0 ipg) as [Hlt|Hle]; [exact Hlt|].
    assert (ipg / 8 <= 0) by (apply Z.div_le_upper_bound; lia). lia. }
  pose proof (Z.mul_div_le ipg 8).
  split; [exact Hfirst|]. split; [nia|]. nia.
Qed.

Lemma getUsedInodes_in_range_witness :
  Ext2Disk.__getUsedInodes Image.fs0 = Ok [11; 12; 13; 14]
  /\ sb_firstInode (superblock Image.fs0) <= 14
  /\ 1 <= 14 <= inodeCapacity Image.fs0.
Proof.
  assert (H : Ext2Disk.__getUsedInodes Image.fs0 = Ok [11; 12; 13; 14])
    by (vm_compute; reflexivity).
  split; [exact H|].
  apply (getUsedInodes_in_range Image.fs0 [11; 12; 13; 14] H 14).
  cbn. auto.
Defined.

(** An outcome that no turn of a loop gives is not the outcome of the
    loop. *)
Lemma forM__never :
  forall (S A : Type) (P : Result unit -> Prop) (body : A -> M S unit)
         (l : list A) (s : S),
    P (Ok tt) ->
    (forall x s0, P (fst (body x s0))) ->
    P (fst (forM_ l body s)).
Proof.
  intros S A P body l. induction l as [|x l IH]; intros s HP Hb.
  - exact HP.
  - cbn [forM_]. unfold bind. pose proof (Hb x s) as Hx.
    destruct (body x s) as [[[]| |] s']; cbn [fst] in *.
    + apply IH; assumption.
    + exact Hx.
    + exact Hx.
Qed.

Lemma firstFreeGroup_None :
  forall entries bsize,
    Ext2Disk.firstFreeGroup entries bsize = None
    <-> forall p, In p entries -> bg_numFreeInodes (snd p) <= 0.
Proof.
  intros entries bsize. induction entries as [|[g e] rest IH].
  - simpl. split; [intros _ p []|reflexivity].
  - cbn [Ext2Disk.firstFreeGroup].
    destruct (Z.ltb_spec 0 (bg_numFreeInodes e)) as [Hpos|Hle].
    + split; [discriminate|]. intros H.
      specialize (H (g, e) (or_introl eq_refl)). cbn in H. lia.
    + rewrite IH. split.
      * intros H p [<-|Hp]; [exact Hle|apply H; exact Hp].
      * intros H p Hp. apply H. right. exact Hp.
Qed.

(** X8.  [Ext2Disk._allocateInode(isForDirectory)] raises
    [Exception("No free inodes.")] exactly when no group descriptor has a
    positive count of free inodes; the filesystem is then as it was. *)
Theorem allocateInode_disk_no_free_inodes :
  forall (isForDirectory : bool) (fs : FS),
    (forall e, In e (bgdt fs) -> bg_numFreeInodes e <= 0)
    <-> Ext2Disk._allocateInode isForDirectory fs
        = (Raise (PyException "No free inodes."), fs).
Proof.
  intros b fs. split.
  - intros H. unfold Ext2Disk._allocateInode, bind, get.
    replace (Ext2Disk.firstFreeGroup (enumerate (bgdt fs))
               (sb_blockSize (superblock fs))) with (@None (Z * Z)).
    + reflexivity.
    + symmetry. apply firstFreeGroup_None. intros [g e] Hp. cbn [snd].
      apply In_enumerate in Hp. destruct Hp as [_ Hp].
      apply H. eapply nth_error_In. exact Hp.
  - intros H e He.
    destruct (Ext2Disk.firstFreeGroup (enumerate (bgdt fs))
                (sb_blockSize (superblock fs))) as [[g pos]|] eqn:Ef.
    + exfalso. apply (f_equal fst) in H. cbn [fst] in H.
      unfold Ext2Disk._allocateInode, bind, get in H. rewrite Ef in H.
      unfold liftR in H.
      destruct (Ext2Disk.file_read pos _ fs) as [bytes|e0|] eqn:Er;
        [|unfold Ext2Disk.file_read in Er; cbn [fst] in H; inversion H; subst e0;
          destruct (device fs); [|discriminate];
          destruct (pos <? 0); [discriminate|];
          destruct (_ <? 0); discriminate
         |cbn [fst] in H; discriminate].
      destruct (Z.of_nat (List.length bytes) <? _);
        [cbn [fst] in H; discriminate|].
      destruct (_ <? 0); [cbn [fst] in H; discriminate|].
      revert H. apply forM__never; [discriminate|].
      intros [bi byte] s0. destruct (byte =? 255); [discriminate|].
      apply forM__never; [discriminate|].
      intros i s1. destruct (Z.land _ byte =? 0); [|discriminate].
      unfold Ext2Disk.file_write.
      destruct (device s1); [|discriminate].
      destruct (_ <? 0); discriminate.
    + pose proof (proj1 (firstFreeGroup_None _ _) Ef) as Hall.
      apply In_nth_error in He. destruct He as [k Hk].
      apply (Hall (Z.of_nat k, e)). apply In_enumerate.
      split; [lia|]. rewrite Nat2Z.id. exact Hk.
Qed.

(** ** [Ext2Disk.getFile]: the edges of a path *)

(** [_readInode] numbers the inode object with the number it was asked
    for. *)
Lemma readInode_number :
  forall fs n ino, Ext2Disk._readInode n fs = Ok ino -> i_number ino = n.
Proof.
  intros fs n ino H.
  unfold Ext2Disk._readInode in H.
  destruct (py_div _ _) as [g| |]; cbn [bindR] in H; try discriminate.
  destruct (py_mod _ _) as [idx| |]; cbn [bindR] in H; try discriminate.
  destruct (py_index _ _) as [e| |]; cbn [bindR] in H; try discriminate.
  destruct (Ext2Disk.file_read _ 1 fs) as [bb| |]; cbn [bindR] in H;
    try discriminate.
  destruct bb as [|byte [|b2 bb]]; cbn [bindR] in H; try discriminate.
  destruct (Ext2Disk.file_read _ (sb_inodeSize (superblock fs)) fs) as [ib| |];
    cbn [bindR] in H; try discriminate.
  destruct (Z.of_nat (List.length ib) <? sb_inodeSize (superblock fs));
    [discriminate|].
  destruct (unpack_check _ ib 0) as [u| |]; cbn [bindR] in H; try discriminate.
  match type of H with
  | bindR ?x _ = _ => destruct x as [u'| |]; cbn [bindR] in H; try discriminate
  end.
  inversion H; subst. reflexivity.
Qed.

(** The file object that [_openEntry] returns keeps the entry it was
    opened from and holds the inode that the entry names (inode 2 when
    there is no entry). *)
Lemma openEntry_fields :
  forall dirEntry fs f,
    Ext2Directory._openEntry dirEntry fs = Ok f ->
    f_dirEntry f = dirEntry
    /\ i_number (f_inode f)
       = match dirEntry with Some e => e_inodeNum e | None => 2 end.
Proof.
  intros dirEntry fs f H. unfold Ext2Directory._openEntry in H.
  destruct (match dirEntry with
            | Some e => Filesystem._readInode (e_inodeNum e) fs
            | None => Filesystem._readInode 2 fs
            end) as [ino| |] eqn:Ei; cbn [bindR] in H; try discriminate.
  assert (Hn : i_number ino
               = match dirEntry with Some e => e_inodeNum e | None => 2 end).
  { destruct dirEntry; apply readInode_number in Ei; exact Ei. }
  destruct (negb (Z.land (i_mode ino) 16384 =? 0)).
  - destruct (Z.land (i_mode ino) 16384 =? 0); [discriminate|].
    destruct (_EntryList.__init__ ino fs); cbn [bindR] in H; try discriminate.
    inversion H; subst. split; [reflexivity|exact Hn].
  - destruct (negb (Z.land (i_mode ino) 32768 =? 0));
      [inversion H; subst; split; [reflexivity|exact Hn]|].
    destruct (negb (Z.land (i_mode ino) 40960 =? 0));
      inversion H; subst; (split; [reflexivity|exact Hn]).
Qed.

Lemma splitSlashes_slashes :
  forall s c, is_slash c = true -> all_slash s = true ->
    splitSlashes (String c s) = [EmptyString; EmptyString].
Proof.
  induction s as [|c' s' IH]; intros c Hc Hs.
  - cbn [splitSlashes starts_with_slash]. rewrite Hc. reflexivity.
  - cbn [all_slash] in Hs. apply andb_prop in Hs. destruct Hs as [Hc' Hs'].
    change (splitSlashes (String c (String c' s')))
      with (if is_slash c
            then if starts_with_slash (String c' s')
                 then splitSlashes (String c' s')
                 else EmptyString :: splitSlashes (String c' s')
            else cons_head c (splitSlashes (String c' s'))).
    rewrite Hc. cbn [starts_with_slash]. rewrite Hc'.
    apply IH; assumption.
Qed.

Lemma dropTrailingEmpty_all_slash :
  forall s, all_slash s = true ->
    hd_error (splitSlashes s) = Some EmptyString
    /\ dropTrailingEmpty (splitSlashes s) = [EmptyString].
Proof.
  intros [|c s] H.
  - split; reflexivity.
  - cbn [all_slash] in H. apply andb_prop in H. destruct H as [Hc Hs].
    rewrite (splitSlashes_slashes s c Hc Hs). split; reflexivity.
Qed.

(** X9.  [Ext2Disk.getFile] on a mounted filesystem: the empty path and
    every path made of slashes only (["/"], ["//"], ...) give the root
    directory (or the exception that opening it raises). *)
Theorem getFile_slashes_is_root :
  forall (p : string) (fs : FS),
    _DeviceFromFile.isMounted (device fs) = true ->
    all_slash p = true ->
    Ext2Disk_getFile p fs = Ext2Directory._openEntry None fs.
Proof.
  intros p fs Hm Hp. unfold Ext2Disk_getFile. rewrite Hm. cbn [negb].
  destruct (dropTrailingEmpty_all_slash p Hp) as [Hh Hd].
  destruct (splitSlashes p) as [|first rest] eqn:Es; [discriminate|].
  cbn [hd_error] in Hh. inversion Hh; subst first.
  cbn [String.eqb negb]. rewrite Hd. cbn [last tl].
  destruct (Ext2Directory._openEntry None fs) as [root| |] eqn:Er;
    cbn [bindR getFile_walk]; [|reflexivity|reflexivity].
  apply openEntry_fields in Er. destruct Er as [Hde _].
  unfold name. rewrite Hde. reflexivity.
Qed.

Lemma getFile_slashes_is_root_witness :
  Ext2Disk_getFile "//" Image.fs0 = Ext2Directory._openEntry None Image.fs0.
Proof.
  apply (getFile_slashes_is_root "//" Image.fs0); reflexivity.
Defined.

Lemma splitSlashes_head_relative :
  forall c s, is_slash c = false ->
    exists h t, splitSlashes (String c s) = String c h :: t.
Proof.
  intros c s Hc. cbn [splitSlashes]. rewrite Hc.
  destruct (splitSlashes s) as [|h t]; cbn [cons_head]; eauto.
Qed.

(** X10.  [Ext2Disk.getFile] on a mounted filesystem raises
    [FileNotFoundError] for every path that is not empty and does not
    start with a slash, whatever the image holds. *)
Theorem getFile_rejects_relative_path :
  forall (p : string) (fs : FS),
    _DeviceFromFile.isMounted (device fs) = true ->
    p <> EmptyString ->
    starts_with_slash p = false ->
    Ext2Disk_getFile p fs = Raise FileNotFoundError.
Proof.
  intros p fs Hm Hne Hs. unfold Ext2Disk_getFile. rewrite Hm. cbn [negb].
  destruct p as [|c s]; [contradiction|]. cbn [starts_with_slash] in Hs.
  destruct (splitSlashes_head_relative c s Hs) as (h & t & ->).
  reflexivity.
Qed.

Lemma getFile_rejects_relative_path_witness :
  Ext2Disk_getFile "lost+found" Image.fs0 = Raise FileNotFoundError.
Proof.
  apply (getFile_rejects_relative_path "lost+found" Image.fs0).
  - reflexivity.
  - discriminate.
  - reflexivity.
Defined.

(** ** [_Entry] and [_EntryList]: records and the scan *)

(** X11.  The record that [append] packs is the record that
    [_Entry.__init__] parses.  For an inode number of 32 bits, a record
    length of 16 bits and a name of at most 255 bytes, [pack] succeeds,
    the record has [8 + len(name)] bytes, and parsing it, whatever bytes
    follow it in the block, gives the entry with that name, inode number
    and record length. *)
Theorem entry_pack_parse_round_trip :
  forall (inodeNum entrySize : Z) (nm : string)
         (blockIndex blockId blockOffset : Z) (rest : list Z),
    0 <= inodeNum < 2 ^ 32 ->
    0 <= entrySize < 2 ^ 16 ->
    strlen nm <= 255 ->
    exists byteString,
      _EntryList.packEntry inodeNum entrySize nm = Ok byteString
      /\ Z.of_nat (List.length byteString) = 8 + strlen nm
      /\ _Entry.__init__ blockIndex blockId blockOffset (byteString ++ rest)
         = Ok (mkEntry nm inodeNum entrySize blockIndex blockId blockOffset).
Proof.
  intros inodeNum entrySize nm bi bid bo rest Hi Hs Hn.
  assert (Hn0 : 0 <= strlen nm) by (unfold strlen; lia).
  exists (dirRecord inodeNum entrySize nm). split; [|split].
  - unfold _EntryList.packEntry, pack_uint.
    change (256 ^ Z.of_nat 4) with (2 ^ 32).
    change (256 ^ Z.of_nat 2) with (2 ^ 16).
    change (256 ^ Z.of_nat 1) with 256.
    destruct (Z.leb_spec 0 inodeNum); [|lia].
    destruct (Z.ltb_spec inodeNum (2 ^ 32)); [|lia].
    destruct (Z.leb_spec 0 entrySize); [|lia].
    destruct (Z.ltb_spec entrySize (2 ^ 16)); [|lia].
    destruct (Z.leb_spec 0 (strlen nm)); [|lia].
    destruct (Z.ltb_spec (strlen nm) 256); [|lia].
    cbn [andb bindR]. unfold dirRecord. cbn [le_bytes].
    rewrite (Z.mod_small (strlen nm) 256) by lia. reflexivity.
  - rewrite dirRecord_length. unfold strlen. lia.
  - apply init_dirRecord.
    + change (256 ^ 4) with (2 ^ 32). exact Hi.
    + change (256 ^ 2) with (2 ^ 16). exact Hs.
    + exact Hn0.
Qed.

Lemma entry_pack_parse_round_trip_witness :
  exists byteString,
    _EntryList.packEntry 15 12 "new" = Ok byteString
    /\ Z.of_nat (List.length byteString) = 8 + strlen "new"
    /\ _Entry.__init__ 0 7 84 (byteString ++ [0; 0; 0; 0])
       = Ok (mkEntry "new" 15 12 0 7 84).
Proof.
  apply (entry_pack_parse_round_trip 15 12 "new" 0 7 84 [0; 0; 0; 0]).
  - split; [discriminate|reflexivity].
  - split; [discriminate|reflexivity].
  - discriminate.
Defined.

(** X12.  [_EntryList.__init__] does not return on a block in which the
    scan reaches a record with [inodeNum] not 0 and record length 0:
    [offset += entry.size] leaves the offset in place, so the [while] loop
    has not ended after any number of turns. *)
Theorem scanBlock_spins_on_zero_length_record :
  forall (i blockId : Z) (blockBytes : list Z) (bsize start off : Z) (e : Entry),
    reachesRecord i blockId blockBytes bsize start off ->
    off < bsize ->
    _Entry.__init__ i blockId off (skipn (Z.to_nat off) blockBytes) = Ok e ->
    e_inodeNum e <> 0 ->
    e_size e = 0 ->
    forall fuel,
      _EntryList.scanBlock fuel i blockId start blockBytes bsize = Diverge.
Proof.
  intros i blockId blockBytes bsize start off e Hreach.
  induction Hreach as [off|start e0 off Hlt Hparse Hlive Hreach IH];
    intros Hoff Hp Hl Hz fuel.
  - induction fuel as [|fuel IHf]; cbn [_EntryList.scanBlock].
    + destruct (Z.ltb_spec off bsize); [reflexivity|lia].
    + destruct (Z.ltb_spec off bsize); [|lia].
      rewrite Hp. cbn [bindR].
      destruct (Z.eqb_spec (e_inodeNum e) 0); [contradiction|].
      rewrite Hz, Z.add_0_r, IHf. reflexivity.
  - destruct fuel as [|fuel]; cbn [_EntryList.scanBlock].
    + destruct (Z.ltb_spec start bsize); [reflexivity|lia].
    + destruct (Z.ltb_spec start bsize); [|lia].
      rewrite Hparse. cbn [bindR].
      destruct (Z.eqb_spec (e_inodeNum e0) 0); [contradiction|].
      rewrite (IH Hoff Hp Hl Hz fuel). reflexivity.
Qed.

Lemma scanBlock_spins_on_zero_length_record_witness :
  _EntryList.scanBlock (Z.to_nat 32) 0 7 0
    (dirRecord 2 12 "." ++ [0; 0; 0] ++ dirRecord 2 0 ".." ++ zeros 10) 32 = Diverge.
Proof.
  refine (scanBlock_spins_on_zero_length_record 0 7
           (dirRecord 2 12 "." ++ [0; 0; 0] ++ dirRecord 2 0 ".." ++ zeros 10) 32 0 12
           (mkEntry ".." 2 0 0 7 12) _ _ _ _ _ (Z.to_nat 32)).
  - apply (reaches_next _ _ _ _ 0 (mkEntry "." 2 12 0 7 0)).
    + reflexivity.
    + vm_compute; reflexivity.
    + cbn; discriminate.
    + apply reaches_here.
  - reflexivity.
  - vm_compute; reflexivity.
  - cbn; discriminate.
  - reflexivity.
Defined.



Lemma init_location :
  forall i blockId off byteString e,
    _Entry.__init__ i blockId off byteString = Ok e ->
    e_bindex e = i /\ e_bid e = blockId /\ e_offset e = off.
Proof.
  intros i blockId off byteString e H. unfold _Entry.__init__ in H.
  destruct (unpack_check 7 byteString 0); cbn [bindR] in H; try discriminate.
  destruct (unpack_check _ byteString 8); cbn [bindR] in H; try discriminate.
  inversion H; subst. repeat split.
Qed.

Lemma liveRun_located :
  forall i blockId blockBytes bsize off es,
    liveRun i blockId blockBytes bsize off es ->
    forall e, In e es ->
      e_inodeNum e <> 0
      /\ e_bindex e = i /\ e_bid e = blockId
      /\ e_offset e < bsize
      /\ _Entry.__init__ i blockId (e_offset e)
           (skipn (Z.to_nat (e_offset e)) blockBytes) = Ok e.
Proof.
  intros i blockId blockBytes bsize off es H.
  induction H as [off Hoff|off e0 Hoff Hp Hz|off e0 es Hoff Hp Hlive Hrun IH];
    intros e Hin.
  - destruct Hin.
  - destruct Hin.
  - destruct Hin as [<-|Hin]; [|apply IH; exact Hin].
    destruct (init_location _ _ _ _ _ Hp) as (Hi & Hb & Ho).
    rewrite Ho. repeat split; assumption.
Qed.

Lemma liveBlocks_located :
  forall ino fs indices es,
    liveBlocks ino fs indices es ->
    forall e, In e es ->
      e_inodeNum e <> 0
      /\ e_bid e <> 0
      /\ e_offset e < blockSize fs
      /\ In (e_bindex e) indices
      /\ Filesystem.lookupBlockId ino (e_bindex e) fs = Ok (e_bid e)
      /\ exists blockBytes,
           Filesystem._readBlock (e_bid e) fs = Ok blockBytes
           /\ _Entry.__init__ (e_bindex e) (e_bid e) (e_offset e)
                (skipn (Z.to_nat (e_offset e)) blockBytes) = Ok e.
Proof.
  intros ino fs indices es H.
  induction H
    as [|i rest Hhole|i rest blockId blockBytes es more Hl Hne Hr Hrun Hmore IH];
    intros e Hin.
  - destruct Hin.
  - destruct Hin.
  - apply in_app_or in Hin. destruct Hin as [Hin|Hin].
    + destruct (liveRun_located _ _ _ _ _ _ Hrun e Hin)
        as (Hlive & Hi & Hb & Ho & Hp).
      rewrite Hi, Hb. repeat split; try assumption.
      * left. reflexivity.
      * exists blockBytes. split; assumption.
    + destruct (IH e Hin) as (H1 & H2 & H3 & H4 & H5 & H6).
      repeat split; try assumption. right. exact H4.
Qed.

(** X14.  Every entry of the list that [_EntryList.__init__] builds is a
    record of the directory: its [inodeNum] is not 0, its block index is
    below the number of blocks of the directory and is mapped by the inode
    to its block id, which is not 0, its offset is below [blockSize], and
    parsing the block at that offset gives the entry. *)
Theorem entry_list_entries_are_records :
  forall (ino : Inode) (fs : FS) (es : list Entry),
    _EntryList.__init__ ino fs = Ok es ->
    forall e, In e es ->
      e_inodeNum e <> 0
      /\ e_bid e <> 0
      /\ e_offset e < blockSize fs
      /\ (exists n, numBlocks ino fs = Ok n /\ 0 <= e_bindex e < n)
      /\ Filesystem.lookupBlockId ino (e_bindex e) fs = Ok (e_bid e)
      /\ exists blockBytes,
           Filesystem._readBlock (e_bid e) fs = Ok blockBytes
           /\ _Entry.__init__ (e_bindex e) (e_bid e) (e_offset e)
                (skipn (Z.to_nat (e_offset e)) blockBytes) = Ok e.
Proof.
  intros ino fs es H e Hin. unfold _EntryList.__init__ in H.
  destruct (numBlocks ino fs) as [n| |] eqn:En; cbn [bindR] in H;
    try discriminate.
  apply scanBlocks_sound in H.
  destruct (liveBlocks_located _ _ _ _ H e Hin) as (H1 & H2 & H3 & H4 & H5 & H6).
  repeat split; try assumption.
  exists n. split; [reflexivity|]. apply In_range. exact H4.
Qed.

Lemma entry_list_entries_are_records_witness :
  Filesystem.lookupBlockId Image.rootInode0
    (e_bindex (mkEntry "hello" 12 16 0 7 44)) Image.fs0
  = Ok (e_bid (mkEntry "hello" 12 16 0 7 44)).
Proof.
  assert (H : _EntryList.__init__ Image.rootInode0 Image.fs0
              = Ok Image.rootEntries0) by (vm_compute; reflexivity).
  assert (Hin : In (mkEntry "hello" 12 16 0 7 44) Image.rootEntries0)
    by (cbn; auto).
  exact (proj1 (proj2 (proj2 (proj2 (proj2
           (entry_list_entries_are_records _ _ _ H _ Hin)))))).
Defined.

(** ** [Ext2Directory]: listing, lookup and creation *)

(** X15.  [Ext2Directory.files()], when every entry can be opened, yields
    one file object per entry of the list, in the order of the list; each
    object keeps its entry, bears its name and holds the inode that the
    entry names. *)
Theorem files_opens_each_entry :
  forall (d : File) (fs : FS) (fl : list File),
    Ext2Directory.files d fs = Ok fl ->
    map f_dirEntry fl = map Some (f_entries d)
    /\ map inodeNum fl = map e_inodeNum (f_entries d)
    /\ map name fl = map e_name (f_entries d).
Proof.
  intros d fs. unfold Ext2Directory.files.
  induction (f_entries d) as [|e es IH]; intros fl H.
  - inversion H; subst. repeat split.
  - cbn [mapR] in H.
    destruct (Ext2Directory._openEntry (Some e) fs) as [f| |] eqn:Ef;
      cbn [bindR] in H; try discriminate.
    destruct (mapR _ es) as [fl0| |]; cbn [bindR] in H; try discriminate.
    inversion H; subst; clear H.
    destruct (IH fl0 eq_refl) as (H1 & H2 & H3).
    apply openEntry_fields in Ef. destruct Ef as [Hd Hn].
    cbn [map]. unfold inodeNum, name in *. rewrite Hd, Hn, H1, H2, H3.
    repeat split.
Qed.

Lemma files_opens_each_entry_witness :
  exists fl,
    Ext2Directory.files Image.root0 Image.fs0 = Ok fl
    /\ map inodeNum fl = [2; 2; 11; 12; 13; 14].
Proof.
  eexists. split; [vm_compute; reflexivity|].
  refine (proj1 (proj2 (files_opens_each_entry Image.root0 Image.fs0 _ _))).
  vm_compute; reflexivity.
Defined.

(** X16.  [Ext2Directory.getFileAt] with the empty path or a path made of
    slashes only returns the object it is called on, provided no entry of
    the directory has an empty name. *)
Theorem getFileAt_slashes_is_self :
  forall (self : File) (p : string) (fs : FS),
    all_slash p = true ->
    (forall entry, In entry (f_entries self) -> e_name entry <> EmptyString) ->
    Ext2Directory.getFileAt self p fs = Ok self.
Proof.
  intros self p fs Hp Hnames.
  unfold Ext2Directory.getFileAt, Ext2Directory.getFileAt_object,
    Ext2Directory.pathPartsAt.
  assert (Hparts : dropTrailingEmpty (dropLeadingEmpty (splitSlashes p))
                   = [EmptyString]).
  { destruct p as [|c s]; [reflexivity|].
    cbn [all_slash] in Hp. apply andb_prop in Hp. destruct Hp as [Hc Hs].
    rewrite (splitSlashes_slashes s c Hc Hs). reflexivity. }
  rewrite Hparts. cbn [Ext2Directory.walkParts last].
  assert (Hfind : List.find (fun entry => String.eqb (e_name entry) EmptyString)
                            (f_entries self) = None).
  { induction (f_entries self) as [|a l IH]; [reflexivity|].
    cbn [List.find].
    destruct (String.eqb_spec (e_name a) EmptyString) as [E|_].
    - exfalso. apply (Hnames a); [left; reflexivity|exact E].
    - apply IH. intros entry Hin. apply Hnames. right. exact Hin. }
  rewrite Hfind. destruct (isDir self); reflexivity.
Qed.

Lemma getFileAt_slashes_is_self_witness :
  Ext2Directory.getFileAt Image.root0 "/" Image.fs0 = Ok Image.root0.
Proof.
  apply (getFileAt_slashes_is_self Image.root0 "/" Image.fs0).
  - reflexivity.
  - intros entry Hin. cbn in Hin.
    repeat (destruct Hin as [<-|Hin]; [discriminate|]). destruct Hin.
Defined.

Lemma keepsKind_ret : forall A (a : A), keepsKind (ret a).
Proof. intros A a c r c' H. inversion H. reflexivity. Qed.

Lemma keepsKind_get : keepsKind (@get Ctx).
Proof. intros c r c' H. inversion H. reflexivity. Qed.

Lemma keepsKind_onFS : forall A (m : M FS A), keepsKind (onFS m).
Proof.
  intros A m c r c' H. unfold onFS in H.
  destruct (m (c_fs c)) as [r0 fs']. inversion H. reflexivity.
Qed.

Lemma keepsKind_set_inode : forall ino, keepsKind (set_inode ino).
Proof. intros ino c r c' H. inversion H. reflexivity. Qed.

Lemma keepsKind_bind :
  forall A B (m : M Ctx A) (k : A -> M Ctx B),
    keepsKind m -> (forall a, keepsKind (k a)) -> keepsKind (bind m k).
Proof.
  intros A B m k Hm Hk c r c' H. unfold bind in H.
  destruct (m c) as [[a| e |] c1] eqn:E.
  - rewrite (Hk a c1 r c' H). eapply Hm; eauto.
  - inversion H; subst. eapply Hm; eauto.
  - inversion H; subst. eapply Hm; eauto.
Qed.

Lemma keepsKind_placeEntry :
  forall lastEntry entrySize,
    keepsKind (_EntryList.placeEntry lastEntry entrySize).
Proof.
  intros lastEntry entrySize. unfold _EntryList.placeEntry.
  apply keepsKind_bind; [apply keepsKind_get|]. intros c.
  destruct (_ <? _).
  - apply keepsKind_ret.
  - repeat (first [ apply keepsKind_bind; [|intros ?]
                  | apply keepsKind_onFS
                  | apply keepsKind_set_inode
                  | apply keepsKind_ret ]).
Qed.

(** [re.split] of a string without a slash is the string itself. *)
Lemma splitSlashes_no_slash :
  forall s, rsplitSlash s = None -> splitSlashes s = [s].
Proof.
  induction s as [|c s IH]; intros H; [reflexivity|].
  cbn [rsplitSlash] in H. cbn [splitSlashes].
  destruct (rsplitSlash s) as [[p q]|]; [discriminate|].
  destruct (is_slash c); [discriminate|].
  rewrite IH by reflexivity. reflexivity.
Qed.

Lemma find_app_last :
  forall (A : Type) (p : A -> bool) (l : list A) (x : A),
    existsb p l = false -> p x = true -> List.find p (l ++ [x]) = Some x.
Proof.
  intros A p l x Hl Hx. induction l as [|a l IH]; cbn.
  - rewrite Hx. reflexivity.
  - cbn in Hl. apply orb_false_elim in Hl. destruct Hl as [Ha Hl].
    rewrite Ha. apply IH. exact Hl.
Qed.

(** X17.  Lookup after insertion.  After [append(name, inodeNum)] has
    succeeded on the entry list of a directory, for a name without a slash
    that no entry had before, [getFileAt(name)] on that directory opens
    the new entry: it returns what [_openEntry] returns for it, a file
    object with that name and inode number. *)
Theorem getFileAt_finds_appended_entry :
  forall (c c' : Ctx) (nm : string) (inodeNum : Z) (e : Entry),
    _EntryList.append nm inodeNum c = (Ok e, c') ->
    isDir (c_self c) = true ->
    rsplitSlash nm = None ->
    existsb (fun entry => String.eqb (e_name entry) nm) (f_entries (c_self c))
      = false ->
    Ext2Directory.getFileAt (c_self c') nm (c_fs c')
      = Ext2Directory._openEntry (Some e) (c_fs c')
    /\ forall f, Ext2Directory._openEntry (Some e) (c_fs c') = Ok f ->
         name f = nm /\ i_number (f_inode f) = inodeNum.
Proof.
  intros c c' nm inodeNum e H Hdir Hslash Hnew.
  assert (Hlen : 0 < strlen nm).
  { unfold _EntryList.append in H.
    destruct (255 <? strlen nm); [discriminate|].
    destruct (Z.ltb_spec 0 (strlen nm)); [assumption|discriminate]. }
  destruct (append_steps _ _ _ _ _ H)
    as (lastEntry & c1 & c2 & c3 & byteString
        & _ & Hplace & _ & Hwrite & Hnext & He & ->).
  pose proof (keepsEntries_placeEntry _ _ _ _ _ Hplace) as Hpe.
  pose proof (keepsKind_placeEntry _ _ _ _ _ Hplace) as Hpk.
  pose proof (keepsEntries_onFS _ _ _ _ _ Hwrite) as Hwe.
  pose proof (keepsKind_onFS _ _ _ _ _ Hwrite) as Hwk.
  pose proof (keepsEntries_onFS _ _ _ _ _ Hnext) as Hne.
  pose proof (keepsKind_onFS _ _ _ _ _ Hnext) as Hnk.
  cbn [c_self c_fs].
  assert (Hname : e_name e = nm) by (rewrite He; reflexivity).
  assert (Hino : e_inodeNum e = inodeNum) by (rewrite He; reflexivity).
  assert (Hnm : nm <> EmptyString).
  { intros ->. cbn in Hlen. lia. }
  split.
  - unfold Ext2Directory.getFileAt, Ext2Directory.getFileAt_object,
      Ext2Directory.pathPartsAt.
    rewrite (splitSlashes_no_slash nm Hslash).
    assert (Hparts : dropTrailingEmpty (dropLeadingEmpty [nm]) = [nm]).
    { destruct nm; [contradiction|reflexivity]. }
    rewrite Hparts. cbn [Ext2Directory.walkParts last].
    unfold isDir in *. cbn [f_kind f_entries].
    rewrite Hnk, Hwk, Hpk.
    destruct (f_kind (c_self c)); try discriminate.
    rewrite Hne, Hwe, Hpe.
    rewrite (find_app_last _ _ _ e Hnew)
      by (rewrite Hname; apply String.eqb_refl).
    destruct (Ext2Directory._openEntry (Some e) (c_fs c3)) as [f| |] eqn:Ef;
      cbn [bindR]; [|reflexivity|reflexivity].
    cbn [fst]. apply openEntry_fields in Ef. destruct Ef as [Hd _].
    unfold name. rewrite Hd, Hname, String.eqb_refl.
    rewrite andb_false_r. reflexivity.
  - intros f Hf. apply openEntry_fields in Hf. destruct Hf as [Hd Hn].
    unfold name. rewrite Hd, Hn. split; assumption.
Qed.

Lemma getFileAt_finds_appended_entry_witness :
  exists e c' f,
    _EntryList.append "new" 12 Image.ctx0 = (Ok e, c')
    /\ Ext2Directory.getFileAt (c_self c') "new" (c_fs c') = Ok f
    /\ name f = "new"%string /\ i_number (f_inode f) = 12.
Proof.
  eexists. eexists. eexists.
  match goal with
  | |- ?A /\ _ => assert (H : A) by (vm_compute; reflexivity)
  end.
  split; [exact H|].
  assert (Hd : isDir (c_self Image.ctx0) = true) by reflexivity.
  assert (Hs : rsplitSlash "new" = None) by reflexivity.
  assert (Hn : existsb (fun entry => String.eqb (e_name entry) "new")
                       (f_entries (c_self Image.ctx0)) = false)
    by (vm_compute; reflexivity).
  destruct (getFileAt_finds_appended_entry _ _ _ _ _ H Hd Hs Hn) as [H1 H2].
  match type of H1 with
  | _ = ?o => assert (Ho : o = Ok _) by (vm_compute; reflexivity)
  end.
  split; [exact (eq_trans H1 Ho)|].
  exact (H2 _ Ho).
Defined.

(** X18.  [makeDirectory(name)] for a name without a slash that is blank
    (empty or white space only) raises [FilesystemError("No name
    specified.")], and for a name that an entry of the directory already
    has it raises [FilesystemError("An entry with that name already
    exists.")]; in both cases before anything is allocated or written:
    the directory object and the filesystem are as they were. *)
Theorem makeDirectory_rejects_blank_or_existing_name :
  forall (c : Ctx) (nm : string) (uid gid : option Z),
    rsplitSlash nm = None ->
    all_space nm = true
    \/ existsb (fun entry => String.eqb (e_name entry) nm) (f_entries (c_self c))
       = true ->
    Ext2Directory.makeDirectory nm uid gid c
    = (Raise (FilesystemError
                (if all_space nm then "No name specified."
                 else "An entry with that name already exists.")), c).
Proof.
  intros c nm uid gid Hslash H.
  unfold Ext2Directory.makeDirectory, bind, get.
  unfold Ext2Directory.__makeNewEntry. rewrite Hslash.
  unfold Ext2Directory.makeNewEntry_here.
  destruct (all_space nm).
  - reflexivity.
  - destruct H as [H|H]; [discriminate|].
    unfold bind, get. rewrite H. reflexivity.
Qed.

Lemma makeDirectory_rejects_blank_or_existing_name_witness :
  Ext2Directory.makeDirectory "hello" None None Image.ctx0
  = (Raise (FilesystemError "An entry with that name already exists."), Image.ctx0).
Proof.
  apply (makeDirectory_rejects_blank_or_existing_name Image.ctx0 "hello" None None).
  - reflexivity.
  - right. vm_compute. reflexivity.
Defined.

Lemma writeToBlock_keeps_meta :
  forall bid off bs fs r fs',
    Filesystem._writeToBlock bid off bs fs = (r, fs') ->
    superblock fs' = superblock fs /\ bgdt fs' = bgdt fs.
Proof.
  intros bid off bs fs r fs' H. unfold Filesystem._writeToBlock in H.
  destruct (_DeviceFromFile.write _ _ _) as [r0 d]. inversion H; subst.
  split; reflexivity.
Qed.

Lemma set_nextEntry_keeps_meta :
  forall this value fs r fs',
    _Entry.set_nextEntry this value fs = (r, fs') ->
    superblock fs' = superblock fs /\ bgdt fs' = bgdt fs.
Proof.
  intros this value fs r fs' H. unfold _Entry.set_nextEntry in H.
  unfold bind at 1 in H. unfold get at 1 in H.
  unfold bind at 1 in H.
  destruct (e_bindex value =? e_bindex this).
  - destruct (0 <? e_offset value - e_offset this).
    + unfold ret at 1 in H. unfold bind, liftR in H.
      destruct (pack_uint 2 _) as [bytes| |].
      * eapply writeToBlock_keeps_meta. exact H.
      * inversion H; subst. split; reflexivity.
      * inversion H; subst. split; reflexivity.
    + unfold raise in H. inversion H; subst. split; reflexivity.
  - unfold ret at 1 in H. unfold bind, liftR in H.
    destruct (pack_uint 2 _) as [bytes| |].
    * eapply writeToBlock_keeps_meta. exact H.
    * inversion H; subst. split; reflexivity.
    * inversion H; subst. split; reflexivity.
Qed.

Lemma align4_le : forall n, align4 n <= n.
Proof.
  intros n. unfold align4. pose proof (Z.mod_pos_bound n 4). lia.
Qed.

(** X19.  An [append] that passes the test
    [entrySize + lastEntry._offset + len(lastEntry.name) + 11 < blockSize]
    allocates nothing: the superblock, the group descriptors and the inode
    of the directory are as they were.  The new record goes into the block
    of the last entry, right after the aligned minimum size of that entry,
    and ends before the end of the block. *)
Theorem append_in_block_allocates_nothing :
  forall (c c' : Ctx) (nm : string) (inodeNum : Z) (e lastEntry : Entry),
    _EntryList.append nm inodeNum c = (Ok e, c') ->
    py_index (f_entries (c_self c)) (-1) = Ok lastEntry ->
    align4 (strlen nm + 11) + e_offset lastEntry + strlen (e_name lastEntry) + 11
      < blockSize (c_fs c) ->
    superblock (c_fs c') = superblock (c_fs c)
    /\ bgdt (c_fs c') = bgdt (c_fs c)
    /\ f_inode (c_self c') = f_inode (c_self c)
    /\ e_bindex e = e_bindex lastEntry
    /\ e_bid e = e_bid lastEntry
    /\ e_offset e = e_offset lastEntry + align4 (strlen (e_name lastEntry) + 11)
    /\ e_offset e + e_size e < blockSize (c_fs c).
Proof.
  intros c c' nm inodeNum e lastEntry H Hlast Hfit.
  destruct (append_steps _ _ _ _ _ H)
    as (lastEntry' & c1 & c2 & c3 & byteString
        & Hl & Hplace & _ & Hwrite & Hnext & He & ->).
  rewrite Hlast in Hl. inversion Hl; subst lastEntry'; clear Hl.
  unfold _EntryList.placeEntry, bind, get in Hplace.
  destruct (Z.ltb_spec (align4 (strlen nm + 11) + e_offset lastEntry
                        + strlen (e_name lastEntry) + 11) (blockSize (c_fs c)))
    as [_|]; [|lia].
  unfold ret in Hplace. inversion Hplace as [[Hbi Hbid Hoff Hc1]]; clear Hplace.
  subst c1.
  unfold onFS in Hwrite, Hnext.
  destruct (Filesystem._writeToBlock _ _ _ (c_fs c)) as [r2 fs2] eqn:Ew.
  inversion Hwrite; subst r2 c2; clear Hwrite. cbn [c_fs c_self] in Hnext.
  destruct (_Entry.set_nextEntry lastEntry e fs2) as [r3 fs3] eqn:En.
  inversion Hnext; subst r3 c3; clear Hnext. cbn [c_fs c_self f_inode].
  apply writeToBlock_keeps_meta in Ew. apply set_nextEntry_keeps_meta in En.
  destruct Ew as [Ew1 Ew2], En as [En1 En2].
  rewrite En1, En2, Ew1, Ew2.
  assert (Hsz : e_size e = align4 (strlen nm + 11)) by (rewrite He; reflexivity).
  pose proof (align4_le (strlen (e_name lastEntry) + 11)).
  repeat split; try reflexivity; try lia.
Qed.

Lemma append_in_block_allocates_nothing_witness :
  exists e c',
    _EntryList.append "new" 15 Image.ctx0 = (Ok e, c')
    /\ superblock (c_fs c') = superblock (c_fs Image.ctx0)
    /\ bgdt (c_fs c') = bgdt (c_fs Image.ctx0)
    /\ e_bid e = 7
    /\ e_offset e = 84.
Proof.
  eexists. eexists.
  match goal with
  | |- ?A /\ _ => assert (H : A) by (vm_compute; reflexivity)
  end.
  split; [exact H|].
  assert (Hl : py_index (f_entries (c_self Image.ctx0)) (-1)
               = Ok (mkEntry "tty" 14 952 0 7 72)) by reflexivity.
  assert (Hf : align4 (strlen "new" + 11) + e_offset (mkEntry "tty" 14 952 0 7 72)
               + strlen (e_name (mkEntry "tty" 14 952 0 7 72)) + 11
               < blockSize (c_fs Image.ctx0)) by reflexivity.
  destruct (append_in_block_allocates_nothing _ _ _ _ _ _ H Hl Hf)
    as (H1 & H2 & _ & _ & H5 & H6 & _).
  repeat split; assumption.
Defined.

(** ** Paths in [makeDirectory] and [getFile] *)

Lemma keepsSelf_get : keepsSelf (@get Ctx).
Proof. intros c r c' H. inversion H. reflexivity. Qed.

Lemma keepsSelf_liftR : forall A (f : Ctx -> Result A), keepsSelf (liftR f).
Proof. intros A f c r c' H. inversion H. reflexivity. Qed.

Lemma keepsSelf_onFS : forall A (m : M FS A), keepsSelf (onFS m).
Proof.
  intros A m c r c' H. unfold onFS in H.
  destruct (m (c_fs c)) as [r0 fs']. inversion H. reflexivity.
Qed.

Lemma keepsSelf_bind :
  forall A B (m : M Ctx A) (k : A -> M Ctx B),
    keepsSelf m -> (forall a, keepsSelf (k a)) -> keepsSelf (bind m k).
Proof.
  intros A B m k Hm Hk c r c' H. unfold bind in H.
  destruct (m c) as [[a| e |] c1] eqn:E.
  - rewrite (Hk a c1 r c' H). eapply Hm; eauto.
  - inversion H; subst. eapply Hm; eauto.
  - inversion H; subst. eapply Hm; eauto.
Qed.

(** X20.  [makeDirectory(name)] with a slash in the name, when the part
    before the last slash is found and opened, works on the file object
    that the lookup opened: whatever the outcome, the directory object the
    call was made on is as it was, and its entry list does not hold the
    new entry. *)
Theorem makeDirectory_through_path_keeps_self :
  forall (c c' : Ctx) (nm parentPath localName : string) (uid gid : option Z)
         (parent : File) (r : Result File),
    rsplitSlash nm = Some (parentPath, localName) ->
    Ext2Directory.getFileAt_object (c_self c) parentPath (c_fs c)
      = Ok (parent, true) ->
    Ext2Directory.makeDirectory nm uid gid c = (r, c') ->
    c_self c' = c_self c.
Proof.
  intros c c' nm parentPath localName uid gid parent r Hsplit Hparent H.
  unfold Ext2Directory.makeDirectory in H.
  unfold bind at 1 in H. unfold get at 1 in H.
  unfold bind at 1 in H.
  destruct (Ext2Directory.__makeNewEntry nm 16877 _ _ c) as [re c1] eqn:Em.
  assert (Hself : c_self c1 = c_self c).
  { unfold Ext2Directory.__makeNewEntry in Em. rewrite Hsplit in Em.
    unfold bind at 1 in Em. unfold get at 1 in Em.
    unfold bind at 1 in Em. unfold liftR at 1 in Em.
    rewrite Hparent in Em. cbn [negb] in Em.
    destruct (negb (isDir parent)).
    - inversion Em. reflexivity.
    - destruct (Ext2Directory.makeNewEntry_here localName 16877 _ _ _) as [res cp].
      inversion Em. reflexivity. }
  destruct re as [entry|e|].
  - rewrite <- Hself. revert H.
    generalize c1 r c'.
    change (keepsSelf
      (c2 <- get ;;
       bytes <- liftR (fun _ => Ext2Directory.defaultEntries (e_inodeNum entry)
                                  (i_number (f_inode (c_self c2)))) ;;
       inode <- onFS (liftR (Filesystem._readInode (e_inodeNum entry))) ;;
       bid <- onFS (liftR (Filesystem.lookupBlockId inode 0)) ;;
       onFS (Filesystem._writeToBlock bid 0 bytes) ;;;
       onFS (liftR (Ext2Directory._openEntry (Some entry))))).
    repeat (first [ apply keepsSelf_bind; [|intros ?]
                  | apply keepsSelf_get
                  | apply keepsSelf_liftR
                  | apply keepsSelf_onFS ]).
  - inversion H; subst. exact Hself.
  - inversion H; subst. exact Hself.
Qed.

Lemma makeDirectory_through_path_keeps_self_witness :
  exists f c',
    Ext2Directory.makeDirectory "./new" None None Image.ctx0 = (Ok f, c')
    /\ c_self c' = c_self Image.ctx0.
Proof.
  eexists. eexists.
  match goal with
  | |- ?A /\ _ => assert (H : A) by (vm_compute; reflexivity)
  end.
  split; [exact H|].
  assert (Hs : rsplitSlash "./new" = Some ("."%string, "new"%string))
    by reflexivity.
  assert (Hp : Ext2Directory.getFileAt_object (c_self Image.ctx0) "."
                 (c_fs Image.ctx0)
               = Ok (mkFile KDirectory (Some (mkEntry "." 2 12 0 7 0))
                       Image.rootInode0 Image.rootEntries0, true))
    by (vm_compute; reflexivity).
  exact (makeDirectory_through_path_keeps_self _ _ _ _ _ _ _ _ _ Hs Hp H).
Defined.

(** The child that the loop over [listContents()] stops at is the first
    entry with that name, opened. *)
Lemma findContent_find :
  forall localPath entries fs found,
    findContent localPath entries fs = Ok found ->
    match found with
    | Some f =>
        exists entry,
          List.find (fun e => String.eqb (e_name e) localPath) entries = Some entry
          /\ Ext2Directory._openEntry (Some entry) fs = Ok f
    | None =>
        List.find (fun e => String.eqb (e_name e) localPath) entries = None
    end.
Proof.
  intros localPath entries fs. induction entries as [|a l IH]; intros found H.
  - inversion H; subst. reflexivity.
  - cbn [findContent] in H.
    destruct (Ext2Directory._openEntry (Some a) fs) as [f| |] eqn:Ef;
      cbn [bindR] in H; try discriminate.
    pose proof (openEntry_fields _ _ _ Ef) as [Hd _].
    unfold name in H. rewrite Hd in H. cbn [List.find].
    destruct (String.eqb (e_name a) localPath).
    + inversion H; subst. exists a. split; [reflexivity|exact Ef].
    + apply IH. exact H.
Qed.

Lemma getFile_walk_walkParts :
  forall parts fileObject fs f opened,
    getFile_walk parts fileObject fs = Ok f ->
    exists opened',
      Ext2Directory.walkParts parts fileObject opened fs = Ok (f, opened').
Proof.
  induction parts as [|part rest IH]; intros fileObject fs f opened H.
  - cbn in H. inversion H; subst. exists opened. reflexivity.
  - cbn [getFile_walk] in H. cbn [Ext2Directory.walkParts].
    destruct (isDir fileObject) eqn:Ed; cbn [negb] in H.
    + destruct (findContent part (f_entries fileObject) fs) as [found| |] eqn:Ec;
        cbn [bindR] in H; try discriminate.
      apply findContent_find in Ec. destruct found as [g|].
      * destruct Ec as (entry & Hfind & Hopen). rewrite Hfind, Hopen.
        cbn [bindR]. apply IH. exact H.
      * rewrite Ec. apply IH. exact H.
    + inversion H; subst. clear IH H.
      (* nothing is opened from a file that is not a directory *)
      revert opened. induction rest as [|p rest' IHr]; intros opened.
      * exists opened. reflexivity.
      * cbn [Ext2Directory.walkParts]. rewrite Ed. apply IHr.
Qed.

Lemma splitSlashes_absolute :
  forall p, starts_with_slash p = true ->
    exists rest, splitSlashes p = EmptyString :: rest /\ rest <> [].
Proof.
  induction p as [|c s IH]; intros H; [discriminate|].
  cbn [starts_with_slash] in H. cbn [splitSlashes]. rewrite H.
  destruct (starts_with_slash s) eqn:Es.
  - apply IH. reflexivity.
  - exists (splitSlashes s). split; [reflexivity|apply splitSlashes_nonempty].
Qed.

Lemma splitSlashes_all_empty :
  forall p, forallb (fun s => String.eqb s EmptyString) (splitSlashes p) = true ->
    all_slash p = true.
Proof.
  induction p as [|c s IH]; intros H; [reflexivity|].
  cbn [splitSlashes] in H. cbn [all_slash].
  destruct (is_slash c) eqn:Ec.
  - cbn [andb]. apply IH.
    destruct (starts_with_slash s); [exact H|].
    cbn [forallb] in H. apply andb_prop in H. apply H.
  - destruct (splitSlashes s) as [|h t]; cbn in H; discriminate.
Qed.

Lemma dropTrailingEmpty_absolute :
  forall rest, rest <> [] -> rest <> [EmptyString] ->
    dropTrailingEmpty (EmptyString :: rest)
      = EmptyString :: dropTrailingEmpty rest
    /\ dropTrailingEmpty rest <> [].
Proof.
  intros [|x [|y t]] Hne Hne1.
  - contradiction.
  - destruct x as [|a x]; [contradiction|]. split; [reflexivity|discriminate].
  - unfold dropTrailingEmpty.
    change (last (EmptyString :: x :: y :: t) EmptyString)
      with (last (x :: y :: t) EmptyString).
    change (removelast (EmptyString :: x :: y :: t))
      with (EmptyString :: removelast (x :: y :: t)).
    destruct (last (x :: y :: t) EmptyString).
    + split; [reflexivity|].
      change (removelast (x :: y :: t)) with (x :: removelast (y :: t)).
      discriminate.
    + split; [reflexivity|discriminate].
Qed.

(** X21.  [Ext2Disk.getFile] and [Ext2Directory.getFileAt] agree.  For a
    path that starts with a slash and is not made of slashes only, the
    file that [getFile] returns is the file that [getFileAt] returns for
    the same path on the root directory. *)
Theorem getFile_agrees_with_getFileAt :
  forall (p : string) (fs : FS) (root f : File),
    starts_with_slash p = true ->
    all_slash p = false ->
    Ext2Directory._openEntry None fs = Ok root ->
    Ext2Disk_getFile p fs = Ok f ->
    Ext2Directory.getFileAt root p fs = Ok f.
Proof.
  intros p fs root f Habs Hns Hroot H.
  destruct (splitSlashes_absolute p Habs) as (rest & Hsplit & Hrest).
  assert (Hrest1 : rest <> [EmptyString]).
  { intros ->. rewrite (splitSlashes_all_empty p) in Hns; [discriminate|].
    rewrite Hsplit. reflexivity. }
  destruct (dropTrailingEmpty_absolute rest Hrest Hrest1) as [Hdrop Hparts].
  unfold Ext2Disk_getFile in H.
  destruct (negb (_DeviceFromFile.isMounted (device fs))); [discriminate|].
  rewrite Hsplit in H. cbn [String.eqb negb] in H.
  rewrite Hdrop, Hroot in H. cbn [bindR tl] in H.
  destruct (getFile_walk (dropTrailingEmpty rest) root fs) as [g| |] eqn:Ew;
    cbn [bindR] in H; try discriminate.
  destruct (String.eqb_spec (name g)
              (last (EmptyString :: dropTrailingEmpty rest) EmptyString))
    as [Hname|]; [|discriminate].
  cbn [negb] in H. inversion H; subst g; clear H.
  unfold Ext2Directory.getFileAt, Ext2Directory.getFileAt_object,
    Ext2Directory.pathPartsAt.
  rewrite Hsplit.
  assert (Hlead : dropLeadingEmpty (EmptyString :: rest) = rest).
  { destruct rest; [contradiction|reflexivity]. }
  rewrite Hlead.
  destruct (dropTrailingEmpty rest) as [|part parts] eqn:Ep; [contradiction|].
  destruct (getFile_walk_walkParts _ _ _ _ false Ew) as [o Hw].
  rewrite Hw. cbn [bindR fst].
  assert (Hlast : last (EmptyString :: part :: parts) EmptyString
                  = last (part :: parts) EmptyString) by reflexivity.
  rewrite Hlast in Hname. rewrite <- Hname.
  rewrite String.eqb_refl, andb_false_r. reflexivity.
Qed.

Lemma getFile_agrees_with_getFileAt_witness :
  exists f,
    Ext2Disk_getFile "/lost+found" Image.fs0 = Ok f
    /\ Ext2Directory.getFileAt Image.root0 "/lost+found" Image.fs0 = Ok f.
Proof.
  eexists.
  match goal with
  | |- ?A /\ _ => assert (H : A) by (vm_compute; reflexivity)
  end.
  split; [exact H|].
  assert (Hr : Ext2Directory._openEntry None Image.fs0 = Ok Image.root0)
    by (vm_compute; reflexivity).
  exact (getFile_agrees_with_getFileAt "/lost+found" Image.fs0 Image.root0 _
           eq_refl eq_refl Hr H).
Defined.
